(** * camera-control: configuration protocol and acquisition sequence

    A shallow embedding of [src/main.py].  The PySpin driver is an external
    collaborator; it is represented by an explicit device state ([Camera])
    whose fields say what each driver call answers and whether it raises.
    Python functions that take a [cam] become computations over that
    camera's state; [capture] and [main] run over the whole camera list.
    Every driver call that has an effect on the device, and every [print],
    is recorded in the trace of the computation. *)

From Stdlib Require Import ZArith Ascii String List DecimalString DecimalNat.
From stdpp Require Import gmap strings list fin_maps.

Open Scope string_scope.
Open Scope list_scope.

(** ** Python values and exceptions *)

Inductive exn :=
| SpinnakerException
| IndexError
| ValueError
| UnboundLocalError
| OSError.

Inductive outcome (A : Type) :=
| Ok (a : A)
| Raise (e : exn).
Arguments Ok {A} a.
Arguments Raise {A} e.

Inductive pyval :=
| PInt (z : Z)
| PStr (s : string).

Definition exn_eqb (a b : exn) : bool :=
  match a, b with
  | SpinnakerException, SpinnakerException
  | IndexError, IndexError
  | ValueError, ValueError
  | UnboundLocalError, UnboundLocalError
  | OSError, OSError => true
  | _, _ => false
  end.

(** ** Strings: the fragment of [str] used by [capture] *)

Module PyStr.

Definition TAB : ascii := "009"%char.
Definition NL : ascii := "010"%char.

(** [s.split(sep)] for a one-character separator: never the empty list. *)
Fixpoint split (sep : ascii) (s : string) : list string :=
  match s with
  | EmptyString => [EmptyString]
  | String c rest =>
      if Ascii.eqb c sep then EmptyString :: split sep rest
      else match split sep rest with
           | f :: fs => String c f :: fs
           | [] => [String c EmptyString]
           end
  end.

(** [f.readlines()] on the text of a file: every line keeps its newline. *)
Fixpoint readlines (s : string) : list string :=
  match s with
  | EmptyString => []
  | String c rest =>
      if Ascii.eqb c NL then String c EmptyString :: readlines rest
      else match readlines rest with
           | l :: ls => String c l :: ls
           | [] => [String c EmptyString]
           end
  end.

(** [s[:-1]] *)
Fixpoint drop_last (s : string) : string :=
  match s with
  | EmptyString => EmptyString
  | String c EmptyString => EmptyString
  | String c rest => String c (drop_last rest)
  end.

(** [xs[i]] on a list: [IndexError] out of range. *)
Definition index {A} (xs : list A) (i : nat) : outcome A :=
  match xs !! i with
  | Some x => Ok x
  | None => Raise IndexError
  end.

Definition tab : string := String TAB EmptyString.
Definition nl : string := String NL EmptyString.

(** Line [i] of a text, as [readlines] gives it (empty when there is none). *)
Definition line_of (text : string) (i : nat) : string :=
  match readlines text !! i with
  | Some l => l
  | None => EmptyString
  end.

End PyStr.

(** ** The gain lookup of [capture] (lines 453-459)

    [gain] is a local of [capture]: [None] stands for "not bound yet".  The
    loop only ever binds it, so the binding that comes in is the one that
    goes out when no block matches. *)

Module Lookup.
Import PyStr.

Definition outcome_bind {A B} (o : outcome A) (k : A -> outcome B) : outcome B :=
  match o with
  | Ok a => k a
  | Raise e => Raise e
  end.

(** One iteration of [for i, line in enumerate(lines)]. *)
Definition lookup_step (lines : list string) (serial_number : string)
    (i : nat) (line : string) (gain : option string) : outcome (option string) :=
  outcome_bind (index (split TAB line) 0) (fun key =>
  if String.eqb key "DeviceSerialNumber" then
    outcome_bind (index (split TAB line) 1) (fun value =>
    if String.eqb value serial_number then
      outcome_bind (index lines (i + 1)) (fun next =>
      outcome_bind (index (split TAB next) 0) (fun next_key =>
      if String.eqb next_key "Gain" then
        outcome_bind (index (split TAB next) 1) (fun next_value =>
        Ok (Some (drop_last next_value)))
      else Raise ValueError))
    else Ok gain)
  else Ok gain).

Fixpoint lookup_from (lines : list string) (serial_number : string)
    (i : nat) (rest : list string) (gain : option string) : outcome (option string) :=
  match rest with
  | [] => Ok gain
  | line :: rest' =>
      outcome_bind (lookup_step lines serial_number i line gain) (fun gain' =>
      lookup_from lines serial_number (S i) rest' gain')
  end.

Definition lookup_gain (lines : list string) (serial_number : string)
    (gain : option string) : outcome (option string) :=
  lookup_from lines serial_number 0 lines gain.

End Lookup.

(** ** Computations: state, exceptions and a trace

    A Python statement sequence over a mutable object becomes a function
    from the object's state to an outcome, the new state and the events
    emitted.  State changes and events made before an exception stay. *)

Definition M (E S A : Type) : Type := S -> outcome A * S * list E.

Section Computation.
Context {E S : Type}.

Definition ret {A} (a : A) : M E S A := fun s => (Ok a, s, []).

Definition bind {A B} (m : M E S A) (k : A -> M E S B) : M E S B :=
    fun s =>
      match m s with
      | (Ok a, s', t) => let '(r, s'', t') := k a s' in (r, s'', t ++ t')
      | (Raise e, s', t) => (Raise e, s', t)
      end.

Definition raise {A} (e : exn) : M E S A := fun s => (Raise e, s, []).

Definition emit (e : E) : M E S unit := fun s => (Ok tt, s, [e]).

Definition gets {A} (f : S -> A) : M E S A := fun s => (Ok (f s), s, []).

Definition modify (f : S -> S) : M E S unit := fun s => (Ok tt, f s, []).

Definition lift_outcome {A} (o : outcome A) : M E S A := fun s => (o, s, []).

  (** [try: m  except PySpin.SpinnakerException: h] *)
Definition try_except {A} (m h : M E S A) : M E S A :=
    fun s =>
      match m s with
      | (Raise SpinnakerException, s', t) =>
          let '(r, s'', t') := h s' in (r, s'', t ++ t')
      | other => other
      end.

  (** [a and b] on two calls: [b] is not evaluated when [a] is false. *)
Definition py_and (a b : M E S bool) : M E S bool :=
    bind a (fun x => if x then b else ret false).

  (** [for x in xs: body] *)
Fixpoint for_ {A} (xs : list A) (body : A -> M E S unit) : M E S unit :=
    match xs with
    | [] => ret tt
    | x :: xs' => bind (body x) (fun _ => for_ xs' body)
    end.

  (** [for x in xs: body] where the body may [return v] ([Some v]). *)
Fixpoint for_return {A R} (xs : list A) (body : A -> M E S (option R))
      : M E S (option R) :=
    match xs with
    | [] => ret None
    | x :: xs' =>
        bind (body x) (fun r =>
        match r with
        | Some v => ret (Some v)
        | None => for_return xs' body
        end)
    end.

Definition result_of {A} (x : outcome A * S * list E) : outcome A := x.1.1.
Definition state_of {A} (x : outcome A * S * list E) : S := x.1.2.
Definition trace_of {A} (x : outcome A * S * list E) : list E := x.2.
End Computation.

Declare Scope comp_scope.
Delimit Scope comp_scope with comp.
Notation "x <- m ;; k" := (bind m (fun x => k))
  (at level 100, m at next level, right associativity) : comp_scope.
Notation "m ;; k" := (bind m (fun _ => k))
  (at level 100, right associativity) : comp_scope.
Open Scope comp_scope.

(** ** The device: feature tree, frames, driver faults *)

Inductive nodemap := NodeMap | TLDeviceNodeMap.

Inductive kind := KEnumeration | KInteger | KFloat | KString | KCategory | KValue.

Record Entry := {
  entry_available : bool;
  entry_readable : bool;
  entry_value : Z;
  entry_display_name : string
}.

Inductive NodeData :=
| Enumeration (entries : gmap string Entry) (current : Z)
| Integer (value : Z) (maximum : Z)
| Float (value : pyval)
| StringNode (value : string)
| Category (features : list string).

Record Node := {
  node_available : bool;
  node_readable : bool;
  node_writable : bool;
  node_display_name : string;
  node_fault : bool;          (* the driver raises on any access to its content *)
  node_data : NodeData
}.

Record Frame := {
  frame_incomplete : bool;
  frame_status : Z;
  frame_width : Z;
  frame_height : Z;
  frame_save_ok : bool;       (* [Save] returns rather than raises *)
  frame_release_ok : bool
}.

Record Camera := {
  cam_nodes : gmap string Node;          (* [cam.GetNodeMap()] *)
  cam_tl_nodes : gmap string Node;       (* [cam.GetTLDeviceNodeMap()] *)
  cam_frames : list (option Frame);      (* what the next [GetNextImage] calls deliver;
                                            [None] and the empty list: the call raises *)
  cam_held : nat;                        (* frames retrieved and not yet released *)
  cam_init_ok : bool;
  cam_nodemap_ok : bool;
  cam_begin_ok : bool;
  cam_end_ok : bool;
  cam_deinit_ok : bool
}.

(** A typed pointer: a node addressed by name and seen through one of the
    typed views ([CEnumerationPtr], [CIntegerPtr], ...), or an entry of an
    enumeration node. *)
Inductive ptr :=
| NodePtr (nm : nodemap) (name : string) (k : kind)
| EntryPtr (nm : nodemap) (name : string) (entry : string).

Inductive message :=
| MsgSetTo (setting choice : string)          (* "{setting} set to {choice}" *)
| MsgIsNotAvailable (name : string)           (* "{name} is not available..." *)
| MsgError                                    (* "Error: %s" % ex *)
| MsgSetGain (gain : pyval)                   (* "Set gain to {}" *)
| MsgUnableGain                               (* "Unable to set Gain (float retrieval). Aborting..." *)
| MsgUnableGainAutoEntry                      (* "Unable to set Gain Auto (entry retrieval). Aborting..." *)
| MsgUnableGainAutoEnum                       (* "Unable to set Gain Auto (enumeration retrieval). Aborting..." *)
| MsgDimensionSet (name : string) (v : Z)     (* "Width set to %i..." / "Height set to %i..." *)
| MsgDimensionNotAvailable (name : string)    (* "Width not available..." / "Height not available..." *)
| MsgDeviceInformation                        (* "*** DEVICE INFORMATION ***" *)
| MsgFeature (name text : string)             (* "%s: %s" *)
| MsgDeviceInfoNotAvailable                   (* "Device control information not available." *)
| MsgAcquiring                                (* "Acquiring images..." *)
| MsgSerialRetrieved (serial : string)        (* "Device serial number retrieved as %s..." *)
| MsgIncomplete (status : Z)                  (* "Image incomplete with image status %d ..." *)
| MsgGrabbed (i : nat) (width height : Z)     (* "Grabbed Image %d, width = %d, height = %d" *)
| MsgSaved (filename : string)                (* "Image saved at %s" *)
| MsgBlank                                    (* "" *)
| MsgConfiguring (serial : string)            (* "*** CONFIGURING CAMERA %s ***", serial *)
| MsgGainUndefined (serial : string)          (* "Gain isn't defined for {}" *)
| MsgCannotWrite                              (* "Unable to write to current directory. ..." *)
| MsgLibraryVersion                           (* "Library version: %d.%d.%d.%d" *)
| MsgNumCameras (n : nat)                     (* "Number of cameras detected: %d" *)
| MsgNotEnoughCameras                         (* "Not enough cameras!" *)
| MsgCamera.                                  (* print(cam) *)

(** What a camera-level computation can emit: the driver calls that act
    on the device, and [print]. *)
Inductive action :=
| EvInit
| EvDeInit
| EvBeginAcquisition
| EvEndAcquisition
| EvGetNextImage
| EvSave (path : string)
| EvRelease
| EvSetIntValue (p : ptr) (v : Z)
| EvSetValue (p : ptr) (v : pyval)
| EvPrint (m : message).

(** What a session emits: an action on the camera at index [i] of
    [cam_list], or a line printed by [capture] or [main] themselves. *)
Inductive event :=
| OnCam (i : nat) (a : action)
| Out (m : message).

Definition CamM := M action Camera.
Definition SessionM := M event (list Camera).

Definition print (m : message) : CamM unit := emit (EvPrint m).

Definition show_Z (z : Z) : string := NilZero.string_of_int (Z.to_int z).
Definition show_nat (n : nat) : string := NilZero.string_of_uint (Nat.to_uint n).

(** ** The driver: PySpin calls on a camera *)

Module PySpin.

Definition nodes_of (nm : nodemap) (c : Camera) : gmap string Node :=
  match nm with
  | NodeMap => cam_nodes c
  | TLDeviceNodeMap => cam_tl_nodes c
  end.

Definition with_nodes (nm : nodemap) (f : gmap string Node -> gmap string Node)
    (c : Camera) : Camera :=
  {| cam_nodes := match nm with NodeMap => f (cam_nodes c) | _ => cam_nodes c end;
     cam_tl_nodes := match nm with TLDeviceNodeMap => f (cam_tl_nodes c) | _ => cam_tl_nodes c end;
     cam_frames := cam_frames c;
     cam_held := cam_held c;
     cam_init_ok := cam_init_ok c;
     cam_nodemap_ok := cam_nodemap_ok c;
     cam_begin_ok := cam_begin_ok c;
     cam_end_ok := cam_end_ok c;
     cam_deinit_ok := cam_deinit_ok c |}.

Definition with_frames (fs : list (option Frame)) (held : nat) (c : Camera) : Camera :=
  {| cam_nodes := cam_nodes c;
     cam_tl_nodes := cam_tl_nodes c;
     cam_frames := fs;
     cam_held := held;
     cam_init_ok := cam_init_ok c;
     cam_nodemap_ok := cam_nodemap_ok c;
     cam_begin_ok := cam_begin_ok c;
     cam_end_ok := cam_end_ok c;
     cam_deinit_ok := cam_deinit_ok c |}.

Definition with_data (d : NodeData) (n : Node) : Node :=
  {| node_available := node_available n;
     node_readable := node_readable n;
     node_writable := node_writable n;
     node_display_name := node_display_name n;
     node_fault := node_fault n;
     node_data := d |}.

Definition kind_matches (k : kind) (d : NodeData) : bool :=
  match k, d with
  | KEnumeration, Enumeration _ _
  | KInteger, Integer _ _
  | KFloat, Float _
  | KString, StringNode _
  | KCategory, Category _
  | KValue, _ => true
  | _, _ => false
  end.

(** The node a typed pointer stands for: none when the name is not in the
    node map or the node is not of the pointer's type (a null pointer). *)
Definition deref_node (nm : nodemap) (name : string) (k : kind) (c : Camera)
    : option Node :=
  match nodes_of nm c !! name with
  | Some n => if kind_matches k (node_data n) then Some n else None
  | None => None
  end.

Definition deref_entry (nm : nodemap) (name entry : string) (c : Camera)
    : option Entry :=
  match deref_node nm name KEnumeration c with
  | Some n =>
      match node_data n with
      | Enumeration entries _ => entries !! entry
      | _ => None
      end
  | None => None
  end.

(** [cam.GetNodeMap()], [cam.GetTLDeviceNodeMap()] *)
Definition GetNodeMap : CamM nodemap :=
  ok <- gets cam_nodemap_ok ;;
  if ok then ret NodeMap else raise SpinnakerException.

Definition GetTLDeviceNodeMap : CamM nodemap := ret TLDeviceNodeMap.

(** [PySpin.CEnumerationPtr(nodemap.GetNode(name))] and its siblings. *)
Definition GetNode (nm : nodemap) (name : string) : nodemap * string := (nm, name).
Definition CEnumerationPtr (r : nodemap * string) : ptr := NodePtr r.1 r.2 KEnumeration.
Definition CIntegerPtr (r : nodemap * string) : ptr := NodePtr r.1 r.2 KInteger.
Definition CFloatPtr (r : nodemap * string) : ptr := NodePtr r.1 r.2 KFloat.
Definition CStringPtr (r : nodemap * string) : ptr := NodePtr r.1 r.2 KString.
Definition CCategoryPtr (r : nodemap * string) : ptr := NodePtr r.1 r.2 KCategory.
Definition CValuePtr (r : nodemap * string) : ptr := NodePtr r.1 r.2 KValue.
Definition CEnumEntryPtr (p : ptr) : ptr := p.

(** The gating predicates: false on a null pointer, never raising. *)
Definition is_available (p : ptr) (c : Camera) : bool :=
  match p with
  | NodePtr nm name k =>
      match deref_node nm name k c with Some n => node_available n | None => false end
  | EntryPtr nm name entry =>
      match deref_entry nm name entry c with Some e => entry_available e | None => false end
  end.

Definition is_readable (p : ptr) (c : Camera) : bool :=
  match p with
  | NodePtr nm name k =>
      match deref_node nm name k c with Some n => node_readable n | None => false end
  | EntryPtr nm name entry =>
      match deref_entry nm name entry c with Some e => entry_readable e | None => false end
  end.

Definition is_writable (p : ptr) (c : Camera) : bool :=
  match p with
  | NodePtr nm name k =>
      match deref_node nm name k c with Some n => node_writable n | None => false end
  | EntryPtr _ _ _ => false
  end.

Definition IsAvailable (p : ptr) : CamM bool := gets (is_available p).
Definition IsReadable (p : ptr) : CamM bool := gets (is_readable p).
Definition IsWritable (p : ptr) : CamM bool := gets (is_writable p).

(** Access to the content of a node: raises on a null pointer and on a
    node the driver faults on. *)
Definition the_node (p : ptr) : CamM Node :=
  match p with
  | NodePtr nm name k =>
      o <- gets (deref_node nm name k) ;;
      match o with
      | Some n => if node_fault n then raise SpinnakerException else ret n
      | None => raise SpinnakerException
      end
  | EntryPtr _ _ _ => raise SpinnakerException
  end.

Definition the_entry (p : ptr) : CamM Entry :=
  match p with
  | EntryPtr nm name entry =>
      _ <- the_node (NodePtr nm name KEnumeration) ;;
      o <- gets (deref_entry nm name entry) ;;
      match o with
      | Some e => ret e
      | None => raise SpinnakerException
      end
  | NodePtr _ _ _ => raise SpinnakerException
  end.

Definition GetDisplayName (p : ptr) : CamM string :=
  match p with
  | NodePtr _ _ _ => n <- the_node p ;; ret (node_display_name n)
  | EntryPtr _ _ _ => e <- the_entry p ;; ret (entry_display_name e)
  end.

Definition GetName (p : ptr) : CamM string :=
  match p with
  | NodePtr _ name _ => _ <- the_node p ;; ret name
  | EntryPtr _ _ entry => _ <- the_entry p ;; ret entry
  end.

(** [setting_ptr.GetEntryByName(choice)]: the entry pointer, null when the
    enumeration has no such entry. *)
Definition GetEntryByName (p : ptr) (entry : string) : CamM ptr :=
  _ <- the_node p ;;
  match p with
  | NodePtr nm name _ => ret (EntryPtr nm name entry)
  | EntryPtr _ _ _ => raise SpinnakerException
  end.

(** [GetValue()] at [CEnumEntryPtr], [CIntegerPtr] and [CStringPtr]. *)
Definition GetValue_entry (p : ptr) : CamM Z :=
  e <- the_entry p ;; ret (entry_value e).

Definition GetValue_int (p : ptr) : CamM Z :=
  n <- the_node p ;;
  match node_data n with
  | Integer v _ => ret v
  | _ => raise SpinnakerException
  end.

Definition GetValue_str (p : ptr) : CamM string :=
  n <- the_node p ;;
  match node_data n with
  | StringNode s => ret s
  | _ => raise SpinnakerException
  end.

Definition GetMax (p : ptr) : CamM Z :=
  n <- the_node p ;;
  match node_data n with
  | Integer _ m => ret m
  | _ => raise SpinnakerException
  end.

Definition GetFeatures (p : ptr) : CamM (list (nodemap * string)) :=
  n <- the_node p ;;
  match p, node_data n with
  | NodePtr nm _ _, Category fs => ret (map (GetNode nm) fs)
  | _, _ => raise SpinnakerException
  end.

Definition ToString (p : ptr) : CamM string :=
  n <- the_node p ;;
  ret match node_data n with
      | Enumeration _ cur => show_Z cur
      | Integer v _ => show_Z v
      | Float (PInt z) => show_Z z
      | Float (PStr s) => s
      | StringNode s => s
      | Category _ => ""
      end.

(** The writes.  The driver does not gate them itself: a write goes
    through whatever the node's flags are, so that gating is a property
    of the callers.  The call is recorded before anything else. *)
Definition store (p : ptr) (d : NodeData) : CamM unit :=
  n <- the_node p ;;
  match p with
  | NodePtr nm name _ => modify (with_nodes nm (insert name (with_data d n)))
  | EntryPtr _ _ _ => raise SpinnakerException
  end.

Definition SetIntValue (p : ptr) (v : Z) : CamM unit :=
  emit (EvSetIntValue p v) ;;
  n <- the_node p ;;
  match node_data n with
  | Enumeration entries _ => store p (Enumeration entries v)
  | _ => raise SpinnakerException
  end.

Definition SetValue_int (p : ptr) (v : Z) : CamM unit :=
  emit (EvSetValue p (PInt v)) ;;
  n <- the_node p ;;
  match node_data n with
  | Integer _ m => if (v <=? m)%Z then store p (Integer v m) else raise SpinnakerException
  | _ => raise SpinnakerException
  end.

Definition SetValue_float (p : ptr) (v : pyval) : CamM unit :=
  emit (EvSetValue p v) ;;
  n <- the_node p ;;
  match node_data n with
  | Float _ => store p (Float v)
  | _ => raise SpinnakerException
  end.

(** Life cycle calls. *)
Definition lifecycle (a : action) (ok : Camera -> bool) : CamM unit :=
  emit a ;;
  b <- gets ok ;;
  if b then ret tt else raise SpinnakerException.

Definition Init : CamM unit := lifecycle EvInit cam_init_ok.
Definition DeInit : CamM unit := lifecycle EvDeInit cam_deinit_ok.
Definition BeginAcquisition : CamM unit := lifecycle EvBeginAcquisition cam_begin_ok.
Definition EndAcquisition : CamM unit := lifecycle EvEndAcquisition cam_end_ok.

(** [cam.GetNextImage(timeout)]: the next frame of the device's buffer,
    which the device holds until it is released. *)
Definition GetNextImage (timeout : Z) : CamM Frame :=
  emit EvGetNextImage ;;
  fs <- gets cam_frames ;;
  held <- gets cam_held ;;
  match fs with
  | [] => raise SpinnakerException
  | None :: rest => modify (with_frames rest held) ;; raise SpinnakerException
  | Some f :: rest => modify (with_frames rest (S held)) ;; ret f
  end.

Definition IsIncomplete (f : Frame) : bool := frame_incomplete f.
Definition GetImageStatus (f : Frame) : Z := frame_status f.
Definition GetWidth (f : Frame) : Z := frame_width f.
Definition GetHeight (f : Frame) : Z := frame_height f.

Definition Save (f : Frame) (path : string) : CamM unit :=
  emit (EvSave path) ;;
  if frame_save_ok f then ret tt else raise SpinnakerException.

Definition Release (f : Frame) : CamM unit :=
  emit EvRelease ;;
  if frame_release_ok f then
    fs <- gets cam_frames ;;
    held <- gets cam_held ;;
    modify (with_frames fs (pred held))
  else raise SpinnakerException.

End PySpin.

(** ** [src/main.py] *)

Import PySpin.

Definition NUM_IMAGES : nat := 1.

(** [change_enum_setting(cam, setting, choice)], lines 40-69. *)
Definition change_enum_setting (setting choice : string) : CamM unit :=
  try_except
    (nodemap <- GetNodeMap ;;
     let setting_ptr := CEnumerationPtr (GetNode nodemap setting) in
     ok <- py_and (IsAvailable setting_ptr) (IsWritable setting_ptr) ;;
     if ok then
       entry <- GetEntryByName setting_ptr choice ;;
       let choice_ptr := CEnumEntryPtr entry in
       ok' <- py_and (IsAvailable choice_ptr) (IsReadable choice_ptr) ;;
       if ok' then
         choice_value <- GetValue_entry choice_ptr ;;
         SetIntValue setting_ptr choice_value ;;
         s <- GetDisplayName setting_ptr ;;
         c <- GetDisplayName choice_ptr ;;
         print (MsgSetTo s c)
       else
         c <- GetDisplayName choice_ptr ;;
         print (MsgIsNotAvailable c)
     else
       s <- GetDisplayName setting_ptr ;;
       print (MsgIsNotAvailable s))
    (print MsgError).

(** [change_gain(cam, gain)], lines 72-100. *)
Definition change_gain (gain : pyval) : CamM unit :=
  nodemap <- GetNodeMap ;;
  let node_gain_auto := CEnumerationPtr (GetNode nodemap "GainAuto") in
  ok <- py_and (IsAvailable node_gain_auto) (IsWritable node_gain_auto) ;;
  if ok then
    entry_gain_auto_off <- GetEntryByName node_gain_auto "Off" ;;
    ok' <- py_and (IsAvailable entry_gain_auto_off) (IsReadable entry_gain_auto_off) ;;
    if ok' then
      gain_auto_off <- GetValue_entry entry_gain_auto_off ;;
      SetIntValue node_gain_auto gain_auto_off ;;
      let node_gain := CFloatPtr (GetNode nodemap "Gain") in
      ok'' <- py_and (IsAvailable node_gain) (IsWritable node_gain) ;;
      if ok'' then
        SetValue_float node_gain gain ;;
        print (MsgSetGain gain)
      else print MsgUnableGain
    else print MsgUnableGainAutoEntry
  else print MsgUnableGainAutoEnum.

(** The two blocks of [configure_camera] that set an extent to its
    maximum: lines 166-174 with ["Width"], lines 181-188 with ["Height"]. *)
Definition set_maximum (nodemap : nodemap) (name : string) : CamM unit :=
  let node := CIntegerPtr (GetNode nodemap name) in
  ok <- py_and (IsAvailable node) (IsWritable node) ;;
  if ok then
    to_set <- GetMax node ;;
    SetValue_int node to_set ;;
    v <- GetValue_int node ;;
    print (MsgDimensionSet name v)
  else print (MsgDimensionNotAvailable name).

(** The body of the [try] of [configure_camera], lines 119-211. *)
Definition configure_camera_body (nodemap : nodemap) (gain : pyval) : CamM bool :=
  let result := true in
  change_enum_setting "PixelFormat" "Mono16" ;;
  set_maximum nodemap "Width" ;;
  set_maximum nodemap "Height" ;;
  change_enum_setting "TriggerMode" "Off" ;;
  change_enum_setting "TriggerSource" "Line3" ;;
  change_enum_setting "TriggerMode" "On" ;;
  change_enum_setting "SensorShutterMode" "GlobalReset" ;;
  change_gain gain ;;
  change_enum_setting "AcquisitionMode" "SingleFrame" ;;
  ret result.

(** [configure_camera(cam, gain)], lines 103-217. *)
Definition configure_camera (gain : pyval) : CamM bool :=
  nodemap <- GetNodeMap ;;
  try_except
    (configure_camera_body nodemap gain)
    (print MsgError ;; ret false).

(** [print_device_info(nodemap)], lines 220-263. *)
Definition print_device_info (nodemap : nodemap) : CamM bool :=
  print MsgDeviceInformation ;;
  try_except
    (let result := true in
     let node_device_information :=
       CCategoryPtr (GetNode nodemap "DeviceInformation") in
     ok <- py_and (IsAvailable node_device_information)
                  (IsReadable node_device_information) ;;
     (if ok then
        features <- GetFeatures node_device_information ;;
        for_ features (fun feature =>
          let node_feature := CValuePtr feature in
          name <- GetName node_feature ;;
          readable <- IsReadable node_feature ;;
          text <- (if readable then ToString node_feature
                   else ret "Node not readable") ;;
          print (MsgFeature name text))
      else print MsgDeviceInfoNotAvailable) ;;
     ret result)
    (print MsgError ;; ret false).

(** The file name of frame [i], lines 385-391. *)
Definition filename (device_serial_number : string) (i : nat) : string :=
  if String.eqb device_serial_number "" then
    "RatKingReigns-" +:+ show_nat i +:+ ".png"
  else
    "RatKingReigns-" +:+ device_serial_number +:+ "-" +:+ show_nat i +:+ ".png".

(** One pass of the loop of [acquire_images], lines 325-414: [Some v]
    when the pass executes [return v]. *)
Definition acquire_one (directory device_serial_number : string) (i : nat)
    : CamM (option bool) :=
  try_except
    (let timeout := 10000%Z in
     image_result <- GetNextImage timeout ;;
     if IsIncomplete image_result then
       print (MsgIncomplete (GetImageStatus image_result)) ;;
       ret None
     else
       let width := GetWidth image_result in
       let height := GetHeight image_result in
       print (MsgGrabbed i width height) ;;
       let filename := filename device_serial_number i in
       Save image_result (directory +:+ "/" +:+ filename) ;;
       print (MsgSaved filename) ;;
       Release image_result ;;
       print MsgBlank ;;
       ret None)
    (print MsgError ;;
     EndAcquisition ;;
     ret (Some false)).

(** [acquire_images(cam, directory)], lines 266-420. *)
Definition acquire_images (directory : string) : CamM bool :=
  try_except
    (let result := true in
     print MsgAcquiring ;;
     nodemap_tldevice <- GetTLDeviceNodeMap ;;
     let node_device_serial_number :=
       CStringPtr (GetNode nodemap_tldevice "DeviceSerialNumber") in
     ok <- py_and (IsAvailable node_device_serial_number)
                  (IsReadable node_device_serial_number) ;;
     device_serial_number <-
       (if ok then
          s <- GetValue_str node_device_serial_number ;;
          print (MsgSerialRetrieved s) ;;
          ret s
        else ret "") ;;
     returned <- for_return (seq 0 NUM_IMAGES)
                   (acquire_one directory device_serial_number) ;;
     match returned with
     | Some v => ret v
     | None => ret result
     end)
    (print MsgError ;; ret false).

(** *** The session *)

(** What [capture] and [main] take from outside the devices. *)
Record Env := {
  input_tsv : option string;     (* the text of "input.tsv"; [None]: no such file *)
  cwd_writable : bool;           (* [open("test.txt", "w+")] succeeds *)
  chosen_directory : string;     (* [askdirectory()] *)
  folder_name : string;          (* the time stamp "YYYY-MM-DD HH-MM-SS" *)
  mkdir_ok : bool                (* [os.mkdir(directory)] succeeds *)
}.

(** A computation on the camera at index [i] of [cam_list]. *)
Definition on_cam {A} (i : nat) (m : CamM A) : SessionM A :=
  fun cams =>
    match cams !! i with
    | Some c => let '(r, c', t) := m c in (r, <[i := c']> cams, map (OnCam i) t)
    | None => (Raise SpinnakerException, cams, [])
    end.

Definition out (m : message) : SessionM unit := emit (Out m).

(** How the configuration loop of [capture] is left: by the [return False]
    of line 473, or by running out of cameras with the locals [result]
    and [gain]. *)
Inductive loop_exit :=
| Returned (v : bool)
| Fallthrough (result : bool) (gain : option string).

(** The loop of lines 442-473 over the cameras at the indices [idxs].
    [gain] is bound by the lookup and stays bound from one camera to the
    next; reading it while it is unbound raises. *)
Fixpoint configure_loop (lines : list string) (idxs : list nat)
    (result : bool) (gain : option string) : SessionM loop_exit :=
  match idxs with
  | [] => ret (Fallthrough result gain)
  | cam :: rest =>
      nodemap_tldevice <- on_cam cam GetTLDeviceNodeMap ;;
      info <- on_cam cam (print_device_info nodemap_tldevice) ;;
      let result := result && info in
      serial_number <-
        on_cam cam (GetValue_str (CStringPtr (GetNode nodemap_tldevice "DeviceSerialNumber"))) ;;
      out (MsgConfiguring serial_number) ;;
      gain <- lift_outcome (Lookup.lookup_gain lines serial_number gain) ;;
      match gain with
      | Some _ => ret tt
      | None => out (MsgGainUndefined serial_number)
      end ;;
      on_cam cam Init ;;
      nodemap <- on_cam cam GetNodeMap ;;
      g <- match gain with
           | Some g => ret g
           | None => raise UnboundLocalError
           end ;;
      configured <- on_cam cam (configure_camera (PStr g)) ;;
      if negb configured then ret (Returned false)
      else configure_loop lines rest result gain
  end.

(** The loop of lines 496-497. *)
Fixpoint acquire_loop (directory : string) (idxs : list nat) (result : bool)
    : SessionM bool :=
  match idxs with
  | [] => ret result
  | cam :: rest =>
      acquired <- on_cam cam (acquire_images directory) ;;
      acquire_loop directory rest (result && acquired)
  end.

Definition open_read (env : Env) : SessionM string :=
  match input_tsv env with
  | Some text => ret text
  | None => raise OSError
  end.

Definition mkdir (env : Env) (directory : string) : SessionM unit :=
  if mkdir_ok env then ret tt else raise OSError.

(** [capture(cam_list)], lines 423-511. *)
Definition capture (env : Env) : SessionM bool :=
  try_except
    (let result := true in
     text <- open_read env ;;
     let lines := PyStr.readlines text in
     cam_list <- gets (fun cams => seq 0 (length cams)) ;;
     configured <- configure_loop lines cam_list result None ;;
     match configured with
     | Returned v => ret v
     | Fallthrough result gain =>
         let directory := chosen_directory env +:+ "/" +:+ folder_name env in
         mkdir env directory ;;
         for_ cam_list (fun cam => on_cam cam BeginAcquisition) ;;
         result <- acquire_loop directory cam_list result ;;
         for_ cam_list (fun cam =>
           on_cam cam EndAcquisition ;;
           on_cam cam DeInit) ;;
         ret result
     end)
    (out MsgError ;; ret false).

(** [main()], lines 514-591. *)
Definition main (env : Env) : SessionM bool :=
  if negb (cwd_writable env) then
    out MsgCannotWrite ;;
    ret false
  else
    let result := true in
    out MsgLibraryVersion ;;
    cam_list <- gets (fun cams => seq 0 (length cams)) ;;
    let num_cameras := length cam_list in
    out (MsgNumCameras num_cameras) ;;
    if Nat.eqb num_cameras 0 then
      out MsgNotEnoughCameras ;;
      ret false
    else
      for_ cam_list (fun cam => on_cam cam Init ;; out MsgCamera) ;;
      captured <- capture env ;;
      let result := result && captured in
      for_ cam_list (fun cam => on_cam cam DeInit) ;;
      ret result.

(** * Vocabulary of the properties *)

(** [spec I P X m]: [m] keeps the invariant [I] of the state, emits only
    events in [P], and raises only exceptions in [X]. *)
Definition spec {E S A} (I : S -> Prop) (P : E -> Prop) (X : exn -> Prop)
    (m : M E S A) : Prop :=
  forall s, I s ->
    I (state_of (m s)) /\ Forall P (trace_of (m s)) /\
    forall e, result_of (m s) = Raise e -> X e.

Definition spec_handler_case {E S A} (I : S -> Prop) (P : E -> Prop)
    (X : exn -> Prop) (h : M E S A) (s' : S) (t : list E) : Prop :=
  let x := (let '(r, s'', t') := h s' in (r, s'', t ++ t')) in
  I (state_of x) /\ Forall P (trace_of x) /\
  forall e, result_of x = Raise e -> X e.

(** The driver's fault switches of a camera: no call of the program
    changes them. *)
Definition same_flags (c0 c : Camera) : Prop :=
  cam_init_ok c = cam_init_ok c0 /\
  cam_nodemap_ok c = cam_nodemap_ok c0 /\
  cam_begin_ok c = cam_begin_ok c0 /\
  cam_end_ok c = cam_end_ok c0 /\
  cam_deinit_ok c = cam_deinit_ok c0.

Definition same_fleet (cams0 cams : list Camera) : Prop :=
  Forall2 same_flags cams0 cams.

Definition is_write (a : action) : bool :=
  match a with
  | EvSetIntValue _ _ | EvSetValue _ _ => true
  | _ => false
  end.

Definition is_print (a : action) : bool :=
  match a with
  | EvPrint _ => true
  | _ => false
  end.

(** The alphabet of the configuration functions: node writes and prints. *)
Definition is_config_action (a : action) : bool := is_write a || is_print a.

(** The alphabet of [acquire_images]. *)
Definition is_acquire_action (a : action) : bool :=
  match a with
  | EvGetNextImage | EvSave _ | EvRelease | EvEndAcquisition | EvPrint _ => true
  | _ => false
  end.

Definition ev_begin (e : event) : bool :=
  match e with OnCam _ EvBeginAcquisition => true | _ => false end.

Definition ev_get (e : event) : bool :=
  match e with OnCam _ EvGetNextImage => true | _ => false end.

Definition ev_write (i : nat) (e : event) : bool :=
  match e with OnCam j a => Nat.eqb i j && is_write a | Out _ => false end.

(** The alphabet of the configuration loop: prints, [Init], and the node
    writes of [configure_camera]. *)
Definition is_setup_event (e : event) : bool :=
  match e with
  | OnCam _ a => is_config_action a || match a with EvInit => true | _ => false end
  | Out _ => true
  end.

(** The acquisition-start barrier on a trace of a session over [n]
    cameras: whatever precedes a frame retrieval contains the start of
    acquisition of every camera. *)
Definition barrier (n : nat) (t : list event) : Prop :=
  forall pre i post,
    t = pre ++ OnCam i EvGetNextImage :: post ->
    forall j, j < n -> In (OnCam j EvBeginAcquisition) pre.

Definition no_get (t : list event) : Prop := Forall (fun e => ev_get e = false) t.

(** What [capture] does once every camera is configured (lines 477-505). *)
Definition acquisition_phase (env : Env) (cam_list : list nat) (result : bool)
    : SessionM bool :=
  let directory := chosen_directory env +:+ "/" +:+ folder_name env in
  mkdir env directory ;;
  for_ cam_list (fun cam => on_cam cam BeginAcquisition) ;;
  result <- acquire_loop directory cam_list result ;;
  for_ cam_list (fun cam =>
    on_cam cam EndAcquisition ;;
    on_cam cam DeInit) ;;
  ret result.

(** The effect of the [except] clause of [capture] on a run of its body. *)
Definition handled (x : outcome bool * list Camera * list event)
    : outcome bool * list Camera * list event :=
  match x with
  | (Raise SpinnakerException, s, t) => (Ok false, s, t ++ [Out MsgError])
  | other => other
  end.

Definition init_trace (idxs : list nat) : list event :=
  flat_map (fun i => [OnCam i EvInit; Out MsgCamera]) idxs.

Definition main_prelude (n : nat) : list event :=
  [Out MsgLibraryVersion; Out (MsgNumCameras n)] ++ init_trace (seq 0 n).

Definition no_begin (t : list event) : Prop := Forall (fun e => ev_begin e = false) t.

(** The next [GetNextImage] on the camera raises (time-out or fault). *)
Definition retrieval_fails (c : Camera) : bool :=
  match cam_frames c with
  | Some _ :: _ => false
  | _ => true
  end.

(** The outcome of the image-buffer cycle of one camera. *)
Definition acquired (directory : string) (c : Camera) : bool :=
  match result_of (acquire_images directory c) with
  | Ok b => b
  | Raise _ => false
  end.

(** The events of the cycles of the cameras [l], the first of which is at
    index [k] of the camera list. *)
Fixpoint acquire_trace (directory : string) (k : nat) (l : list Camera) : list event :=
  match l with
  | [] => []
  | c :: l' =>
      map (OnCam k) (trace_of (acquire_images directory c)) ++
      acquire_trace directory (S k) l'
  end.

Definition teardown_trace (idxs : list nat) : list event :=
  flat_map (fun i => [OnCam i EvEndAcquisition; OnCam i EvDeInit]) idxs.

Definition begin_trace (idxs : list nat) : list event :=
  map (fun i => OnCam i EvBeginAcquisition) idxs.

(** Running a computation step by step: [prepend], [andthen] and [catch]
    are what [emit], [bind] and [try_except] do to the run of their
    argument. *)
Definition prepend {E S A} (t0 : list E) (x : outcome A * S * list E)
    : outcome A * S * list E :=
  (result_of x, state_of x, t0 ++ trace_of x).

Definition andthen {E S A B} (x : outcome A * S * list E) (k : A -> M E S B)
    : outcome B * S * list E :=
  match x with
  | (Ok a, s, t) => prepend t (k a s)
  | (Raise e, s, t) => (Raise e, s, t)
  end.

Definition catch {E S A} (h : M E S A) (x : outcome A * S * list E)
    : outcome A * S * list E :=
  match x with
  | (Raise SpinnakerException, s, t) => prepend t (h s)
  | other => other
  end.

(** What [change_enum_setting] prints when it does not set the node:
    "... is not available..." or, when the driver raised, "Error: ...". *)
Definition is_report (m : message) : Prop :=
  m = MsgError \/ exists name, m = MsgIsNotAvailable name.

(** *** Gated writes *)

(** The gate of a write on the node behind [p]. *)
Definition gate_ok (p : ptr) (c : Camera) : bool :=
  is_available p c && is_writable p c.

(** An action respects the gates of the device state [c]. *)
Definition gated (c : Camera) (a : action) : Prop :=
  match a with
  | EvSetIntValue p _ | EvSetValue p _ => gate_ok p c = true
  | _ => True
  end.

(** No pointer changes its availability, readability or writability. *)
Definition flags_kept (c c' : Camera) : Prop :=
  forall p,
    is_available p c' = is_available p c /\
    is_readable p c' = is_readable p c /\
    is_writable p c' = is_writable p c.

(** The transport-layer nodes, and the nodes that are unavailable or not
    writable, are what they were. *)
Definition closed_kept (c c' : Camera) : Prop :=
  cam_tl_nodes c' = cam_tl_nodes c /\
  forall name n,
    cam_nodes c !! name = Some n ->
    node_available n && node_writable n = false ->
    cam_nodes c' !! name = Some n.

Definition gated_step (c c' : Camera) (t : list action) : Prop :=
  flags_kept c c' /\ closed_kept c c' /\ Forall (gated c) t.

Definition block_gated {A} (m : CamM A) : Prop :=
  forall c, gated_step c (state_of (m c)) (trace_of (m c)).

(** What a write may replace the content of a node with: content of the
    same type and, for an enumeration, with the same entries. *)
Definition data_compatible (d d' : NodeData) : Prop :=
  match d, d' with
  | Enumeration es _, Enumeration es' _ => es = es'
  | Integer _ _, Integer _ _
  | Float _, Float _
  | StringNode _, StringNode _
  | Category _, Category _ => True
  | _, _ => False
  end.

(** *** Malformed configuration blocks *)

(** Line [i] of [lines] is a serial-number line for [serial] that is not
    followed by a line whose key is [Gain]. *)
Definition malformed_at (lines : list string) (serial : string) (i : nat) : Prop :=
  exists line fields,
    lines !! i = Some line /\
    PyStr.split PyStr.TAB line = "DeviceSerialNumber" :: serial :: fields /\
    match lines !! (i + 1) with
    | Some next => hd "" (PyStr.split PyStr.TAB next) <> "Gain"
    | None => True
    end.

Definition malformed_block (lines : list string) (serial : string) : Prop :=
  exists i, malformed_at lines serial i.

(** The identity [capture] reads from the device (line 448). *)
Definition serial_number_of (c : Camera) : outcome string :=
  result_of (GetValue_str (NodePtr TLDeviceNodeMap "DeviceSerialNumber" KString) c).

Definition is_cam_write (e : event) : bool :=
  match e with
  | OnCam _ a => is_write a
  | Out _ => false
  end.

(** The reading of the claim: every device other than [k] starts
    acquisition and retrieves a frame. *)
Definition others_proceed (k n : nat) (t : list event) : Prop :=
  forall j, j < n -> j <> k ->
    In (OnCam j EvBeginAcquisition) t /\ In (OnCam j EvGetNextImage) t.
(** * More of [main.py] *)

(** *** The lookup, line by line *)

(** The line is no serial-number line for [serial]: its key is not
    [DeviceSerialNumber], or its value is another identity.  (A
    serial-number line without a value field is not passed by: reading its
    value raises.) *)
Definition passes_by (serial line : string) : bool :=
  match PyStr.split PyStr.TAB line with
  | key :: rest =>
      if String.eqb key "DeviceSerialNumber" then
        match rest with
        | value :: _ => negb (String.eqb value serial)
        | [] => false
        end
      else true
  | [] => true
  end.

(** Lines [i] and [i + 1] are a block for [serial] that binds [value]. *)
Definition block_at (lines : list string) (serial : string) (i : nat)
    (value : string) : Prop :=
  exists line fields next fields',
    lines !! i = Some line /\
    PyStr.split PyStr.TAB line = "DeviceSerialNumber" :: serial :: fields /\
    lines !! (i + 1) = Some next /\
    PyStr.split PyStr.TAB next = "Gain" :: value :: fields'.

Fixpoint contains (ch : ascii) (s : string) : bool :=
  match s with
  | EmptyString => false
  | String c rest => Ascii.eqb c ch || contains ch rest
  end.

(** A line of exactly two tab-free fields that ends in a newline. *)
Definition two_column (line : string) : Prop :=
  exists key value,
    line = key +:+ PyStr.tab +:+ value +:+ PyStr.nl /\
    contains PyStr.TAB key = false /\
    contains PyStr.TAB value = false.

Definition ev_deinit (e : event) : bool :=
  match e with OnCam _ EvDeInit => true | _ => false end.

(** *** Counting the calls on one device *)

Definition is_init (a : action) : bool :=
  match a with EvInit => true | _ => false end.

Definition is_deinit (a : action) : bool :=
  match a with EvDeInit => true | _ => false end.

Definition is_end (a : action) : bool :=
  match a with EvEndAcquisition => true | _ => false end.

(** The event is an action in [p] on the device at index [j]. *)
Definition on_device (j : nat) (p : action -> bool) (e : event) : bool :=
  match e with
  | OnCam i a => Nat.eqb i j && p a
  | Out _ => false
  end.

(** How many actions in [p] a trace has on the device at index [j]. *)
Definition calls (j : nat) (p : action -> bool) (t : list event) : nat :=
  length (List.filter (on_device j p) t).

(** A trace in two phases: no acquisition is started in the first, no
    node is written in the second. *)
Definition phased (t : list event) : Prop :=
  exists t1 t2, t = t1 ++ t2 /\ no_begin t1 /\
                Forall (fun e => is_cam_write e = false) t2.

(** What [print_device_info] returns for the device at index [i]. *)
Definition device_info_ok (cams : list Camera) (i : nat) : bool :=
  match cams !! i with
  | Some c =>
      match result_of (print_device_info TLDeviceNodeMap c) with
      | Ok b => b
      | Raise _ => false
      end
  | None => false
  end.
(** * Scenarios *)

Module Scenario.
Import PyStr.

Definition entry (code : Z) (name : string) : Entry :=
  {| entry_available := true; entry_readable := true;
     entry_value := code; entry_display_name := name |}.

Definition node (name : string) (d : NodeData) : Node :=
  {| node_available := true; node_readable := true; node_writable := true;
     node_display_name := name; node_fault := false; node_data := d |}.

Definition good_frame : Frame :=
  {| frame_incomplete := false; frame_status := 0;
     frame_width := 2048; frame_height := 1536;
     frame_save_ok := true; frame_release_ok := true |}.

Definition incomplete_frame : Frame :=
  {| frame_incomplete := true; frame_status := 9;
     frame_width := 2048; frame_height := 1536;
     frame_save_ok := true; frame_release_ok := true |}.

Definition unsaved_frame : Frame :=
  {| frame_incomplete := false; frame_status := 0;
     frame_width := 2048; frame_height := 1536;
     frame_save_ok := false; frame_release_ok := true |}.

(** A feature tree with the nodes [configure_camera] addresses. *)
Definition feature_tree : gmap string Node :=
  {[ "PixelFormat" := node "Pixel Format" (Enumeration {[ "Mono16" := entry 17825797 "Mono16" ]} 0);
     "Width" := node "Width" (Integer 640 2048);
     "Height" := node "Height" (Integer 480 1536);
     "TriggerMode" := node "Trigger Mode"
        (Enumeration {[ "Off" := entry 0 "Off"; "On" := entry 1 "On" ]} 0);
     "TriggerSource" := node "Trigger Source" (Enumeration {[ "Line3" := entry 3 "Line 3" ]} 0);
     "SensorShutterMode" := node "Sensor Shutter Mode"
        (Enumeration {[ "GlobalReset" := entry 2 "Global Reset" ]} 0);
     "GainAuto" := node "Gain Auto" (Enumeration {[ "Off" := entry 0 "Off" ]} 2);
     "Gain" := node "Gain" (Float (PInt 0));
     "AcquisitionMode" := node "Acquisition Mode"
        (Enumeration {[ "SingleFrame" := entry 1 "Single Frame" ]} 0) ]}.

Definition camera (serial : string) (tree : gmap string Node)
    (frames : list (option Frame)) : Camera :=
  {| cam_nodes := tree;
     cam_tl_nodes := {[ "DeviceSerialNumber" := node "Serial Number" (StringNode serial) ]};
     cam_frames := frames;
     cam_held := 0;
     cam_init_ok := true; cam_nodemap_ok := true; cam_begin_ok := true;
     cam_end_ok := true; cam_deinit_ok := true |}.

Definition env (text : string) : Env :=
  {| input_tsv := Some text; cwd_writable := true;
     chosen_directory := "/data"; folder_name := "2024-05-17 10-30-00";
     mkdir_ok := true |}.

Definition line (key value : string) : string := key +:+ tab +:+ value +:+ nl.

(** The configuration text of the specification's example. *)
Definition spec_config : string :=
  line "DeviceSerialNumber" "ABC123" +:+ line "Gain" "12.5".

(** The same block with a third, empty column on the serial-number line. *)
Definition padded_config : string :=
  line "DeviceSerialNumber" ("ABC123" +:+ tab) +:+ line "Gain" "12.5".

Definition two_padded_blocks : string :=
  line "DeviceSerialNumber" ("ABC123" +:+ tab) +:+ line "Gain" "12.5" +:+
  line "DeviceSerialNumber" ("XYZ999" +:+ tab) +:+ line "Gain" "3.0".

(** Two devices, each with its block and one complete frame to deliver. *)
Definition two_cameras : list Camera :=
  [camera "ABC123" feature_tree [Some good_frame];
   camera "XYZ999" feature_tree [Some good_frame]].

(** The position of the first frame retrieval in a trace. *)
Fixpoint first_get (t : list event) : nat :=
  match t with
  | [] => 0
  | e :: t' => if ev_get e then 0 else S (first_get t')
  end.

End Scenario.

Module Scenario5.
Import Scenario.

(** A feature tree whose [Width] node faults in the driver: the exception
    escapes the body of [configure_camera]. *)
Definition faulty_width : Node :=
  {| node_available := true; node_readable := true; node_writable := true;
     node_display_name := "Width"; node_fault := true;
     node_data := Integer 640 2048 |}.

Definition faulty_tree : gmap string Node := <["Width" := faulty_width]> feature_tree.

(** Device A fails configuration, device B would succeed. *)
Definition cameras : list Camera :=
  [camera "ABC123" faulty_tree [Some good_frame];
   camera "XYZ999" feature_tree [Some good_frame]].

End Scenario5.

Module Scenario9.
Import Scenario.

(** Device A delivers no frame (its retrieval times out), device B
    delivers one complete frame. *)
Definition cameras : list Camera :=
  [camera "ABC123" feature_tree [];
   camera "XYZ999" feature_tree [Some good_frame]].

Definition environment : Env := env two_padded_blocks.

Definition configured : outcome loop_exit * list Camera * list event :=
  configure_loop (PyStr.readlines two_padded_blocks) (seq 0 (length cameras)) true None cameras.

(** Device A as the configuration loop leaves it. *)
Definition device_a : Camera :=
  match state_of configured with
  | c :: _ => c
  | [] => camera "ABC123" feature_tree []
  end.

End Scenario9.

Module Scenario1.
Import Scenario.

(** A device whose next frame arrives incomplete. *)
Definition incomplete_camera : Camera :=
  camera "ABC123" feature_tree [Some incomplete_frame].

(** A device whose next frame is complete but cannot be written to disk. *)
Definition unsaved_camera : Camera :=
  camera "ABC123" feature_tree [Some unsaved_frame].

End Scenario1.

Module Scenario6.
Import Scenario.

Definition pixel_format : Node :=
  node "Pixel Format" (Enumeration {[ "Mono16" := entry 17825797 "Mono16" ]} 0).

Definition mono16 : Entry := entry 17825797 "Mono16".

Definition device : Camera := camera "ABC123" feature_tree [].

End Scenario6.

Module Scenario10.
Import Scenario.

(** A device that exposes none of the nodes [configure_camera] addresses. *)
Definition bare_device : Camera := camera "ABC123" ∅ [].

End Scenario10.

Module Scenario3.
Import Scenario.

(** One device, whose identity has no block in the configuration text. *)
Definition device : Camera := camera "XYZ999" feature_tree [Some good_frame].

Definition environment : Env := env padded_config.

End Scenario3.

Module Scenario7.
Import Scenario.

(** The block of ABC123 has no [Gain] line; the block of XYZ999 is well
    formed. *)
Definition text : string :=
  line "DeviceSerialNumber" ("ABC123" +:+ PyStr.tab) +:+ line "ExposureTime" "5000" +:+
  line "DeviceSerialNumber" ("XYZ999" +:+ PyStr.tab) +:+ line "Gain" "3.0".

Definition environment : Env := env text.

Definition cameras : list Camera := two_cameras.

Definition device_a : Camera := camera "ABC123" feature_tree [Some good_frame].

End Scenario7.

Module ScenarioLookup.
Import Scenario.

(** Two blocks for the same device. *)
Definition repeated_blocks : string :=
  line "DeviceSerialNumber" ("ABC123" +:+ PyStr.tab) +:+ line "Gain" "12.5" +:+
  line "DeviceSerialNumber" ("ABC123" +:+ PyStr.tab) +:+ line "Gain" "7.0".

(** A file that does not end in a newline. *)
Definition unterminated : string :=
  line "DeviceSerialNumber" ("ABC123" +:+ PyStr.tab) +:+
  "Gain" +:+ PyStr.tab +:+ "12.5".

End ScenarioLookup.

Module ScenarioGain.
Import Scenario.

(** A [Gain] node that is not writable. *)
Definition locked_gain : Node :=
  {| node_available := true; node_readable := true; node_writable := false;
     node_display_name := "Gain"; node_fault := false;
     node_data := Float (PInt 0) |}.

Definition gain_auto : Node :=
  node "Gain Auto" (Enumeration {[ "Off" := entry 0 "Off" ]} 2).

Definition device : Camera :=
  camera "ABC123" (<["Gain" := locked_gain]> feature_tree) [].

End ScenarioGain.

Module ScenarioSession.
Import Scenario.

Definition device (serial : string) (begin_ok : bool) : Camera :=
  {| cam_nodes := feature_tree;
     cam_tl_nodes := {[ "DeviceSerialNumber" := node "Serial Number" (StringNode serial) ]};
     cam_frames := [Some good_frame];
     cam_held := 0;
     cam_init_ok := true; cam_nodemap_ok := true; cam_begin_ok := begin_ok;
     cam_end_ok := true; cam_deinit_ok := true |}.

(** [BeginAcquisition] raises on the second device. *)
Definition stuck_cameras : list Camera :=
  [device "ABC123" true; device "XYZ999" false].

(** No [input.tsv] in the working directory. *)
Definition no_input : Env :=
  {| input_tsv := None; cwd_writable := true;
     chosen_directory := "/data"; folder_name := "2024-05-17 10-30-00";
     mkdir_ok := true |}.

(** The position of the first start of acquisition in a trace. *)
Fixpoint first_begin (t : list event) : nat :=
  match t with
  | [] => 0
  | e :: t' => if ev_begin e then 0 else S (first_begin t')
  end.

End ScenarioSession.

Module Scenario9b.
Import Scenario.

(** Device A delivers no frame and its [EndAcquisition] raises; device B
    delivers one complete frame and has no fault. *)
Definition device_a : Camera :=
  {| cam_nodes := feature_tree;
     cam_tl_nodes := {[ "DeviceSerialNumber" := node "Serial Number" (StringNode "ABC123") ]};
     cam_frames := [];
     cam_held := 0;
     cam_init_ok := true; cam_nodemap_ok := true; cam_begin_ok := true;
     cam_end_ok := false; cam_deinit_ok := true |}.

Definition cameras : list Camera :=
  [device_a; camera "XYZ999" feature_tree [Some good_frame]].

End Scenario9b.
(** * Reasoning about computations *)

Section Rules.
Context {E S : Type}.
Implicit Types (I : S -> Prop) (P : E -> Prop) (X : exn -> Prop).

Lemma run_bind_ok {A B} (m : M E S A) (k : A -> M E S B) s a s' t :
    m s = (Ok a, s', t) ->
    bind m k s = (result_of (k a s'), state_of (k a s'), t ++ trace_of (k a s')).
  Proof. unfold bind. intros ->. by destruct (k a s') as [[??]?]. Qed.

Lemma run_bind_raise {A B} (m : M E S A) (k : A -> M E S B) s e s' t :
    m s = (Raise e, s', t) -> bind m k s = (Raise e, s', t).
  Proof. unfold bind. by intros ->. Qed.

Lemma run_eta {A} (x : outcome A * S * list E) :
    x = (result_of x, state_of x, trace_of x).
  Proof. by destruct x as [[??]?]. Qed.

Lemma spec_ret {A} I P X (a : A) : spec I P X (ret a).
  Proof. intros s Hs. repeat split; [done | constructor | done]. Qed.

Lemma spec_raise {A} I P X e : X e -> spec I P X (@raise E S A e).
  Proof. intros He s Hs. repeat split; [done | constructor |]. cbn. congruence. Qed.

Lemma spec_emit I P X e : P e -> spec I P X (emit e).
  Proof. intros He s Hs. repeat split; [done | by repeat constructor | done]. Qed.

Lemma spec_gets {A} I P X (f : S -> A) : spec I P X (gets f).
  Proof. intros s Hs. repeat split; [done | constructor | done]. Qed.

Lemma spec_modify I P X (f : S -> S) :
    (forall s, I s -> I (f s)) -> spec I P X (modify f).
  Proof. intros Hf s Hs. repeat split; [by apply Hf | constructor | done]. Qed.

Lemma spec_lift_outcome {A} I P X (o : outcome A) :
    (forall e, o = Raise e -> X e) -> spec I P X (lift_outcome o).
  Proof. intros Ho s Hs. repeat split; [done | constructor | done]. Qed.

Lemma spec_bind {A B} I P X (m : M E S A) (k : A -> M E S B) :
    spec I P X m -> (forall a, spec I P X (k a)) -> spec I P X (bind m k).
  Proof.
    intros Hm Hk s Hs. destruct (Hm s Hs) as (Hi & Ht & Hx).
    unfold bind. destruct (m s) as [[[a|e] s'] t]; cbn in *.
    - destruct (Hk a s' Hi) as (Hi' & Ht' & Hx').
      destruct (k a s') as [[r s''] t']; cbn in *.
      repeat split; [done | by apply Forall_app | done].
    - repeat split; [done | done |]. intros e0 [= <-]. by apply Hx.
  Qed.

Lemma spec_try_except {A} I P X X' (m h : M E S A) :
    spec I P X' m -> spec I P X h ->
    (forall e, X' e -> e = SpinnakerException \/ X e) ->
    spec I P X (try_except m h).
  Proof.
    intros Hm Hh HX s Hs. destruct (Hm s Hs) as (Hi & Ht & Hx).
    unfold try_except. destruct (m s) as [[[a|e] s'] t]; cbn in *.
    - repeat split; [done | done | intros e He; discriminate].
    - assert (Hspin : spec_handler_case I P X h s' t).
      { destruct (Hh s' Hi) as (Hi' & Ht' & Hx').
        unfold spec_handler_case. destruct (h s') as [[r s''] t']; cbn in *.
        repeat split; [done | by apply Forall_app | done]. }
      destruct e; try exact Hspin;
        (repeat split; [done | done |]; intros e0 [= <-];
         by destruct (HX _ (Hx _ eq_refl))).
  Qed.

Lemma spec_py_and I P X (a b : M E S bool) :
    spec I P X a -> spec I P X b -> spec I P X (py_and a b).
  Proof.
    intros Ha Hb. apply spec_bind; [done |]. intros []; [done | apply spec_ret].
  Qed.

Lemma spec_for {A} I P X (xs : list A) (body : A -> M E S unit) :
    (forall x, In x xs -> spec I P X (body x)) -> spec I P X (for_ xs body).
  Proof.
    induction xs as [| x xs IH]; intros Hb; cbn.
    - apply spec_ret.
    - apply spec_bind; [apply Hb; by left |].
      intros _. apply IH. intros y Hy. apply Hb. by right.
  Qed.

Lemma spec_for_return {A R} I P X (xs : list A) (body : A -> M E S (option R)) :
    (forall x, In x xs -> spec I P X (body x)) -> spec I P X (for_return xs body).
  Proof.
    induction xs as [| x xs IH]; intros Hb; cbn.
    - apply spec_ret.
    - apply spec_bind; [apply Hb; by left |].
      intros [v |]; [apply spec_ret |]. apply IH. intros y Hy. apply Hb. by right.
  Qed.

Lemma spec_weaken {A} I P P' X X' (m : M E S A) :
    spec I P X m -> (forall e, P e -> P' e) -> (forall e, X e -> X' e) ->
    spec I P' X' m.
  Proof.
    intros Hm HP HX s Hs. destruct (Hm s Hs) as (Hi & Ht & Hx).
    repeat split; [done | by eapply Forall_impl | by intros e He; apply HX, Hx].
  Qed.

  (** A computation that raises nothing returns. *)
Lemma spec_total {A} I P (m : M E S A) s :
    spec I P (fun _ => False) m -> I s -> exists a, result_of (m s) = Ok a.
  Proof.
    intros Hm Hs. destruct (Hm s Hs) as (_ & _ & Hx).
    destruct (result_of (m s)) as [a | e] eqn:Hr; [by exists a |].
    destruct (Hx e eq_refl).
  Qed.
End Rules.

(** Break a goal [spec I P X m] along the structure of [m]; what is left
    are the side conditions of [emit], [raise] and [modify]. *)
Ltac spec_step :=
  first
    [ apply spec_ret
    | apply spec_gets
    | apply spec_bind; [| intros ?]
    | apply spec_py_and
    | apply spec_emit
    | apply spec_raise
    | apply spec_modify
    | match goal with
      | |- spec _ _ _ (if ?b then _ else _) => destruct b
      | |- spec _ _ _ (match ?x with _ => _ end) => destruct x
      | |- spec _ _ _ (let _ := _ in _) => cbv zeta
      end ].

Lemma spec_try_same {E S A} (I : S -> Prop) (P : E -> Prop) X (m h : M E S A) :
  spec I P X m -> spec I P X h -> spec I P X (try_except m h).
Proof. intros Hm Hh. eapply spec_try_except; eauto. Qed.

(** A handler that raises nothing turns driver exceptions into a result. *)
Lemma spec_try_total {E S A} (I : S -> Prop) (P : E -> Prop) X (m h : M E S A) :
  spec I P (eq SpinnakerException) m -> spec I P X h -> spec I P X (try_except m h).
Proof. intros Hm Hh. eapply spec_try_except; eauto. Qed.

(** ** What each function of [main.py] may do to a camera *)

Lemma same_flags_refl c : same_flags c c.
Proof. by repeat split. Qed.

Lemma same_flags_with_nodes c0 nm f c :
  same_flags c0 c -> same_flags c0 (with_nodes nm f c).
Proof. intros H. exact H. Qed.

Lemma same_flags_with_frames c0 fs h c :
  same_flags c0 c -> same_flags c0 (with_frames fs h c).
Proof. intros H. exact H. Qed.

Ltac unfold_driver :=
  unfold GetNodeMap, GetTLDeviceNodeMap, IsAvailable, IsReadable, IsWritable,
    GetDisplayName, GetName, GetEntryByName, GetValue_entry, GetValue_int,
    GetValue_str, GetMax, GetFeatures, ToString, SetIntValue, SetValue_int,
    SetValue_float, store, the_entry, the_node, Init, DeInit, BeginAcquisition,
    EndAcquisition, lifecycle, GetNextImage, Save, Release, print,
    CEnumEntryPtr, CEnumerationPtr, CIntegerPtr, CFloatPtr, CStringPtr,
    CCategoryPtr, CValuePtr, GetNode.

Ltac spec_auto :=
  unfold_driver; cbn [fst snd];
  repeat (spec_step; cbn [fst snd]);
  try done; try (by apply same_flags_with_nodes);
  try (by apply same_flags_with_frames).

Section CameraSpecs.
Variable c0 : Camera.
Lemma change_enum_setting_spec setting choice :
    spec (same_flags c0) (fun a => is_config_action a = true) (fun _ => False)
      (change_enum_setting setting choice).
  Proof.
    unfold change_enum_setting. apply spec_try_total; spec_auto.
  Qed.

Lemma change_gain_spec gain :
    spec (same_flags c0) (fun a => is_config_action a = true) (eq SpinnakerException)
      (change_gain gain).
  Proof. unfold change_gain. spec_auto. Qed.

Lemma set_maximum_spec nm name :
    spec (same_flags c0) (fun a => is_config_action a = true) (eq SpinnakerException)
      (set_maximum nm name).
  Proof. unfold set_maximum. spec_auto. Qed.

Lemma configure_camera_body_spec nm gain :
    spec (same_flags c0) (fun a => is_config_action a = true) (eq SpinnakerException)
      (configure_camera_body nm gain).
  Proof.
    unfold configure_camera_body.
    repeat (lazymatch goal with
            | |- spec _ _ _ (bind _ _) => apply spec_bind; [| intros ?]
            end);
      first [ apply spec_ret | apply set_maximum_spec | apply change_gain_spec
            | eapply spec_weaken; [apply change_enum_setting_spec | done | done] ].
  Qed.

Lemma configure_camera_spec gain :
    spec (same_flags c0) (fun a => is_config_action a = true) (eq SpinnakerException)
      (configure_camera gain).
  Proof.
    unfold configure_camera. apply spec_bind; [spec_auto |]. intros nm.
    apply spec_try_total; [apply configure_camera_body_spec | spec_auto].
  Qed.

Lemma print_device_info_spec nm :
    spec (same_flags c0) (fun a => is_print a = true) (fun _ => False)
      (print_device_info nm).
  Proof.
    unfold print_device_info. apply spec_bind; [spec_auto |]. intros _.
    apply spec_try_total; [| spec_auto].
    apply spec_bind; [spec_auto |]. intros ok.
    apply spec_bind; [| intros; apply spec_ret].
    destruct ok; [| spec_auto].
    apply spec_bind; [spec_auto |]. intros features.
    apply spec_for. intros feature _. spec_auto.
  Qed.

Lemma acquire_one_spec directory serial i :
    spec (same_flags c0) (fun a => is_acquire_action a = true) (eq SpinnakerException)
      (acquire_one directory serial i).
  Proof. unfold acquire_one. apply spec_try_same; spec_auto. Qed.

Lemma acquire_images_spec directory :
    spec (same_flags c0) (fun a => is_acquire_action a = true) (fun _ => False)
      (acquire_images directory).
  Proof.
    unfold acquire_images. apply spec_try_total; [| spec_auto].
    apply spec_bind; [spec_auto |]. intros _.
    apply spec_bind; [spec_auto |]. intros nm.
    apply spec_bind; [spec_auto |]. intros ok.
    apply spec_bind; [spec_auto |]. intros serial.
    apply spec_bind; [| intros []; apply spec_ret].
    apply spec_for_return. intros i _. apply acquire_one_spec.
  Qed.
End CameraSpecs.

(** ** Sessions: computations over the camera list *)

Lemma same_fleet_refl cams : same_fleet cams cams.
Proof. apply Forall2_same_length_lookup_2; [done |]. intros i c c' H1 H2.
  rewrite H1 in H2. injection H2 as <-. apply same_flags_refl. Qed.

Lemma same_fleet_length cams0 cams : same_fleet cams0 cams -> length cams = length cams0.
Proof. intros H. symmetry. by eapply Forall2_length. Qed.

Lemma spec_on_cam {A} cams0 (Pc : action -> Prop) (P : event -> Prop) X i (m : CamM A) :
  (forall c0, cams0 !! i = Some c0 -> spec (same_flags c0) Pc X m) ->
  X SpinnakerException ->
  (forall a, Pc a -> P (OnCam i a)) ->
  spec (same_fleet cams0) P X (on_cam i m).
Proof.
  intros Hm HX HP cams Hcams. unfold on_cam.
  destruct (cams !! i) as [c |] eqn:Hc.
  - destruct (Forall2_lookup_r _ _ _ _ _ Hcams Hc) as (c0 & Hc0 & Hflags).
    destruct (Hm c0 Hc0 c Hflags) as (Hi & Ht & Hx).
    destruct (m c) as [[r c'] t]; cbn in *.
    repeat split.
    + unfold same_fleet. rewrite <- (list_insert_id cams0 i c0 Hc0).
      by apply Forall2_insert.
    + apply List.Forall_map. eapply Forall_impl; [exact Ht |]. exact HP.
    + done.
  - repeat split; [done | constructor |]. cbn. by intros e [= <-].
Qed.

(** A call on a camera leaves the other cameras of the list alone. *)
Lemma on_cam_other {A} i j (m : CamM A) cams :
  i <> j -> state_of (on_cam i m cams) !! j = cams !! j.
Proof.
  intros Hij. unfold on_cam. destruct (cams !! i) as [c |]; [| done].
  destruct (m c) as [[r c'] t]; cbn. by apply list_lookup_insert_ne.
Qed.

Lemma on_cam_run {A} i (m : CamM A) cams c :
  cams !! i = Some c ->
  on_cam i m cams =
    (result_of (m c), <[i := state_of (m c)]> cams, map (OnCam i) (trace_of (m c))).
Proof. unfold on_cam. intros ->. by destruct (m c) as [[??]?]. Qed.

Lemma setup_no_begin e : is_setup_event e = true -> ev_begin e = false.
Proof. by destruct e as [i []|]. Qed.

Lemma setup_no_get e : is_setup_event e = true -> ev_get e = false.
Proof. by destruct e as [i []|]. Qed.

Ltac session_auto :=
  repeat first
    [ apply spec_ret
    | apply spec_emit
    | apply spec_raise
    | apply spec_gets
    | apply spec_lift_outcome
    | lazymatch goal with
      | |- spec _ _ _ (bind _ _) => apply spec_bind; [| intros ?]
      | |- spec _ _ _ (out _) => apply spec_emit
      | |- spec _ _ _ (if ?b then _ else _) => destruct b
      | |- spec _ _ _ (match ?x with _ => _ end) => destruct x
      end ].

Lemma configure_loop_spec cams0 lines idxs result gain :
  spec (same_fleet cams0) (fun e => is_setup_event e = true) (fun _ => True)
    (configure_loop lines idxs result gain).
Proof.
  revert result gain. induction idxs as [| cam rest IH]; intros result gain; cbn.
  - apply spec_ret.
  - session_auto; try done; try apply IH.
    + apply spec_on_cam with (Pc := fun _ => False); [| done | done].
      intros c0 _. spec_auto.
    + eapply spec_on_cam; [| done |].
      * intros c0 _. eapply spec_weaken; [apply print_device_info_spec | | done].
        intros e He. exact He.
      * intros [] Hact; done.
    + apply spec_on_cam with (Pc := fun _ => False); [| done | done].
      intros c0 _. spec_auto.
    + apply spec_on_cam with (Pc := fun a => a = EvInit); [| done |].
      * intros c0 _. spec_auto.
      * by intros act ->.
    + apply spec_on_cam with (Pc := fun _ => False); [| done | done].
      intros c0 _. spec_auto.
    + eapply spec_on_cam; [| done |].
      * intros c0 _. eapply spec_weaken; [apply configure_camera_spec | | done].
        intros e He. exact He.
      * intros act Hact. cbn. by rewrite Hact.
Qed.

(** ** Projections of a sequence *)

Section Projections.
Context {E S : Type}.

Lemma trace_bind {A B} (m : M E S A) (k : A -> M E S B) s :
    trace_of (bind m k s) =
      trace_of (m s) ++
      match result_of (m s) with
      | Ok a => trace_of (k a (state_of (m s)))
      | Raise _ => []
      end.
  Proof.
    unfold bind. destruct (m s) as [[[a | e] s'] t]; cbn.
    - by destruct (k a s') as [[??]?].
    - by rewrite app_nil_r.
  Qed.

Lemma result_bind {A B} (m : M E S A) (k : A -> M E S B) s :
    result_of (bind m k s) =
      match result_of (m s) with
      | Ok a => result_of (k a (state_of (m s)))
      | Raise e => Raise e
      end.
  Proof.
    unfold bind. destruct (m s) as [[[a | e] s'] t]; cbn; [| done].
    by destruct (k a s') as [[??]?].
  Qed.

Lemma state_bind {A B} (m : M E S A) (k : A -> M E S B) s :
    state_of (bind m k s) =
      match result_of (m s) with
      | Ok a => state_of (k a (state_of (m s)))
      | Raise e => state_of (m s)
      end.
  Proof.
    unfold bind. destruct (m s) as [[[a | e] s'] t]; cbn; [| done].
    by destruct (k a s') as [[??]?].
  Qed.

Lemma trace_try_except {A} (m h : M E S A) s :
    trace_of (try_except m h s) =
      trace_of (m s) ++
      match result_of (m s) with
      | Raise SpinnakerException => trace_of (h (state_of (m s)))
      | _ => []
      end.
  Proof.
    unfold try_except. destruct (m s) as [[[a | e] s'] t]; cbn.
    - by rewrite app_nil_r.
    - destruct e; cbn; try by rewrite app_nil_r.
      by destruct (h s') as [[??]?].
  Qed.

Lemma result_try_except {A} (m h : M E S A) s :
    result_of (try_except m h s) =
      match result_of (m s) with
      | Raise SpinnakerException => result_of (h (state_of (m s)))
      | other => other
      end.
  Proof.
    unfold try_except. destruct (m s) as [[[a | e] s'] t]; cbn; [done |].
    destruct e; cbn; try done. by destruct (h s') as [[??]?].
  Qed.

Lemma state_try_except {A} (m h : M E S A) s :
    state_of (try_except m h s) =
      match result_of (m s) with
      | Raise SpinnakerException => state_of (h (state_of (m s)))
      | _ => state_of (m s)
      end.
  Proof.
    unfold try_except. destruct (m s) as [[[a | e] s'] t]; cbn; [done |].
    destruct e; cbn; try done. by destruct (h s') as [[??]?].
  Qed.
End Projections.

(** ** Life cycle calls on the cameras of the list *)

Lemma lifecycle_run a ok c :
  lifecycle a ok c = ((if ok c then Ok tt else Raise SpinnakerException), c, [a]).
Proof. unfold lifecycle, bind, emit, gets. by destruct (ok c). Qed.

Lemma on_cam_lifecycle i a ok cams c :
  cams !! i = Some c ->
  on_cam i (lifecycle a ok) cams =
    ((if ok c then Ok tt else Raise SpinnakerException), cams, [OnCam i a]).
Proof.
  intros Hc. rewrite (on_cam_run _ _ _ _ Hc), lifecycle_run.
  cbn [result_of state_of trace_of fst snd map].
  by rewrite (list_insert_id _ _ _ Hc).
Qed.

(** A loop of one life-cycle call per camera: the cameras are as before;
    each event is such a call; when the loop is not cut short by an
    exception, every camera of [idxs] got its call. *)
Lemma lifecycle_loop a ok idxs cams :
  let x := for_ idxs (fun cam => on_cam cam (lifecycle a ok)) cams in
  state_of x = cams /\
  Forall (fun e => exists i, e = OnCam i a) (trace_of x) /\
  (result_of x = Ok tt -> forall j, In j idxs -> In (OnCam j a) (trace_of x)) /\
  (forall e, result_of x = Raise e -> e = SpinnakerException) /\
  ((forall j c, In j idxs -> cams !! j = Some c -> ok c = true) ->
   (forall j, In j idxs -> j < length cams) ->
   result_of x = Ok tt).
Proof.
  induction idxs as [| i idxs IH]; cbn zeta.
  - cbn. repeat split; try done; by intros e [=].
  - cbn [for_]. rewrite state_bind, trace_bind, result_bind.
    destruct (cams !! i) as [c |] eqn:Hc.
    + rewrite (on_cam_lifecycle _ _ _ _ _ Hc). cbn [result_of state_of trace_of fst snd].
      destruct (ok c) eqn:Hok.
      * destruct IH as (Hs & Ht & Hall & Hx & Hgood).
        repeat split; try done.
        -- constructor; [by exists i | done].
        -- intros Hr j [<- | Hj]; [by left | right; by apply Hall].
        -- intros Hflags Hlen. apply Hgood; intros; eauto using in_cons.
      * repeat split; try done.
        -- constructor; [by exists i | constructor].
        -- by intros e [= <-].
        -- intros Hflags _. specialize (Hflags i c (or_introl eq_refl) Hc). congruence.
    + unfold on_cam. rewrite Hc. cbn.
      repeat split; try done.
      * by intros e [= <-].
      * intros _ Hlen. specialize (Hlen i (or_introl eq_refl)).
        apply lookup_ge_None in Hc. lia.
Qed.

(** ** The acquisition-start barrier *)

Lemma no_get_split t pre i post :
  no_get t -> t <> pre ++ OnCam i EvGetNextImage :: post.
Proof.
  intros Ht ->. apply Forall_app in Ht as [_ Ht]. by inversion Ht.
Qed.

Lemma barrier_quiet n t : no_get t -> barrier n t.
Proof. intros Ht pre i post Heq. by destruct (no_get_split _ _ _ _ Ht Heq). Qed.

Lemma barrier_app_quiet n t1 t2 : no_get t1 -> barrier n t2 -> barrier n (t1 ++ t2).
Proof.
  intros H1 H2 pre i post Heq j Hj.
  apply app_eq_inv in Heq as [(k & -> & Hk) | (k & -> & Hk)].
  - destruct k as [| e k]; cbn in Hk.
    + rewrite app_nil_r in H1. specialize (H2 [] i post (eq_sym Hk) j Hj). destruct H2.
    + injection Hk as <- ->. exfalso.
      apply Forall_app in H1 as [_ H1]. by inversion H1.
  - apply in_or_app. right. by eapply H2.
Qed.

Lemma barrier_started n t1 t2 :
  no_get t1 -> (forall j, j < n -> In (OnCam j EvBeginAcquisition) t1) ->
  barrier n (t1 ++ t2).
Proof.
  intros H1 Hall pre i post Heq j Hj.
  apply app_eq_inv in Heq as [(k & -> & Hk) | (k & -> & Hk)].
  - destruct k as [| e k]; cbn in Hk.
    + rewrite app_nil_r in Hall. by apply Hall.
    + injection Hk as <- ->. exfalso.
      apply Forall_app in H1 as [_ H1]. by inversion H1.
  - apply in_or_app. left. by apply Hall.
Qed.

Lemma barrier_app_r n t1 t2 : barrier n t1 -> no_get t2 -> barrier n (t1 ++ t2).
Proof.
  intros H1 H2 pre i post Heq j Hj.
  apply app_eq_inv in Heq as [(k & -> & Hk) | (k & -> & Hk)].
  - destruct k as [| e k]; cbn in Hk.
    + exfalso. by eapply no_get_split with (pre := []).
    + injection Hk as <- ->. by eapply (H1 pre i k).
  - by destruct (no_get_split _ _ _ _ H2 Hk).
Qed.

Section BindLaws.
Context {E S : Type}.

Lemma bind_ret {A B} (a : A) (k : A -> M E S B) s : bind (ret a) k s = k a s.
  Proof. unfold bind, ret. by destruct (k a s) as [[??]?]. Qed.

Lemma bind_gets {A B} (f : S -> A) (k : A -> M E S B) s :
    bind (gets f) k s = k (f s) s.
  Proof. unfold bind, gets. by destruct (k (f s) s) as [[??]?]. Qed.

Lemma bind_raise {A B} e (k : A -> M E S B) s :
    bind (raise e) k s = (Raise e, s, []).
  Proof. done. Qed.

Lemma bind_emit {B} (e : E) (k : unit -> M E S B) s :
    bind (emit e) k s = (result_of (k tt s), state_of (k tt s), e :: trace_of (k tt s)).
  Proof. unfold bind, emit. by destruct (k tt s) as [[??]?]. Qed.
End BindLaws.

Lemma setup_trace_no_get t :
  Forall (fun e => is_setup_event e = true) t -> no_get t.
Proof. intros H. eapply Forall_impl; [exact H |]. apply setup_no_get. Qed.

Lemma lifecycle_trace_no_get a t :
  a <> EvGetNextImage ->
  Forall (fun e => exists i, e = OnCam i a) t -> no_get t.
Proof.
  intros Ha H. eapply Forall_impl; [exact H |].
  intros e [i ->]. by destruct a.
Qed.

Lemma capture_barrier env cams :
  barrier (length cams) (trace_of (capture env cams)).
Proof.
  unfold capture. rewrite trace_try_except. apply barrier_app_r.
  2: { destruct (result_of _) as [| []]; cbn; repeat constructor. }
  unfold open_read. destruct (input_tsv env) as [text |];
    [| apply barrier_quiet; constructor].
  rewrite bind_ret, bind_gets, trace_bind.
  destruct (configure_loop_spec cams (PyStr.readlines text) (seq 0 (length cams))
              true None cams (same_fleet_refl cams)) as (Hfleet & Hsetup & _).
  apply barrier_app_quiet; [by apply setup_trace_no_get |].
  destruct (result_of _) as [[v | result gain] | e];
    [apply barrier_quiet; constructor | | apply barrier_quiet; constructor].
  set (cams1 := state_of _) in *.
  unfold mkdir. destruct (mkdir_ok env); [| apply barrier_quiet; constructor].
  rewrite bind_ret, trace_bind.
  destruct (lifecycle_loop EvBeginAcquisition cam_begin_ok (seq 0 (length cams)) cams1)
    as (_ & Hev & Hall & _ & _).
  fold BeginAcquisition in Hev, Hall.
  destruct (result_of (for_ _ _ cams1)) as [[] | e].
  - apply barrier_started;
      [by apply (lifecycle_trace_no_get EvBeginAcquisition) |].
    intros j Hj. apply Hall; [done |]. apply in_seq. lia.
  - rewrite app_nil_r. apply barrier_quiet.
    by apply (lifecycle_trace_no_get EvBeginAcquisition).
Qed.

(** [C4] In every session, whatever the devices and the driver do: when a
    frame retrieval ([GetNextImage]) occurs on any device, acquisition has
    been started ([BeginAcquisition]) on every device of the fleet before
    it. *)
Theorem acquisition_start_barrier (env : Env) (cams : list Camera)
    (pre post : list event) (i : nat) :
  trace_of (main env cams) = pre ++ OnCam i EvGetNextImage :: post ->
  forall j, j < length cams -> In (OnCam j EvBeginAcquisition) pre.
Proof.
  revert pre i post. change (barrier (length cams) (trace_of (main env cams))).
  unfold main. destruct (cwd_writable env); cbn [negb];
    [| apply barrier_quiet; cbn; repeat constructor].
  unfold out. rewrite bind_emit. cbn [trace_of snd].
  apply (barrier_app_quiet _ [_]); [by repeat constructor |].
  rewrite bind_gets, bind_emit. cbn [trace_of snd].
  apply (barrier_app_quiet _ [_]); [by repeat constructor |].
  destruct (Nat.eqb _ 0); [apply barrier_quiet; cbn; repeat constructor |].
  rewrite trace_bind.
  assert (Hinit : spec (same_fleet cams) (fun e => ev_get e = false) (fun _ => True)
            (for_ (seq 0 (length cams)) (fun cam => on_cam cam Init ;; emit (Out MsgCamera)))).
  { apply spec_for. intros cam _. apply spec_bind; [| intros; by apply spec_emit].
    apply spec_on_cam with (Pc := fun a => a = EvInit); [| done | by intros a ->].
    intros c0 _. spec_auto. }
  destruct (Hinit cams (same_fleet_refl cams)) as (Hfleet & Hquiet & _).
  apply barrier_app_quiet; [exact Hquiet |].
  destruct (result_of _) as [[] | e]; [| apply barrier_quiet; constructor].
  set (cams1 := state_of _) in *.
  rewrite trace_bind.
  assert (Hlen : length cams1 = length cams) by by apply same_fleet_length.
  apply barrier_app_r; [rewrite <- Hlen; apply capture_barrier |].
  destruct (result_of _) as [captured | e]; [| constructor].
  rewrite trace_bind.
  destruct (lifecycle_loop EvDeInit cam_deinit_ok (seq 0 (length cams))
              (state_of (capture env cams1))) as (_ & Hev & _).
  apply Forall_app. split; [by apply (lifecycle_trace_no_get EvDeInit) |].
  destruct (result_of _); constructor.
Qed.

Lemma acquisition_start_barrier_witness :
  let t := trace_of (main (Scenario.env Scenario.two_padded_blocks) Scenario.two_cameras) in
  In (OnCam 1 EvBeginAcquisition) (take (Scenario.first_get t) t).
Proof.
  intros t.
  apply (acquisition_start_barrier (Scenario.env Scenario.two_padded_blocks)
           Scenario.two_cameras
           (take (Scenario.first_get t) t) (drop (S (Scenario.first_get t)) t) 0).
  - vm_compute. reflexivity.
  - cbn. lia.
Defined.

(** ** The structure of a session *)

Lemma init_loop_run idxs cams :
  (forall j, In j idxs -> j < length cams) ->
  (forall c, In c cams -> cam_init_ok c = true) ->
  for_ idxs (fun cam => on_cam cam Init ;; out MsgCamera) cams =
    (Ok tt, cams, init_trace idxs).
Proof.
  intros Hlen Hok. induction idxs as [| i idxs IH]; [done |].
  destruct (lookup_lt_is_Some_2 cams i (Hlen i (or_introl eq_refl))) as [c Hc].
  assert (Hinit : cam_init_ok c = true).
  { apply Hok. apply list_elem_of_In. by eapply list_elem_of_lookup_2. }
  cbn [for_].
  assert (Hstep : (on_cam i Init ;; out MsgCamera) cams =
                  (Ok tt, cams, [OnCam i EvInit; Out MsgCamera])).
  { erewrite run_bind_ok; [| unfold Init; rewrite (on_cam_lifecycle _ _ _ _ _ Hc), Hinit; done].
    done. }
  erewrite run_bind_ok; [| exact Hstep].
  rewrite IH; [done |]. intros j Hj. apply Hlen. by right.
Qed.

Lemma init_trace_no_begin idxs : no_begin (init_trace idxs).
Proof. induction idxs; cbn; repeat constructor; done. Qed.

(** [main] once the start-up checks pass: the prelude, [capture], then
    one [DeInit] per camera. *)
Lemma main_run env cams :
  cwd_writable env = true ->
  cams <> [] ->
  (forall c, In c cams -> cam_init_ok c = true) ->
  let n := length cams in
  let cap := capture env cams in
  let down := for_ (seq 0 n) (fun cam => on_cam cam DeInit) (state_of cap) in
  main env cams =
    match result_of cap with
    | Ok captured =>
        (match result_of down with Ok _ => Ok captured | Raise e => Raise e end,
         state_of down,
         main_prelude n ++ trace_of cap ++ trace_of down)
    | Raise e => (Raise e, state_of cap, main_prelude n ++ trace_of cap)
    end.
Proof.
  intros Hcwd Hne Hinit. cbv zeta. unfold main. rewrite Hcwd. cbn [negb].
  unfold out. rewrite bind_emit, bind_gets, bind_emit.
  rewrite length_seq.
  destruct (Nat.eqb_spec (length cams) 0) as [Hn | Hn].
  { destruct cams; [done | discriminate]. }
  erewrite run_bind_ok; [| apply init_loop_run; [| done]].
  2: { intros j Hj. apply in_seq in Hj. lia. }
  unfold main_prelude.
  remember (capture env cams) as cap eqn:Hcap.
  destruct cap as [[[captured | e] cams1] tcap];
    cbn [result_of state_of trace_of fst snd].
  - erewrite run_bind_ok; [| symmetry; exact Hcap].
    cbn [result_of state_of trace_of fst snd].
    rewrite result_bind, state_bind, trace_bind.
    destruct (for_ _ _ cams1) as [[[[] | e] cams2] tdown]; cbn; by rewrite ?app_nil_r.
  - erewrite run_bind_raise; [| symmetry; exact Hcap]. cbn. done.
Qed.

Lemma try_except_handled (m : SessionM bool) cams :
  try_except m (out MsgError ;; ret false) cams = handled (m cams).
Proof.
  unfold try_except, handled. destruct (m cams) as [[[b | []] s] t]; done.
Qed.

Lemma capture_run env cams text :
  input_tsv env = Some text ->
  let cfg := configure_loop (PyStr.readlines text) (seq 0 (length cams)) true None cams in
  capture env cams =
    handled
      match result_of cfg with
      | Ok (Returned v) => (Ok v, state_of cfg, trace_of cfg)
      | Ok (Fallthrough result gain) =>
          let x := acquisition_phase env (seq 0 (length cams)) result (state_of cfg) in
          (result_of x, state_of x, trace_of cfg ++ trace_of x)
      | Raise e => (Raise e, state_of cfg, trace_of cfg)
      end.
Proof.
  intros Htext. cbv zeta. unfold capture. rewrite try_except_handled. f_equal.
  unfold open_read. rewrite Htext, bind_ret, bind_gets.
  remember (configure_loop _ _ _ _ cams) as cfg eqn:Hcfg.
  destruct cfg as [[[[v | result gain] | e] cams1] tcfg];
    cbn [result_of state_of trace_of fst snd].
  - erewrite run_bind_ok; [| symmetry; exact Hcfg]. cbn. by rewrite app_nil_r.
  - erewrite run_bind_ok; [| symmetry; exact Hcfg]. done.
  - erewrite run_bind_raise; [| symmetry; exact Hcfg]. done.
Qed.

(** The loop leaves by [return False] only: line 473 is its one [return]. *)
Lemma configure_loop_returned lines idxs result gain cams v :
  result_of (configure_loop lines idxs result gain cams) = Ok (Returned v) ->
  v = false.
Proof.
  revert result gain cams. induction idxs as [| i idxs IH]; intros result gain cams; cbn [configure_loop].
  - cbn. congruence.
  - repeat (rewrite result_bind;
            lazymatch goal with
            | |- context [match result_of ?x with _ => _ end] =>
                destruct (result_of x); [| congruence]
            end).
    intros H. repeat match type of H with
    | context [match ?x with _ => _ end] => destruct x
    | context [if ?b then _ else _] => destruct b
    end.
    all: try (cbn in H; congruence); try (by eapply IH).
Qed.

Lemma no_begin_not_in t j : no_begin t -> ~ In (OnCam j EvBeginAcquisition) t.
Proof.
  intros Ht Hin. unfold no_begin in Ht. rewrite List.Forall_forall in Ht.
  by specialize (Ht _ Hin).
Qed.

Lemma setup_trace_no_begin t :
  Forall (fun e => is_setup_event e = true) t -> no_begin t.
Proof. intros H. eapply Forall_impl; [exact H |]. apply setup_no_begin. Qed.

Lemma lifecycle_trace_no_begin a t :
  a <> EvBeginAcquisition ->
  Forall (fun e => exists i, e = OnCam i a) t -> no_begin t.
Proof.
  intros Ha H. eapply Forall_impl; [exact H |].
  intros e [i ->]. by destruct a.
Qed.

Lemma same_fleet_deinit cams cams1 :
  same_fleet cams cams1 ->
  (forall c, In c cams -> cam_deinit_ok c = true) ->
  forall j c, cams1 !! j = Some c -> cam_deinit_ok c = true.
Proof.
  intros Hfleet Hok j c Hc.
  destruct (Forall2_lookup_r _ _ _ _ _ Hfleet Hc) as (c0 & Hc0 & Hflags).
  destruct Hflags as (_ & _ & _ & _ & ->).
  apply Hok. apply list_elem_of_In. by eapply list_elem_of_lookup_2.
Qed.

(** [C5] When the configuration loop of a session is left by the
    [return False] of a failed [configure_camera], and the start-up and
    tear-down calls of the driver themselves return: the session reports
    failure, [BeginAcquisition] is called on no device, and [DeInit] is
    called on every device of the fleet. *)
Theorem failed_configuration_aborts_session (env : Env) (cams : list Camera)
    (text : string) :
  cwd_writable env = true ->
  input_tsv env = Some text ->
  (forall c, In c cams -> cam_init_ok c = true) ->
  (forall c, In c cams -> cam_deinit_ok c = true) ->
  result_of (configure_loop (PyStr.readlines text) (seq 0 (length cams)) true None cams)
    = Ok (Returned false) ->
  result_of (main env cams) = Ok false /\
  (forall j, ~ In (OnCam j EvBeginAcquisition) (trace_of (main env cams))) /\
  (forall j, j < length cams -> In (OnCam j EvDeInit) (trace_of (main env cams))).
Proof.
  intros Hcwd Htext Hinit Hdeinit Hcfg.
  assert (Hne : cams <> []) by (intros ->; cbn in Hcfg; congruence).
  rewrite (main_run env cams Hcwd Hne Hinit).
  rewrite (capture_run env cams text Htext). cbv zeta. rewrite Hcfg.
  cbn [handled result_of state_of trace_of fst snd].
  destruct (configure_loop_spec cams (PyStr.readlines text) (seq 0 (length cams))
              true None cams (same_fleet_refl cams)) as (Hfleet & Hsetup & _).
  set (cams1 := state_of (configure_loop _ _ _ _ cams)) in *.
  destruct (lifecycle_loop EvDeInit cam_deinit_ok (seq 0 (length cams)) cams1)
    as (_ & Hev & Hall & _ & Hgood).
  fold DeInit in Hev, Hall, Hgood.
  assert (Hdown : result_of (for_ (seq 0 (length cams)) (fun cam => on_cam cam DeInit) cams1)
                  = Ok tt).
  { apply Hgood.
    - intros j c _ Hc. by eapply same_fleet_deinit.
    - intros j Hj. apply in_seq in Hj.
      rewrite (same_fleet_length _ _ Hfleet). lia. }
  rewrite Hdown. cbn [result_of state_of trace_of fst snd]. split; [done |]. split.
  - intros j. apply no_begin_not_in. unfold main_prelude.
    repeat apply Forall_app_2.
    + by repeat constructor.
    + apply init_trace_no_begin.
    + by apply setup_trace_no_begin.
    + by apply (lifecycle_trace_no_begin EvDeInit).
  - intros j Hj. apply in_or_app. right. apply in_or_app. right.
    apply Hall; [done |]. apply in_seq. lia.
Qed.

Lemma failed_configuration_aborts_session_witness :
  let env := Scenario.env Scenario.two_padded_blocks in
  result_of (main env Scenario5.cameras) = Ok false /\
  (forall j, ~ In (OnCam j EvBeginAcquisition) (trace_of (main env Scenario5.cameras))) /\
  (forall j, j < 2 -> In (OnCam j EvDeInit) (trace_of (main env Scenario5.cameras))).
Proof.
  apply (failed_configuration_aborts_session
           (Scenario.env Scenario.two_padded_blocks) Scenario5.cameras
           Scenario.two_padded_blocks).
  - reflexivity.
  - reflexivity.
  - intros c [<- | [<- | []]]; reflexivity.
  - intros c [<- | [<- | []]]; reflexivity.
  - vm_compute. reflexivity.
Defined.

(** ** Running a computation step by step *)

Section Engine.
Context {E S : Type}.

Lemma run_bind {A B} (m : M E S A) (k : A -> M E S B) s :
  bind m k s = andthen (m s) k.
Proof.
  unfold bind, andthen, prepend. destruct (m s) as [[[a | e] s1] t1]; [| done].
  by destruct (k a s1) as [[??]?].
Qed.

Lemma run_try_except {A} (m h : M E S A) s : try_except m h s = catch h (m s).
Proof.
  unfold try_except, catch, prepend. destruct (m s) as [[[a | []] s'] t]; try done.
  by destruct (h s') as [[??]?].
Qed.

Lemma andthen_ok {A B} (a : A) s t (k : A -> M E S B) :
  andthen (Ok a, s, t) k = prepend t (k a s).
Proof. done. Qed.

Lemma andthen_raise {A B} e s t (k : A -> M E S B) :
  andthen (Raise e, s, t) k = (Raise e, s, t).
Proof. done. Qed.

Lemma andthen_prepend {A B} t0 (x : outcome A * S * list E) (k : A -> M E S B) :
  andthen (prepend t0 x) k = prepend t0 (andthen x k).
Proof.
  destruct x as [[[a | e] s] t]; unfold andthen, prepend; cbn; [| done].
  by rewrite app_assoc.
Qed.

Lemma catch_prepend {A} (h : M E S A) t0 x :
  catch h (prepend t0 x) = prepend t0 (catch h x).
Proof.
  destruct x as [[[a | []] s] t]; cbn; try done.
  unfold prepend. cbn. by rewrite app_assoc.
Qed.

Lemma catch_ok {A} (h : M E S A) a s t : catch h (Ok a, s, t) = (Ok a, s, t).
Proof. done. Qed.

Lemma catch_spin {A} (h : M E S A) s t :
  catch h (Raise SpinnakerException, s, t) = prepend t (h s).
Proof. done. Qed.

Lemma prepend_tuple {A} t0 (r : outcome A) (s : S) (t : list E) :
  prepend t0 (r, s, t) = (r, s, t0 ++ t).
Proof. done. Qed.

Lemma prepend_prepend {A} t0 t1 (x : outcome A * S * list E) :
  prepend t0 (prepend t1 x) = prepend (t0 ++ t1) x.
Proof. unfold prepend. cbn. by rewrite app_assoc. Qed.

Lemma ret_run {A} (a : A) s : @ret E S A a s = (Ok a, s, []).
Proof. done. Qed.

Lemma raise_run {A} e s : @raise E S A e s = (Raise e, s, []).
Proof. done. Qed.

Lemma emit_run (e : E) (s : S) : emit e s = (Ok tt, s, [e]).
Proof. done. Qed.

Lemma gets_run {A} (f : S -> A) s : @gets E S A f s = (Ok (f s), s, []).
Proof. done. Qed.

Lemma modify_run (f : S -> S) s : @modify E S f s = (Ok tt, f s, []).
Proof. done. Qed.

Lemma lift_outcome_run {A} (o : outcome A) s : @lift_outcome E S A o s = (o, s, []).
Proof. done. Qed.
End Engine.

Ltac sym_step :=
  first
    [ rewrite run_bind
    | rewrite run_try_except
    | rewrite andthen_prepend
    | rewrite andthen_ok
    | rewrite andthen_raise
    | rewrite catch_prepend
    | rewrite catch_ok
    | rewrite catch_spin
    | rewrite prepend_prepend
    | rewrite prepend_tuple
    | rewrite ret_run
    | rewrite raise_run
    | rewrite emit_run
    | rewrite gets_run
    | rewrite modify_run
    | rewrite lift_outcome_run
    | progress cbv beta
    | progress cbn [app]
    | match goal with
      | |- context [(if ?b then _ else _) _] => destruct b eqn:?
      | |- context [(match ?x with _ => _ end) _] => destruct x eqn:?
      | |- context [catch _ (Raise ?e, _, _)] => destruct e
      end ].

Ltac sym_run :=
  unfold_driver; unfold py_and; cbv beta zeta; cbn [fst snd for_ for_return];
  repeat sym_step.

(** ** The acquisition phase *)

Lemma acquire_images_total directory c :
  exists b, result_of (acquire_images directory c) = Ok b.
Proof.
  eapply spec_total; [apply (acquire_images_spec c) | apply same_flags_refl].
Qed.

Lemma acquire_images_result directory c :
  result_of (acquire_images directory c) = Ok (acquired directory c).
Proof.
  unfold acquired. by destruct (acquire_images_total directory c) as [b ->].
Qed.


Lemma insert_middle {A} (pre : list A) (c c' : A) (l : list A) :
  <[length pre := c']> (pre ++ c :: l) = pre ++ c' :: l.
Proof. induction pre as [| x pre IH]; [done |]. simpl. by rewrite IH. Qed.


Lemma on_cam_middle {A} (m : CamM A) pre c l :
  on_cam (length pre) m (pre ++ c :: l) =
    (result_of (m c), pre ++ state_of (m c) :: l,
     map (OnCam (length pre)) (trace_of (m c))).
Proof.
  rewrite (on_cam_run _ _ _ c); [| by apply list_lookup_middle].
  by rewrite insert_middle.
Qed.

Lemma acquire_loop_run directory l : forall pre result,
  acquire_loop directory (seq (length pre) (length l)) result (pre ++ l) =
    (Ok (result && forallb (acquired directory) l),
     pre ++ map (fun c => state_of (acquire_images directory c)) l,
     acquire_trace directory (length pre) l).
Proof.
  induction l as [| c l IH]; intros pre result; cbn [length seq acquire_loop].
  - cbn. by rewrite andb_true_r.
  - erewrite run_bind_ok;
      [| rewrite on_cam_middle, acquire_images_result; reflexivity].
    set (c' := state_of (acquire_images directory c)).
    replace (pre ++ c' :: l) with ((pre ++ [c']) ++ l) by by rewrite <- app_assoc.
    replace (S (length pre)) with (length (pre ++ [c'])) by (rewrite length_app; cbn; lia).
    rewrite IH. cbn [result_of state_of trace_of fst snd forallb map acquire_trace].
    rewrite <- !app_assoc, andb_assoc. cbn [app].
    repeat f_equal. rewrite length_app. cbn. f_equal; lia.
Qed.

Lemma teardown_loop_run idxs cams :
  (forall j, In j idxs -> j < length cams) ->
  (forall c, In c cams -> cam_end_ok c = true /\ cam_deinit_ok c = true) ->
  for_ idxs (fun cam => on_cam cam EndAcquisition ;; on_cam cam DeInit) cams =
    (Ok tt, cams, teardown_trace idxs).
Proof.
  intros Hlen Hok. induction idxs as [| i idxs IH]; [done |].
  destruct (lookup_lt_is_Some_2 cams i (Hlen i (or_introl eq_refl))) as [c Hc].
  assert (Hflags : cam_end_ok c = true /\ cam_deinit_ok c = true).
  { apply Hok. apply list_elem_of_In. by eapply list_elem_of_lookup_2. }
  destruct Hflags as [Hend Hdeinit].
  cbn [for_].
  assert (Hstep : (on_cam i EndAcquisition ;; on_cam i DeInit) cams =
                  (Ok tt, cams, [OnCam i EvEndAcquisition; OnCam i EvDeInit])).
  { erewrite run_bind_ok;
      [| unfold EndAcquisition; rewrite (on_cam_lifecycle _ _ _ _ _ Hc), Hend; done].
    unfold DeInit. rewrite (on_cam_lifecycle _ _ _ _ _ Hc), Hdeinit. done. }
  erewrite run_bind_ok; [| exact Hstep].
  rewrite IH; [done |]. intros j Hj. apply Hlen. by right.
Qed.

Lemma lifecycle_loop_run a ok idxs cams :
  (forall j, In j idxs -> j < length cams) ->
  (forall c, In c cams -> ok c = true) ->
  for_ idxs (fun cam => on_cam cam (lifecycle a ok)) cams =
    (Ok tt, cams, map (fun i => OnCam i a) idxs).
Proof.
  intros Hlen Hok. induction idxs as [| i idxs IH]; [done |].
  destruct (lookup_lt_is_Some_2 cams i (Hlen i (or_introl eq_refl))) as [c Hc].
  assert (Hc_ok : ok c = true).
  { apply Hok. apply list_elem_of_In. by eapply list_elem_of_lookup_2. }
  cbn [for_].
  erewrite run_bind_ok; [| rewrite (on_cam_lifecycle _ _ _ _ _ Hc), Hc_ok; done].
  rewrite IH; [done |]. intros j Hj. apply Hlen. by right.
Qed.

Lemma begin_loop_run idxs cams :
  (forall j, In j idxs -> j < length cams) ->
  (forall c, In c cams -> cam_begin_ok c = true) ->
  for_ idxs (fun cam => on_cam cam BeginAcquisition) cams =
    (Ok tt, cams, begin_trace idxs).
Proof. apply lifecycle_loop_run. Qed.


Lemma acquire_images_flags directory c :
  same_flags c (state_of (acquire_images directory c)).
Proof.
  by destruct (acquire_images_spec c directory c (same_flags_refl c)) as (H & _).
Qed.

(** The acquisition phase when the directory is made and the start and
    tear-down calls return: every camera is started, every camera runs
    its cycle, every camera is torn down, and the result is the
    conjunction of the cycles' outcomes with the result so far. *)
Lemma acquisition_phase_run env result cams :
  mkdir_ok env = true ->
  (forall c, In c cams ->
     cam_begin_ok c = true /\ cam_end_ok c = true /\ cam_deinit_ok c = true) ->
  let directory := chosen_directory env +:+ "/" +:+ folder_name env in
  let idxs := seq 0 (length cams) in
  acquisition_phase env idxs result cams =
    (Ok (result && forallb (acquired directory) cams),
     map (fun c => state_of (acquire_images directory c)) cams,
     begin_trace idxs ++ acquire_trace directory 0 cams ++ teardown_trace idxs).
Proof.
  intros Hmkdir Hok. cbv zeta. unfold acquisition_phase, mkdir.
  rewrite Hmkdir, bind_ret.
  assert (Hidx : forall j, In j (seq 0 (length cams)) -> j < length cams).
  { intros j Hj. apply in_seq in Hj. lia. }
  erewrite run_bind_ok; [| apply begin_loop_run; [done | by intros c Hc; apply Hok]].
  erewrite run_bind_ok; [| apply (acquire_loop_run _ cams [])].
  erewrite run_bind_ok.
  2: { apply teardown_loop_run.
       - intros j Hj. cbn [app]. rewrite length_map. by apply Hidx.
       - intros c Hc. cbn [app] in Hc. apply in_map_iff in Hc as (c0 & <- & Hc0).
         destruct (acquire_images_flags (chosen_directory env +:+ "/" +:+ folder_name env) c0)
           as (_ & _ & _ & -> & ->).
         destruct (Hok c0 Hc0) as (_ & ? & ?). done. }
  cbn. by rewrite app_nil_r.
Qed.

Lemma same_fleet_flags cams cams1 (f : Camera -> bool) :
  (forall c0 c, same_flags c0 c -> f c = f c0) ->
  same_fleet cams cams1 ->
  (forall c, In c cams -> f c = true) ->
  forall c, In c cams1 -> f c = true.
Proof.
  intros Hf Hfleet Hok c Hc.
  apply list_elem_of_In, list_elem_of_lookup_1 in Hc as [j Hj].
  destruct (Forall2_lookup_r _ _ _ _ _ Hfleet Hj) as (c0 & Hc0 & Hflags).
  rewrite (Hf c0 c Hflags). apply Hok.
  apply list_elem_of_In. by eapply list_elem_of_lookup_2.
Qed.

Ltac sym_run_with tac :=
  unfold_driver; unfold py_and; cbv beta zeta; cbn [fst snd for_ for_return];
  repeat first [progress tac | sym_step].

Ltac not_in := cbn; intros Hin; repeat destruct Hin as [Hin | Hin]; done.

(** ** The image-buffer cycle *)

(** [C1] The code does not do what the claim says.  When the retrieved
    frame is incomplete, or is complete and cannot be saved, a pass of the
    loop of [acquire_images] retrieves the frame ([GetNextImage]) and
    never releases it: no [Release] is called and the device holds one
    more frame than before. *)
Theorem unreleased_frame (directory serial : string) (i : nat) (c : Camera)
    (f : Frame) (rest : list (option Frame)) :
  cam_frames c = Some f :: rest ->
  frame_incomplete f = true \/ frame_save_ok f = false ->
  let x := acquire_one directory serial i c in
  In EvGetNextImage (trace_of x) /\
  ~ In EvRelease (trace_of x) /\
  cam_held (state_of x) = S (cam_held c).
Proof.
  intros Hframes Hbad. cbv zeta. unfold acquire_one.
  sym_run.
  all: simplify_eq.
  all: unfold IsIncomplete in *.
  all: try (destruct Hbad; congruence).
  all: cbn [trace_of state_of fst snd cam_held with_frames].
  all: repeat split; try done; try not_in; cbn; tauto.
Qed.

Lemma unreleased_frame_witness :
  let x := acquire_one "/data" "ABC123" 0 Scenario1.incomplete_camera in
  In EvGetNextImage (trace_of x) /\
  ~ In EvRelease (trace_of x) /\
  cam_held (state_of x) = 1.
Proof.
  apply (unreleased_frame "/data" "ABC123" 0 Scenario1.incomplete_camera
           Scenario.incomplete_frame []).
  - reflexivity.
  - left. reflexivity.
Defined.

(** The path the source comments describe: a complete frame is saved and
    then released, and the device holds no more frames than before. *)
Lemma acquire_one_complete (directory serial : string) (i : nat) (c : Camera)
    (f : Frame) (rest : list (option Frame)) :
  cam_frames c = Some f :: rest ->
  frame_incomplete f = false -> frame_save_ok f = true -> frame_release_ok f = true ->
  acquire_one directory serial i c =
    (Ok None, with_frames rest (cam_held c) c,
     [EvGetNextImage; EvPrint (MsgGrabbed i (frame_width f) (frame_height f));
      EvSave (directory +:+ "/" +:+ filename serial i);
      EvPrint (MsgSaved (filename serial i)); EvRelease; EvPrint MsgBlank]).
Proof.
  intros Hframes Hc Hs Hr. unfold acquire_one.
  sym_run; simplify_eq; unfold IsIncomplete in *; try congruence.
  done.
Qed.

(** ** The gain lookup *)

(** [C2] The code does not do what the claim says.  On the configuration
    text of the specification's example, read as [readlines] reads it,
    the lookup for identity ABC123 leaves [gain] unbound: the second field
    of the serial-number line still carries the line's newline and is not
    equal to the identity.  (With a third column on the serial-number line
    the second field is the bare identity and the lookup binds "12.5".) *)
Theorem spec_example_lookup_misses :
  PyStr.split PyStr.TAB (PyStr.line_of Scenario.spec_config 0)
    = ["DeviceSerialNumber"; "ABC123" +:+ PyStr.nl] /\
  Lookup.lookup_gain (PyStr.readlines Scenario.spec_config) "ABC123" None = Ok None /\
  Lookup.lookup_gain (PyStr.readlines Scenario.spec_config) "XYZ999" None = Ok None /\
  Lookup.lookup_gain (PyStr.readlines Scenario.padded_config) "ABC123" None
    = Ok (Some "12.5").
Proof. repeat split; reflexivity. Qed.

(** ** Setting an enumeration by name *)

Lemma deref_node_stored nm name k n' c :
  deref_node nm name k (with_nodes nm (insert name n') c) =
    if kind_matches k (node_data n') then Some n' else None.
Proof.
  unfold deref_node. destruct nm; cbn; by rewrite lookup_insert_eq.
Qed.

Lemma deref_entry_stored nm name entry n' c :
  deref_entry nm name entry (with_nodes nm (insert name n') c) =
    match node_data n' with
    | Enumeration entries _ => entries !! entry
    | _ => None
    end.
Proof.
  unfold deref_entry. rewrite deref_node_stored.
  destruct (node_data n') eqn:Hd; cbn; rewrite ?Hd; done.
Qed.

Lemma enum_gate_closed (setting choice : string) (c : Camera) :
  is_available (NodePtr NodeMap setting KEnumeration) c &&
  is_writable (NodePtr NodeMap setting KEnumeration) c = false ->
  exists m, is_report m /\
    change_enum_setting setting choice c = (Ok tt, c, [EvPrint m]).
Proof.
  intros Hgate. unfold change_enum_setting. sym_run.
  all: cbn [is_available is_writable] in *; simplify_eq/=.
  all: eexists; split; [| reflexivity]; unfold is_report; eauto.
Qed.

Lemma enum_entry_gate_closed (setting choice : string) (c : Camera) :
  is_available (EntryPtr NodeMap setting choice) c &&
  is_readable (EntryPtr NodeMap setting choice) c = false ->
  exists m, is_report m /\
    change_enum_setting setting choice c = (Ok tt, c, [EvPrint m]).
Proof.
  intros Hgate. unfold change_enum_setting. sym_run.
  all: cbn [is_available is_readable] in *; simplify_eq/=.
  all: eexists; split; [| reflexivity]; unfold is_report; eauto.
Qed.

Lemma enum_writes (setting choice : string) (c : Camera) (a : action) :
  In a (trace_of (change_enum_setting setting choice c)) -> is_write a = true ->
  exists e, deref_entry NodeMap setting choice c = Some e /\
            a = EvSetIntValue (NodePtr NodeMap setting KEnumeration) (entry_value e).
Proof.
  intros Hin Hw. revert Hin. unfold change_enum_setting. sym_run.
  all: cbn [trace_of snd]; intros Hin.
  all: repeat (destruct Hin as [<- | Hin]; try discriminate Hw); try done.
  all: by eexists.
Qed.

Lemma enum_success (setting choice : string) (c : Camera) (n : Node) (e : Entry) :
  cam_nodemap_ok c = true ->
  deref_node NodeMap setting KEnumeration c = Some n ->
  node_available n = true -> node_writable n = true -> node_fault n = false ->
  deref_entry NodeMap setting choice c = Some e ->
  entry_available e = true -> entry_readable e = true ->
  exists entries cur,
    node_data n = Enumeration entries cur /\
    change_enum_setting setting choice c =
      (Ok tt,
       with_nodes NodeMap
         (insert setting (with_data (Enumeration entries (entry_value e)) n)) c,
       [EvSetIntValue (NodePtr NodeMap setting KEnumeration) (entry_value e);
        EvPrint (MsgSetTo (node_display_name n) (entry_display_name e))]).
Proof.
  intros Hnm Hn Hav Hwr Hfault He Heav Her.
  pose proof He as He'. unfold deref_entry in He'. rewrite Hn in He'.
  destruct (node_data n) as [entries cur | | | |] eqn:Hd; try done.
  exists entries, cur. split; [done |]. unfold change_enum_setting.
  sym_run_with ltac:(first
    [ rewrite Hnm | rewrite Hn | rewrite Hav | rewrite Hwr | rewrite Hfault
    | rewrite He | rewrite Heav | rewrite Her | rewrite Hd | rewrite He'
    | rewrite deref_node_stored | rewrite deref_entry_stored
    | progress cbn [is_available is_readable is_writable with_data node_fault
                    node_data node_display_name kind_matches andb] ]).
  done.
Qed.

(** [C6] For every call of [change_enum_setting]: (1) when the
    enumeration node is missing, unavailable or not writable, nothing is
    written and one report is printed; (2) likewise when the named entry is
    missing, unavailable or not readable, whatever the enumeration's own
    flags; (3) every write the call makes is [SetIntValue] of the entry's
    integer code on the enumeration node, never a write on the entry;
    (4) when both gates pass and the driver does not fault, that write is
    made: the enumeration node holds the entry's code afterwards. *)
Theorem change_enum_setting_resolution (setting choice : string) (c : Camera) :
  let sp := NodePtr NodeMap setting KEnumeration in
  let ep := EntryPtr NodeMap setting choice in
  let x := change_enum_setting setting choice c in
  (is_available sp c && is_writable sp c = false ->
     exists m, is_report m /\ x = (Ok tt, c, [EvPrint m])) /\
  (is_available ep c && is_readable ep c = false ->
     exists m, is_report m /\ x = (Ok tt, c, [EvPrint m])) /\
  (forall a, In a (trace_of x) -> is_write a = true ->
     exists e, deref_entry NodeMap setting choice c = Some e /\
               a = EvSetIntValue sp (entry_value e)) /\
  (forall n e,
     cam_nodemap_ok c = true ->
     deref_node NodeMap setting KEnumeration c = Some n ->
     node_available n = true -> node_writable n = true -> node_fault n = false ->
     deref_entry NodeMap setting choice c = Some e ->
     entry_available e = true -> entry_readable e = true ->
     exists entries cur,
       node_data n = Enumeration entries cur /\
       x = (Ok tt,
            with_nodes NodeMap
              (insert setting (with_data (Enumeration entries (entry_value e)) n)) c,
            [EvSetIntValue sp (entry_value e);
             EvPrint (MsgSetTo (node_display_name n) (entry_display_name e))])).
Proof.
  cbv zeta. repeat split.
  - apply enum_gate_closed.
  - apply enum_entry_gate_closed.
  - apply enum_writes.
  - apply enum_success.
Qed.

Lemma change_enum_setting_resolution_witness :
  exists entries cur,
    node_data Scenario6.pixel_format = Enumeration entries cur /\
    change_enum_setting "PixelFormat" "Mono16" Scenario6.device =
      (Ok tt,
       with_nodes NodeMap
         (insert "PixelFormat"
            (with_data (Enumeration entries 17825797) Scenario6.pixel_format))
         Scenario6.device,
       [EvSetIntValue (NodePtr NodeMap "PixelFormat" KEnumeration) 17825797;
        EvPrint (MsgSetTo "Pixel Format" "Mono16")]).
Proof.
  apply (proj2 (proj2 (proj2
    (change_enum_setting_resolution "PixelFormat" "Mono16" Scenario6.device)))
    Scenario6.pixel_format Scenario6.mono16); reflexivity.
Defined.

(** ** Gated writes *)

Lemma flags_kept_refl c : flags_kept c c.
Proof. by intros p. Qed.

Lemma flags_kept_trans c c1 c2 : flags_kept c c1 -> flags_kept c1 c2 -> flags_kept c c2.
Proof.
  intros H1 H2 p. destruct (H1 p) as (<- & <- & <-). apply H2.
Qed.

Lemma closed_kept_refl c : closed_kept c c.
Proof. by split. Qed.

Lemma closed_kept_trans c c1 c2 : closed_kept c c1 -> closed_kept c1 c2 -> closed_kept c c2.
Proof.
  intros [Htl1 H1] [Htl2 H2]. split; [congruence |].
  intros name n Hn Hclosed. apply H2; [by apply H1 | done].
Qed.

Lemma gated_flags_kept c c' a : flags_kept c c' -> gated c' a -> gated c a.
Proof.
  intros Hk. destruct a; cbn [gated]; try done; unfold gate_ok;
    destruct (Hk p) as (-> & _ & ->); auto.
Qed.

Lemma gated_step_refl c t : Forall (gated c) t -> gated_step c c t.
Proof. intros Ht. split; [apply flags_kept_refl |]. split; [apply closed_kept_refl | done]. Qed.

Lemma gated_step_trans c c1 c2 t1 t2 :
  gated_step c c1 t1 -> gated_step c1 c2 t2 -> gated_step c c2 (t1 ++ t2).
Proof.
  intros (Hf1 & Hc1 & Ht1) (Hf2 & Hc2 & Ht2). split; [| split].
  - by eapply flags_kept_trans.
  - by eapply closed_kept_trans.
  - apply Forall_app. split; [done |].
    eapply Forall_impl; [exact Ht2 |]. intros a. by apply gated_flags_kept.
Qed.

Lemma deref_node_lookup nm name k c n :
  deref_node nm name k c = Some n ->
  nodes_of nm c !! name = Some n /\ kind_matches k (node_data n) = true.
Proof.
  unfold deref_node. destruct (nodes_of nm c !! name) as [n' |]; [| done].
  destruct (kind_matches k (node_data n')) eqn:Hk; [| done]. by intros [= <-].
Qed.

Lemma kind_matches_compatible k d d' :
  data_compatible d d' -> kind_matches k d = kind_matches k d'.
Proof. by destruct k, d, d'. Qed.

Lemma deref_node_store name n d nm' name' k' c :
  cam_nodes c !! name = Some n ->
  data_compatible d (node_data n) ->
  deref_node nm' name' k' (with_nodes NodeMap (insert name (with_data d n)) c) =
    match deref_node nm' name' k' c with
    | Some n0 =>
        Some (match nm' with
              | NodeMap => if decide (name = name') then with_data d n else n0
              | TLDeviceNodeMap => n0
              end)
    | None => None
    end.
Proof.
  intros Hn Hd. unfold deref_node. destruct nm'; cbn; [| by repeat case_match].
  rewrite lookup_insert. case_decide as Heq.
  - subst name'. rewrite Hn. cbn. rewrite (kind_matches_compatible k' d _ Hd).
    by destruct (kind_matches k' (node_data n)).
  - by repeat case_match.
Qed.

Lemma flags_kept_store name n d c :
  cam_nodes c !! name = Some n ->
  data_compatible d (node_data n) ->
  flags_kept c (with_nodes NodeMap (insert name (with_data d n)) c).
Proof.
  intros Hn Hd [nm' name' k' | nm' name' entry'];
    cbn [is_available is_readable is_writable]; unfold deref_entry;
    rewrite (deref_node_store name n d _ _ _ c Hn Hd).
  - destruct (deref_node nm' name' k' c) as [n0 |] eqn:Hn0; [| done].
    destruct nm'; [| done]. case_decide as Heq; [| done]. subst name'.
    apply deref_node_lookup in Hn0 as [Hn0 _]. cbn in Hn0.
    rewrite Hn in Hn0. by injection Hn0 as <-.
  - destruct (deref_node nm' name' KEnumeration c) as [n0 |] eqn:Hn0; [| done].
    destruct nm'; [| done]. case_decide as Heq; [| done]. subst name'.
    apply deref_node_lookup in Hn0 as [Hn0 _]. cbn in Hn0.
    rewrite Hn in Hn0. injection Hn0 as <-. cbn.
    destruct d, (node_data n); cbn in Hd; try done. by subst.
Qed.

Lemma closed_kept_store name n d c :
  cam_nodes c !! name = Some n ->
  node_available n = true -> node_writable n = true ->
  closed_kept c (with_nodes NodeMap (insert name (with_data d n)) c).
Proof.
  intros Hn Ha Hw. split; [done |]. intros name' n' Hn' Hclosed. cbn.
  destruct (decide (name = name')) as [<- | Hne].
  - rewrite Hn in Hn'. injection Hn' as <-. rewrite Ha, Hw in Hclosed. done.
  - by rewrite lookup_insert_ne.
Qed.

Lemma gated_step_store name k n d c t :
  deref_node NodeMap name k c = Some n ->
  is_available (NodePtr NodeMap name k) c = true ->
  is_writable (NodePtr NodeMap name k) c = true ->
  data_compatible d (node_data n) ->
  Forall (gated c) t ->
  gated_step c (with_nodes NodeMap (insert name (with_data d n)) c) t.
Proof.
  intros Hn Ha Hw Hd Ht. cbn [is_available is_writable] in Ha, Hw.
  rewrite Hn in Ha, Hw. apply deref_node_lookup in Hn as [Hn _]. cbn in Hn.
  split; [by apply flags_kept_store |]. split; [by apply closed_kept_store | done].
Qed.

Ltac use_gates :=
  repeat match goal with
  | H : is_available ?p ?c = true |- context [is_available ?p ?c] => rewrite H
  | H : is_writable ?p ?c = true |- context [is_writable ?p ?c] => rewrite H
  end.

Ltac gated_trace :=
  repeat (constructor; [cbn [gated]; unfold gate_ok; use_gates; done |]);
  constructor.

Ltac gated_goal :=
  cbn [state_of trace_of fst snd];
  first
    [ apply gated_step_refl; gated_trace
    | eapply gated_step_store; [eassumption | assumption | assumption | | gated_trace];
      match goal with
      | H : node_data ?n = _ |- data_compatible _ (node_data ?n) => rewrite H; done
      end ].

Ltac gated_two_writes :=
  cbn [state_of trace_of fst snd];
  match goal with
  | |- gated_step ?c ?s (?a :: ?t) =>
      match s with
      | context [with_nodes NodeMap ?f c] =>
          change (gated_step c s ([a] ++ t));
          apply (gated_step_trans c (with_nodes NodeMap f c)); gated_goal
      end
  end.

Lemma change_enum_setting_gated setting choice :
  block_gated (change_enum_setting setting choice).
Proof.
  intros c. unfold change_enum_setting. sym_run.
  all: simplify_eq; gated_goal.
Qed.

Lemma set_maximum_gated name : block_gated (set_maximum NodeMap name).
Proof.
  intros c. unfold set_maximum. sym_run.
  all: simplify_eq; gated_goal.
Qed.

Lemma change_gain_gated gain : block_gated (change_gain gain).
Proof.
  intros c. unfold change_gain. sym_run.
  all: simplify_eq; first [gated_goal | gated_two_writes].
Qed.

Lemma block_gated_ret {A} (a : A) : block_gated (ret a).
Proof. intros c. apply gated_step_refl. constructor. Qed.

Lemma block_gated_print m : block_gated (print m).
Proof. intros c. apply gated_step_refl. by repeat constructor. Qed.

Lemma block_gated_bind {A B} (m : CamM A) (k : A -> CamM B) :
  block_gated m -> (forall a, block_gated (k a)) -> block_gated (bind m k).
Proof.
  intros Hm Hk c. rewrite state_bind, trace_bind.
  destruct (result_of (m c)) as [a | e].
  - eapply gated_step_trans; [apply Hm | apply Hk].
  - rewrite app_nil_r. apply Hm.
Qed.

Lemma block_gated_try_except {A} (m h : CamM A) :
  block_gated m -> block_gated h -> block_gated (try_except m h).
Proof.
  intros Hm Hh c. rewrite state_try_except, trace_try_except.
  destruct (result_of (m c)) as [a | []]; try (rewrite app_nil_r; apply Hm).
  eapply gated_step_trans; [apply Hm | apply Hh].
Qed.

Lemma configure_camera_body_gated gain :
  block_gated (configure_camera_body NodeMap gain).
Proof.
  unfold configure_camera_body.
  repeat (lazymatch goal with
          | |- block_gated (bind _ _) => apply block_gated_bind; [| intros ?]
          end);
    first [ apply block_gated_ret | apply set_maximum_gated | apply change_gain_gated
          | apply change_enum_setting_gated ].
Qed.

Lemma GetNodeMap_run c :
  GetNodeMap c =
    ((if cam_nodemap_ok c then Ok NodeMap else Raise SpinnakerException), c, []).
Proof.
  unfold GetNodeMap. rewrite run_bind, gets_run, andthen_ok.
  by destruct (cam_nodemap_ok c).
Qed.

Lemma configure_camera_gated gain : block_gated (configure_camera gain).
Proof.
  intros c. unfold configure_camera.
  rewrite state_bind, trace_bind, GetNodeMap_run.
  cbn [result_of state_of trace_of fst snd app].
  destruct (cam_nodemap_ok c).
  - apply block_gated_try_except; [apply configure_camera_body_gated |].
    apply block_gated_bind; [apply block_gated_print | intros; apply block_gated_ret].
  - apply gated_step_refl. constructor.
Qed.

Lemma set_maximum_gate_closed nm name c :
  gate_ok (NodePtr nm name KInteger) c = false ->
  set_maximum nm name c = (Ok tt, c, [EvPrint (MsgDimensionNotAvailable name)]).
Proof.
  unfold gate_ok. intros Hgate. unfold set_maximum. sym_run.
  all: cbn [is_available is_writable] in *; simplify_eq/=; done.
Qed.

Lemma change_gain_gate_closed gain c :
  cam_nodemap_ok c = true ->
  gate_ok (NodePtr NodeMap "GainAuto" KEnumeration) c = false ->
  change_gain gain c = (Ok tt, c, [EvPrint MsgUnableGainAutoEnum]).
Proof.
  unfold gate_ok. intros Hnm Hgate. unfold change_gain.
  sym_run_with ltac:(rewrite Hnm).
  all: cbn [is_available is_writable] in *; simplify_eq/=; done.
Qed.

Lemma change_gain_reports gain c :
  result_of (change_gain gain c) = Ok tt ->
  gate_ok (NodePtr NodeMap "Gain" KFloat) c = false ->
  exists m, In (EvPrint m) (trace_of (change_gain gain c)) /\
    (m = MsgUnableGain \/ m = MsgUnableGainAutoEntry \/ m = MsgUnableGainAutoEnum).
Proof.
  intros Hok Hgate.
  destruct (change_gain_gated gain c) as (_ & _ & Hg). revert Hok Hg.
  unfold change_gain. sym_run.
  all: cbn [result_of trace_of fst snd]; intros Hok Hg; try discriminate Hok.
  all: try (eexists; split; [cbn; eauto 10 | eauto]; fail).
  all: exfalso; apply Forall_cons in Hg as [_ Hg]; apply Forall_cons in Hg as [Hg _];
    cbn [gated] in Hg; congruence.
Qed.

(** [C8] For every device and gain, in a run of [configure_camera]:
    (1) every node write that is called has the gate of its node open
    (available and writable); (2) no call changes the availability,
    readability or writability of any node, so the gate at the time of the
    call is the gate of the start; (3) every node whose gate is closed, and
    every transport-layer node, is afterwards what it was; (4)-(7) at each
    kind of write site a closed gate is reported by a print: the extents
    (width, height), the enumerations, auto-gain, and gain. *)
Theorem configuration_writes_are_gated (gain : pyval) (c : Camera) :
  let x := configure_camera gain c in
  (forall a, In a (trace_of x) -> gated c a) /\
  flags_kept c (state_of x) /\
  closed_kept c (state_of x) /\
  (forall name,
     gate_ok (NodePtr NodeMap name KInteger) c = false ->
     set_maximum NodeMap name c = (Ok tt, c, [EvPrint (MsgDimensionNotAvailable name)])) /\
  (forall setting choice,
     gate_ok (NodePtr NodeMap setting KEnumeration) c = false ->
     exists m, is_report m /\
       change_enum_setting setting choice c = (Ok tt, c, [EvPrint m])) /\
  (cam_nodemap_ok c = true ->
   gate_ok (NodePtr NodeMap "GainAuto" KEnumeration) c = false ->
   change_gain gain c = (Ok tt, c, [EvPrint MsgUnableGainAutoEnum])) /\
  (result_of (change_gain gain c) = Ok tt ->
   gate_ok (NodePtr NodeMap "Gain" KFloat) c = false ->
   exists m, In (EvPrint m) (trace_of (change_gain gain c)) /\
     (m = MsgUnableGain \/ m = MsgUnableGainAutoEntry \/ m = MsgUnableGainAutoEnum)).
Proof.
  cbv zeta. destruct (configure_camera_gated gain c) as (Hflags & Hclosed & Hgated).
  split; [| split; [done | split; [done |]]].
  - intros a Ha. rewrite List.Forall_forall in Hgated. by apply Hgated.
  - split; [intros name; apply set_maximum_gate_closed |].
    split; [intros setting choice; apply enum_gate_closed |].
    split; [apply change_gain_gate_closed | apply change_gain_reports].
Qed.

Lemma configuration_writes_are_gated_witness :
  gated Scenario6.device (EvSetValue (NodePtr NodeMap "Width" KInteger) (PInt 2048)).
Proof.
  apply (proj1 (configuration_writes_are_gated (PStr "12.5") Scenario6.device)).
  vm_compute. auto 20.
Defined.

(** ** The result of [configure_camera] *)

Lemma configure_camera_body_result nm gain c r :
  result_of (configure_camera_body nm gain c) = Ok r -> r = true.
Proof.
  unfold configure_camera_body.
  repeat (rewrite result_bind;
          lazymatch goal with
          | |- context [match result_of ?x with _ => _ end] =>
              destruct (result_of x); [| congruence]
          end).
  cbn. congruence.
Qed.

Lemma configure_camera_no_escape gain c :
  cam_nodemap_ok c = true ->
  (forall e, result_of (configure_camera_body NodeMap gain c) <> Raise e) ->
  result_of (configure_camera gain c) = Ok true.
Proof.
  intros Hnm Hbody. unfold configure_camera.
  rewrite result_bind, GetNodeMap_run, Hnm. cbn [result_of state_of fst snd].
  rewrite result_try_except.
  destruct (result_of (configure_camera_body NodeMap gain c)) as [r | e] eqn:Hr.
  - by rewrite (configure_camera_body_result _ _ _ _ Hr).
  - by destruct (Hbody e).
Qed.

Lemma configure_camera_all_skipped gain c :
  cam_nodemap_ok c = true ->
  (forall name k, is_available (NodePtr NodeMap name k) c = false) ->
  exists t, configure_camera gain c = (Ok true, c, t) /\
            Forall (fun a => is_print a = true) t.
Proof.
  intros Hnm Hoff.
  assert (Henum : forall setting choice, exists m,
            change_enum_setting setting choice c = (Ok tt, c, [EvPrint m])).
  { intros setting choice.
    destruct (enum_gate_closed setting choice c) as (m & _ & Hrun); [by rewrite Hoff |].
    by exists m. }
  destruct (Henum "PixelFormat" "Mono16") as (m1 & H1).
  destruct (Henum "TriggerMode" "Off") as (m2 & H2).
  destruct (Henum "TriggerSource" "Line3") as (m3 & H3).
  destruct (Henum "TriggerMode" "On") as (m4 & H4).
  destruct (Henum "SensorShutterMode" "GlobalReset") as (m5 & H5).
  destruct (Henum "AcquisitionMode" "SingleFrame") as (m6 & H6).
  pose proof (set_maximum_gate_closed NodeMap "Width" c) as Hw.
  pose proof (set_maximum_gate_closed NodeMap "Height" c) as Hh.
  pose proof (change_gain_gate_closed gain c Hnm) as Hg.
  unfold gate_ok in Hw, Hh, Hg.
  rewrite !Hoff in Hw, Hh, Hg. specialize (Hw eq_refl). specialize (Hh eq_refl).
  specialize (Hg eq_refl).
  eexists. split.
  - unfold configure_camera. rewrite run_bind, GetNodeMap_run, Hnm, andthen_ok.
    rewrite run_try_except. unfold configure_camera_body.
    rewrite run_bind, H1, andthen_ok.
    rewrite run_bind, Hw, andthen_ok.
    rewrite run_bind, Hh, andthen_ok.
    rewrite run_bind, H2, andthen_ok.
    rewrite run_bind, H3, andthen_ok.
    rewrite run_bind, H4, andthen_ok.
    rewrite run_bind, H5, andthen_ok.
    rewrite run_bind, Hg, andthen_ok.
    rewrite run_bind, H6, andthen_ok.
    rewrite ret_run. rewrite !prepend_tuple, catch_ok. cbn [app]. reflexivity.
  - repeat constructor.
Qed.

(** [C10] For every device whose node map can be opened and every gain:
    (1) whenever no exception escapes the body of [configure_camera], it
    returns [True]; (2) in particular when every node is unavailable, so
    that every setting is skipped, it returns [True], writes nothing (the
    trace is prints only) and leaves the device as it was. *)
Theorem configure_camera_reports_success (gain : pyval) (c : Camera) :
  cam_nodemap_ok c = true ->
  ((forall e, result_of (configure_camera_body NodeMap gain c) <> Raise e) ->
   result_of (configure_camera gain c) = Ok true) /\
  ((forall name k, is_available (NodePtr NodeMap name k) c = false) ->
   exists t, configure_camera gain c = (Ok true, c, t) /\
             Forall (fun a => is_print a = true) t).
Proof.
  intros Hnm. split.
  - by apply configure_camera_no_escape.
  - by apply configure_camera_all_skipped.
Qed.

Lemma configure_camera_reports_success_witness :
  exists t, configure_camera (PStr "12.5") Scenario10.bare_device
              = (Ok true, Scenario10.bare_device, t) /\
            Forall (fun a => is_print a = true) t.
Proof.
  apply (proj2 (configure_camera_reports_success (PStr "12.5") Scenario10.bare_device
                  eq_refl)).
  intros name k. unfold is_available, deref_node. cbn. by rewrite lookup_empty.
Defined.

(** ** Reading the identity and looking the gain up *)

Lemma print_device_info_pure (I : Camera -> Prop) nm :
  spec I (fun a => is_print a = true) (fun _ => False) (print_device_info nm).
Proof.
  unfold print_device_info. apply spec_bind; [spec_auto |]. intros _.
  apply spec_try_total; [| spec_auto].
  apply spec_bind; [spec_auto |]. intros ok.
  apply spec_bind; [| intros; apply spec_ret].
  destruct ok; [| spec_auto].
  apply spec_bind; [spec_auto |]. intros features.
  apply spec_for. intros feature _. spec_auto.
Qed.

Lemma print_device_info_run nm c :
  exists b t, print_device_info nm c = (Ok b, c, t) /\
              Forall (fun a => is_print a = true) t.
Proof.
  destruct (print_device_info_pure (eq c) nm c eq_refl) as (Hs & Ht & Hx).
  destruct (print_device_info nm c) as [[[b | e] c'] t]; cbn in *.
  - subst c'. by exists b, t.
  - destruct (Hx e eq_refl).
Qed.

Lemma GetValue_str_run p c :
  GetValue_str p c = (result_of (GetValue_str p c), c, []).
Proof. unfold GetValue_str. sym_run; done. Qed.

Lemma on_cam_at {A} (m : CamM A) i cams c r t :
  cams !! i = Some c -> m c = (r, c, t) ->
  on_cam i m cams = (r, cams, map (OnCam i) t).
Proof.
  intros Hc Hm. rewrite (on_cam_run _ _ _ _ Hc), Hm.
  cbn [result_of state_of trace_of fst snd]. by rewrite (list_insert_id _ _ _ Hc).
Qed.

(** The first steps of a pass of the configuration loop on the camera at
    index [i]: the device information is printed, the identity is read,
    and the lookup is made; the device is as it was. *)
Lemma configure_loop_lookup_raises lines i idxs result gain cams c serial e :
  cams !! i = Some c ->
  serial_number_of c = Ok serial ->
  Lookup.lookup_gain lines serial gain = Raise e ->
  exists t,
    Forall (fun a => is_print a = true) t /\
    configure_loop lines (i :: idxs) result gain cams =
      (Raise e, cams, map (OnCam i) t ++ [Out (MsgConfiguring serial)]).
Proof.
  intros Hc Hserial Hlookup.
  destruct (print_device_info_run TLDeviceNodeMap c) as (b & t & Hinfo & Ht).
  exists t. split; [done |]. cbn [configure_loop].
  rewrite run_bind, (on_cam_at GetTLDeviceNodeMap i cams c (Ok TLDeviceNodeMap) [] Hc),
    andthen_ok by done. cbv beta.
  rewrite run_bind, (on_cam_at _ i cams c _ _ Hc Hinfo), andthen_ok. cbv beta.
  rewrite run_bind.
  rewrite (on_cam_at _ i cams c (Ok serial) [] Hc).
  2: { unfold CStringPtr, GetNode. cbn [fst snd]. rewrite GetValue_str_run.
       unfold serial_number_of in Hserial. by rewrite Hserial. }
  rewrite andthen_ok. cbv beta.
  unfold out. rewrite run_bind, emit_run, andthen_ok. cbv beta.
  rewrite run_bind, lift_outcome_run, Hlookup, andthen_raise.
  rewrite !prepend_tuple. cbn [map app]. reflexivity.
Qed.

Lemma configure_loop_unbound lines i idxs result cams c serial :
  cams !! i = Some c ->
  serial_number_of c = Ok serial ->
  Lookup.lookup_gain lines serial None = Ok None ->
  cam_init_ok c = true ->
  cam_nodemap_ok c = true ->
  exists t,
    Forall (fun a => is_print a = true) t /\
    configure_loop lines (i :: idxs) result None cams =
      (Raise UnboundLocalError, cams,
       map (OnCam i) t ++
       [Out (MsgConfiguring serial); Out (MsgGainUndefined serial); OnCam i EvInit]).
Proof.
  intros Hc Hserial Hlookup Hinit Hnm.
  destruct (print_device_info_run TLDeviceNodeMap c) as (b & t & Hinfo & Ht).
  exists t. split; [done |]. cbn [configure_loop].
  rewrite run_bind, (on_cam_at GetTLDeviceNodeMap i cams c (Ok TLDeviceNodeMap) [] Hc),
    andthen_ok by done. cbv beta.
  rewrite run_bind, (on_cam_at _ i cams c _ _ Hc Hinfo), andthen_ok. cbv beta.
  rewrite run_bind.
  rewrite (on_cam_at _ i cams c (Ok serial) [] Hc).
  2: { unfold CStringPtr, GetNode. cbn [fst snd]. rewrite GetValue_str_run.
       unfold serial_number_of in Hserial. by rewrite Hserial. }
  rewrite andthen_ok. cbv beta.
  unfold out. rewrite run_bind, emit_run, andthen_ok. cbv beta.
  rewrite run_bind, lift_outcome_run, Hlookup, andthen_ok. cbv beta iota.
  rewrite run_bind, emit_run, andthen_ok. cbv beta.
  rewrite run_bind.
  rewrite (on_cam_at Init i cams c (Ok tt) [EvInit] Hc).
  2: { unfold Init. by rewrite lifecycle_run, Hinit. }
  rewrite andthen_ok. cbv beta. rewrite run_bind.
  rewrite (on_cam_at GetNodeMap i cams c (Ok NodeMap) [] Hc).
  2: { by rewrite GetNodeMap_run, Hnm. }
  rewrite andthen_ok. cbv beta iota. rewrite run_bind, raise_run, andthen_raise.
  rewrite !prepend_tuple. cbn [map app]. reflexivity.
Qed.

Lemma prints_are_not_writes i k t :
  Forall (fun a => is_print a = true) t ->
  Forall (fun e => ev_write k e = false) (map (OnCam i) t).
Proof.
  intros Ht. apply List.Forall_map. eapply Forall_impl; [exact Ht |].
  intros [] Ha; cbn in *; try done; by rewrite andb_false_r.
Qed.

(** [C3] The code does not do what the claim says.  For the first device
    of a session whose identity matches no block of the configuration
    text ([gain] is still unbound after the lookup), [capture] prints the
    warning, initializes the device and then raises [UnboundLocalError]
    at the use of [gain] in the call of [configure_camera]: the exception
    is not caught, no node of any device is written, and no configuration
    of the device takes place. *)
Theorem undefined_gain_is_fatal (env : Env) (c : Camera) (rest : list Camera)
    (text serial : string) :
  input_tsv env = Some text ->
  serial_number_of c = Ok serial ->
  Lookup.lookup_gain (PyStr.readlines text) serial None = Ok None ->
  cam_init_ok c = true ->
  cam_nodemap_ok c = true ->
  let x := capture env (c :: rest) in
  result_of x = Raise UnboundLocalError /\
  In (Out (MsgGainUndefined serial)) (trace_of x) /\
  Forall (fun e => is_cam_write e = false) (trace_of x) /\
  state_of x = c :: rest.
Proof.
  intros Htext Hserial Hlookup Hinit Hnm. cbv zeta.
  rewrite (capture_run env (c :: rest) text Htext). cbv zeta.
  cbn [length seq].
  destruct (configure_loop_unbound (PyStr.readlines text) 0 (seq 1 (length rest))
              true (c :: rest) c serial eq_refl Hserial Hlookup Hinit Hnm)
    as (t & Ht & ->).
  cbn [result_of state_of trace_of fst snd handled]. repeat split.
  - apply in_or_app. right. right. by left.
  - apply Forall_app. split.
    + apply List.Forall_map. eapply Forall_impl; [exact Ht |]. by intros [].
    + by repeat constructor.
Qed.

(** ** Malformed configuration blocks *)

Lemma split_nonempty sep s : PyStr.split sep s <> [].
Proof.
  induction s as [| ch s IH]; cbn; [done |].
  destruct (Ascii.eqb ch sep); [done |]. by destruct (PyStr.split sep s).
Qed.

Lemma lookup_step_raises lines serial i line gain e :
  Lookup.lookup_step lines serial i line gain = Raise e ->
  e = ValueError \/ e = IndexError.
Proof.
  unfold Lookup.lookup_step, Lookup.outcome_bind, PyStr.index.
  repeat case_match; intros; simplify_eq; auto.
Qed.

Lemma lookup_step_malformed lines serial i line gain :
  lines !! i = Some line ->
  malformed_at lines serial i ->
  exists e, Lookup.lookup_step lines serial i line gain = Raise e.
Proof.
  intros Hline (line' & fields & Hline' & Hsplit & Hnext).
  rewrite Hline in Hline'. injection Hline' as <-.
  unfold Lookup.lookup_step, Lookup.outcome_bind, PyStr.index.
  rewrite Hsplit. cbn [lookup list_lookup].
  cbn. rewrite String.eqb_refl.
  destruct (lines !! (i + 1)) as [next |]; [| by eexists].
  destruct (PyStr.split PyStr.TAB next) as [| key rest] eqn:Hs.
  { by destruct (split_nonempty PyStr.TAB next). }
  cbn in Hnext |- *. destruct (String.eqb_spec key "Gain"); [done | by eexists].
Qed.

Lemma lookup_from_malformed lines serial : forall rest i0 gain i,
  (forall j l, rest !! j = Some l -> lines !! (i0 + j) = Some l) ->
  i0 <= i -> i < i0 + length rest ->
  malformed_at lines serial i ->
  exists e, Lookup.lookup_from lines serial i0 rest gain = Raise e /\
            (e = ValueError \/ e = IndexError).
Proof.
  induction rest as [| line rest IH]; intros i0 gain i Hsuffix Hle Hlt Hbad.
  { cbn in Hlt. lia. }
  cbn [Lookup.lookup_from]. unfold Lookup.outcome_bind at 1.
  destruct (Lookup.lookup_step lines serial i0 line gain) as [gain' | e] eqn:Hstep.
  - destruct (decide (i = i0)) as [-> | Hne].
    + destruct (lookup_step_malformed lines serial i0 line gain) as [e He]; [| done |].
      * specialize (Hsuffix 0 line eq_refl). by rewrite Nat.add_0_r in Hsuffix.
      * congruence.
    + apply (IH (S i0) gain' i); [| lia | cbn in Hlt; lia | done].
      intros j l Hj. specialize (Hsuffix (S j) l Hj).
      by replace (S i0 + j) with (i0 + S j) by lia.
  - exists e. split; [done |]. by eapply lookup_step_raises.
Qed.

Lemma lookup_gain_malformed lines serial gain :
  malformed_block lines serial ->
  exists e, Lookup.lookup_gain lines serial gain = Raise e /\
            (e = ValueError \/ e = IndexError).
Proof.
  intros [i Hbad]. unfold Lookup.lookup_gain.
  apply (lookup_from_malformed lines serial lines 0 gain i); [done | lia | | done].
  destruct Hbad as (line & _ & Hline & _). cbn. by eapply lookup_lt_Some.
Qed.

Lemma spec_on_cam_other {A} k ck i (m : CamM A) :
  i <> k ->
  spec (fun cams => cams !! k = Some ck) (fun e => ev_write k e = false)
    (fun _ => True) (on_cam i m).
Proof.
  intros Hne cams Hk. unfold on_cam. destruct (cams !! i) as [c |]; [| by repeat split].
  destruct (m c) as [[r c'] t]. cbn. repeat split.
  - by rewrite list_lookup_insert_ne.
  - apply List.Forall_map. apply Forall_forall. intros a _. cbn.
    destruct (Nat.eqb_spec k i); [congruence | done].
Qed.

(** A session in which the block of the device at index [k] is malformed
    never leaves the configuration loop by its end, and writes no node of
    that device. *)
Lemma configure_loop_malformed lines k ck serial :
  serial_number_of ck = Ok serial ->
  malformed_block lines serial ->
  forall idxs result gain cams,
    In k idxs -> cams !! k = Some ck ->
    let x := configure_loop lines idxs result gain cams in
    (forall r g, result_of x <> Ok (Fallthrough r g)) /\
    Forall (fun e => ev_write k e = false) (trace_of x).
Proof.
  intros Hserial Hbad. induction idxs as [| i idxs IH]; intros result gain cams Hin Hk;
    [done |].
  destruct (decide (i = k)) as [-> | Hne].
  - destruct (lookup_gain_malformed lines serial gain Hbad) as (e & He & _).
    destruct (configure_loop_lookup_raises lines k idxs result gain cams ck serial e
                Hk Hserial He) as (t & Ht & Hrun).
    cbv zeta. rewrite Hrun. cbn [result_of trace_of fst snd]. split; [done |].
    apply Forall_app. split; [by apply prints_are_not_writes | by repeat constructor].
  - destruct Hin as [-> | Hin]; [done |].
    cbv zeta. cbn [configure_loop].
    set (I := fun cams : list Camera => cams !! k = Some ck).
    set (P := fun e : event => ev_write k e = false).
    assert (Hpost : forall (A : Type) (m : SessionM A) (kont : A -> SessionM loop_exit) s,
              I s ->
              spec I P (fun _ => True) m ->
              (forall a s', I s' ->
                 (forall r g, result_of (kont a s') <> Ok (Fallthrough r g)) /\
                 Forall P (trace_of (kont a s'))) ->
              (forall r g, result_of (bind m kont s) <> Ok (Fallthrough r g)) /\
              Forall P (trace_of (bind m kont s))).
    { intros A m kont s Hs Hm Hkont. destruct (Hm s Hs) as (Hs' & Ht & _).
      rewrite result_bind, trace_bind. destruct (result_of (m s)) as [a | e].
      - destruct (Hkont a _ Hs') as [Hr Ht']. split; [done | by apply Forall_app].
      - split; [done |]. by rewrite app_nil_r. }
    repeat (apply Hpost; [done | first [by apply spec_on_cam_other | session_auto; done] |];
            intros ? ? ?).
    match goal with |- context [negb ?b] => destruct b end; cbn [negb].
    + by apply IH.
    + split; [done | constructor].
Qed.

Lemma handled_trace P x :
  Forall P (trace_of x) -> P (Out MsgError) -> Forall P (trace_of (handled x)).
Proof.
  intros Ht Hp. destruct x as [[[b | []] s] t]; cbn in *; try done.
  apply Forall_app. split; [done | by repeat constructor].
Qed.

(** [C7, as amended] When the block of the device at index [k] is
    malformed (its serial-number line is not followed by a [Gain] line):
    the lookup for that device raises [ValueError] or [IndexError]
    whatever [gain] is bound to; [capture] does not handle it per device:
    no node of that device is written, [capture] never returns [True],
    and no device starts acquisition or retrieves a frame. *)
Theorem malformed_config_aborts_session (env : Env) (cams : list Camera)
    (text serial : string) (k : nat) (ck : Camera) :
  input_tsv env = Some text ->
  cams !! k = Some ck ->
  serial_number_of ck = Ok serial ->
  malformed_block (PyStr.readlines text) serial ->
  let x := capture env cams in
  (forall gain, exists e,
     Lookup.lookup_gain (PyStr.readlines text) serial gain = Raise e /\
     (e = ValueError \/ e = IndexError)) /\
  result_of x <> Ok true /\
  Forall (fun e => ev_write k e = false) (trace_of x) /\
  no_begin (trace_of x) /\
  no_get (trace_of x).
Proof.
  intros Htext Hk Hserial Hbad. cbv zeta.
  split; [intros gain; by apply lookup_gain_malformed |].
  rewrite (capture_run env cams text Htext). cbv zeta.
  assert (Hin : In k (seq 0 (length cams))).
  { apply in_seq. apply lookup_lt_Some in Hk. lia. }
  destruct (configure_loop_malformed (PyStr.readlines text) k ck serial Hserial Hbad
              (seq 0 (length cams)) true None cams Hin Hk) as [Hexit Hwrites].
  destruct (configure_loop_spec cams (PyStr.readlines text) (seq 0 (length cams))
              true None cams (same_fleet_refl cams)) as (_ & Hsetup & _).
  pose proof (configure_loop_returned (PyStr.readlines text) (seq 0 (length cams))
                true None cams) as Hret.
  destruct (configure_loop _ _ _ _ cams) as [[[[v | r g] | e] cams1] tcfg];
    cbn [result_of state_of trace_of fst snd] in *.
  - rewrite (Hret v eq_refl). cbn. repeat split; try done.
    + by apply setup_trace_no_begin.
    + by apply setup_trace_no_get.
  - by destruct (Hexit r g).
  - repeat split.
    + destruct e; cbn; congruence.
    + by apply handled_trace.
    + apply handled_trace; [by apply setup_trace_no_begin | done].
    + apply handled_trace; [by apply setup_trace_no_get | done].
Qed.


Lemma undefined_gain_is_fatal_witness :
  result_of (capture Scenario3.environment [Scenario3.device]) = Raise UnboundLocalError.
Proof.
  apply (undefined_gain_is_fatal Scenario3.environment Scenario3.device []
           Scenario.padded_config "XYZ999"); reflexivity.
Defined.

Lemma scenario7_malformed :
  malformed_block (PyStr.readlines Scenario7.text) "ABC123".
Proof.
  exists 0. eexists _, _. split; [reflexivity |]. split; [reflexivity |].
  vm_compute. discriminate.
Qed.

Lemma malformed_config_aborts_session_witness :
  result_of (capture Scenario7.environment Scenario7.cameras) <> Ok true.
Proof.
  apply (malformed_config_aborts_session Scenario7.environment Scenario7.cameras
           Scenario7.text "ABC123" 0 Scenario7.device_a).
  - reflexivity.
  - reflexivity.
  - reflexivity.
  - exists 0. eexists _, _. split; [reflexivity |]. split; [reflexivity |].
    vm_compute. discriminate.
Defined.

(** [C7, counterexample] Two devices, the block of the first malformed and
    the block of the second well formed: the session ends with an uncaught
    [ValueError], and the second device neither starts acquisition nor
    retrieves a frame. *)
Lemma malformed_config_counterexample :
  malformed_block (PyStr.readlines Scenario7.text) "ABC123" /\
  result_of (main Scenario7.environment Scenario7.cameras) = Raise ValueError /\
  ~ others_proceed 0 2 (trace_of (main Scenario7.environment Scenario7.cameras)).
Proof.
  split; [apply scenario7_malformed |]. split; [vm_compute; reflexivity |].
  intros H. destruct (H 1) as [Hbegin _]; [lia | lia |].
  vm_compute in Hbegin. repeat destruct Hbegin as [Hbegin | Hbegin]; done.
Qed.

(** * More of [main.py]: the gain lookup *)

Lemma lookup_step_passes_by lines serial i line gain :
  passes_by serial line = true ->
  Lookup.lookup_step lines serial i line gain = Ok gain.
Proof.
  unfold passes_by, Lookup.lookup_step, Lookup.outcome_bind, PyStr.index.
  destruct (PyStr.split PyStr.TAB line) as [| key rest] eqn:Hs.
  { by destruct (split_nonempty PyStr.TAB line). }
  cbn. destruct (String.eqb key "DeviceSerialNumber"); [| done].
  destruct rest as [| value rest]; [done |]. cbn.
  by destruct (String.eqb value serial).
Qed.

Lemma lookup_from_passes_by lines serial : forall rest i0 gain,
  forallb (passes_by serial) rest = true ->
  Lookup.lookup_from lines serial i0 rest gain = Ok gain.
Proof.
  induction rest as [| line rest IH]; intros i0 gain Hall; [done |].
  cbn in Hall. apply andb_prop in Hall as [Hline Hrest].
  cbn [Lookup.lookup_from]. rewrite (lookup_step_passes_by _ _ _ _ _ Hline). cbn.
  by apply IH.
Qed.

(** [X1] When no line of the configuration is a serial-number line for
    the device (the file may be empty), the lookup raises nothing and
    leaves [gain] as it found it: unbound if it was unbound, and bound to
    the previous device's value if an earlier device bound it. *)
Theorem lookup_without_block (lines : list string) (serial : string)
    (gain : option string) :
  forallb (passes_by serial) lines = true ->
  Lookup.lookup_gain lines serial gain = Ok gain.
Proof. apply lookup_from_passes_by. Qed.

Lemma lookup_without_block_witness :
  Lookup.lookup_gain (PyStr.readlines Scenario.padded_config) "XYZ999" (Some "12.5")
    = Ok (Some "12.5").
Proof.
  apply (lookup_without_block (PyStr.readlines Scenario.padded_config) "XYZ999"
           (Some "12.5")).
  reflexivity.
Defined.

Lemma append_nil (s : string) : "" +:+ s = s.
Proof. reflexivity. Qed.

Lemma append_cons (c : ascii) (s t : string) : String c s +:+ t = String c (s +:+ t).
Proof. reflexivity. Qed.

Lemma split_no_sep sep s : contains sep s = false -> PyStr.split sep s = [s].
Proof.
  induction s as [| c s IH]; [done |]. cbn [contains PyStr.split].
  destruct (Ascii.eqb c sep); [done |]. cbn [orb]. intros Hs. by rewrite (IH Hs).
Qed.

Lemma split_app_sep sep s1 s2 :
  contains sep s1 = false ->
  PyStr.split sep (s1 +:+ String sep s2) = s1 :: PyStr.split sep s2.
Proof.
  induction s1 as [| c s1 IH];
    rewrite ?append_nil, ?append_cons; cbn [contains PyStr.split].
  - intros _. by rewrite Ascii.eqb_refl.
  - destruct (Ascii.eqb c sep); [done |]. cbn [orb]. intros Hs. by rewrite (IH Hs).
Qed.

Lemma contains_app ch s1 s2 :
  contains ch (s1 +:+ s2) = contains ch s1 || contains ch s2.
Proof.
  induction s1 as [| c s1 IH]; [done |].
  rewrite append_cons. cbn [contains]. rewrite IH. by rewrite orb_assoc.
Qed.

Lemma two_column_split key value :
  contains PyStr.TAB key = false ->
  contains PyStr.TAB value = false ->
  PyStr.split PyStr.TAB (key +:+ PyStr.tab +:+ value +:+ PyStr.nl)
    = [key; value +:+ PyStr.nl].
Proof.
  intros Hk Hv. unfold PyStr.tab. rewrite append_cons, append_nil.
  rewrite (split_app_sep _ _ _ Hk). f_equal. apply split_no_sep.
  rewrite contains_app, Hv. done.
Qed.

Lemma two_column_passes_by serial line :
  contains PyStr.NL serial = false -> two_column line -> passes_by serial line = true.
Proof.
  intros Hserial (key & value & -> & Hk & Hv). unfold passes_by.
  rewrite (two_column_split _ _ Hk Hv).
  destruct (String.eqb key "DeviceSerialNumber"); [| done].
  apply negb_true_iff. apply String.eqb_neq. intros Heq.
  rewrite <- Heq, contains_app in Hserial. cbn in Hserial.
  by rewrite orb_true_r in Hserial.
Qed.

(** [X2] On a configuration file in the two-column form its own [Gain]
    handling expects (every line [KEY<tab>VALUE<newline>]), the lookup
    matches no device whose identity has no newline in it: the value
    compared with the identity still ends in the newline, so [gain] is
    left as it was, for every such file and identity. *)
Theorem two_column_file_never_matches (lines : list string) (serial : string)
    (gain : option string) :
  contains PyStr.NL serial = false ->
  Forall two_column lines ->
  Lookup.lookup_gain lines serial gain = Ok gain.
Proof.
  intros Hserial Hlines. apply lookup_from_passes_by.
  apply forallb_forall. intros line Hin. apply two_column_passes_by; [done |].
  rewrite List.Forall_forall in Hlines. by apply Hlines.
Qed.

Lemma two_column_file_never_matches_witness :
  Lookup.lookup_gain (PyStr.readlines Scenario.spec_config) "ABC123" None = Ok None.
Proof.
  apply (two_column_file_never_matches (PyStr.readlines Scenario.spec_config) "ABC123" None).
  - reflexivity.
  - repeat constructor.
    + exists "DeviceSerialNumber", "ABC123". by repeat split.
    + exists "Gain", "12.5". by repeat split.
Defined.

Lemma lookup_from_app lines serial : forall xs ys i0 gain,
  Lookup.lookup_from lines serial i0 (xs ++ ys) gain
    = Lookup.outcome_bind (Lookup.lookup_from lines serial i0 xs gain)
        (fun gain' => Lookup.lookup_from lines serial (i0 + length xs) ys gain').
Proof.
  induction xs as [| x xs IH]; intros ys i0 gain.
  - cbn. by rewrite Nat.add_0_r.
  - cbn [app Lookup.lookup_from length].
    destruct (Lookup.lookup_step lines serial i0 x gain) as [gain' | e]; [| done].
    cbn [Lookup.outcome_bind]. rewrite IH. by rewrite Nat.add_succ_r.
Qed.

Lemma lookup_step_block lines serial i value line gain :
  block_at lines serial i value ->
  lines !! i = Some line ->
  Lookup.lookup_step lines serial i line gain = Ok (Some (PyStr.drop_last value)).
Proof.
  intros (line' & fields & next & fields' & Hi & Hsplit & Hnext & Hsplit') Hline.
  simplify_eq. unfold Lookup.lookup_step, PyStr.index.
  rewrite Hsplit. cbn. rewrite String.eqb_refl. rewrite Hnext. cbn.
  by rewrite Hsplit'.
Qed.

Lemma lookup_gain_at lines serial i line gain :
  lines !! i = Some line ->
  Lookup.lookup_gain lines serial gain
    = Lookup.outcome_bind (Lookup.lookup_from lines serial 0 (take i lines) gain)
        (fun gain' =>
         Lookup.outcome_bind (Lookup.lookup_step lines serial i line gain')
           (fun gain'' =>
            Lookup.lookup_from lines serial (S i) (drop (S i) lines) gain'')).
Proof.
  intros Hline. unfold Lookup.lookup_gain.
  rewrite <- (take_drop_middle lines i line Hline) at 2.
  rewrite lookup_from_app. cbn [Lookup.lookup_from].
  assert (length (take i lines) = i) as ->; [| done].
  rewrite length_take. apply lookup_lt_Some in Hline. lia.
Qed.

(** [X3] The last block wins.  When lines [i] and [i + 1] are a block for
    the device and no later line is a serial-number line for it, a lookup
    that returns binds [gain] to that block's value without its last
    character, whatever earlier blocks for the same device said and
    whatever [gain] was bound to before. *)
Theorem lookup_last_block_wins (lines : list string) (serial : string)
    (gain result : option string) (i : nat) (value : string) :
  block_at lines serial i value ->
  forallb (passes_by serial) (drop (S i) lines) = true ->
  Lookup.lookup_gain lines serial gain = Ok result ->
  result = Some (PyStr.drop_last value).
Proof.
  intros Hblock Hlater.
  destruct Hblock as (line & fields & next & fields' & Hi & Hrest).
  assert (block_at lines serial i value) as Hblock by (by exists line, fields, next, fields').
  rewrite (lookup_gain_at lines serial i line gain Hi).
  destruct (Lookup.lookup_from lines serial 0 (take i lines) gain) as [gain' | e];
    [| done].
  cbn [Lookup.outcome_bind].
  rewrite (lookup_step_block lines serial i value line gain' Hblock Hi).
  cbn [Lookup.outcome_bind].
  rewrite (lookup_from_passes_by lines serial _ _ _ Hlater). congruence.
Qed.

Lemma lookup_step_raise lines serial i line gain e :
  lines !! i = Some line ->
  Lookup.lookup_step lines serial i line gain = Raise e ->
  (e = ValueError /\ malformed_at lines serial i) \/ e = IndexError.
Proof.
  intros Hline. unfold Lookup.lookup_step, Lookup.outcome_bind, PyStr.index.
  destruct (PyStr.split PyStr.TAB line) as [| key rest] eqn:Hsplit; cbn.
  { intros [= <-]. by right. }
  destruct (String.eqb key "DeviceSerialNumber") eqn:Hkey; [| done].
  apply String.eqb_eq in Hkey as ->.
  destruct rest as [| value rest]; cbn.
  { intros [= <-]. by right. }
  destruct (String.eqb value serial) eqn:Hvalue; [| done].
  apply String.eqb_eq in Hvalue as ->.
  destruct (lines !! (i + 1)) as [next |] eqn:Hnext; cbn.
  2: { intros [= <-]. by right. }
  destruct (PyStr.split PyStr.TAB next) as [| next_key next_rest] eqn:Hsplit'; cbn.
  { intros [= <-]. by right. }
  destruct (String.eqb next_key "Gain") eqn:Hgain.
  - destruct next_rest; cbn; [| done]. intros [= <-]. by right.
  - intros [= <-]. left. split; [done |].
    exists line, rest. repeat split; [done | done |].
    rewrite Hnext, Hsplit'. cbn. by apply String.eqb_neq.
Qed.

Lemma lookup_from_raise lines serial e : forall rest i0 gain,
  (forall j line, rest !! j = Some line -> lines !! (i0 + j) = Some line) ->
  Lookup.lookup_from lines serial i0 rest gain = Raise e ->
  (e = ValueError /\ malformed_block lines serial) \/ e = IndexError.
Proof.
  induction rest as [| line rest IH]; intros i0 gain Hsuffix; [done |].
  cbn [Lookup.lookup_from].
  destruct (Lookup.lookup_step lines serial i0 line gain) as [gain' | e'] eqn:Hstep;
    cbn [Lookup.outcome_bind].
  - apply IH. intros j l Hj. specialize (Hsuffix (S j) l Hj).
    by rewrite Nat.add_succ_r in Hsuffix.
  - intros [= ->]. 
    assert (lines !! i0 = Some line) as Hline.
    { specialize (Hsuffix 0 line eq_refl). by rewrite Nat.add_0_r in Hsuffix. }
    destruct (lookup_step_raise _ _ _ _ _ _ Hline Hstep) as [[-> Hm] | ->];
      [left; split; [done | by exists i0] | by right].
Qed.

(** [X5] The lookup raises nothing but [ValueError] and [IndexError], and
    [ValueError] only when a serial-number line of the device looked up is
    followed by a line whose key is not [Gain]: a malformed block of
    another device raises no [ValueError] here. *)
Theorem lookup_raises_only (lines : list string) (serial : string)
    (gain : option string) (e : exn) :
  Lookup.lookup_gain lines serial gain = Raise e ->
  (e = ValueError /\ malformed_block lines serial) \/ e = IndexError.
Proof. apply lookup_from_raise. intros j line Hj. exact Hj. Qed.

Lemma drop_last_snoc (v : string) (ch : ascii) :
  PyStr.drop_last (v +:+ String ch "") = v.
Proof.
  induction v as [| c v IH]; [done |]. rewrite append_cons.
  cbn [PyStr.drop_last]. rewrite IH.
  destruct v; reflexivity.
Qed.

(** [X4] The lookup drops the last character of the [Gain] value,
    whatever it is.  For a device with one block whose [Gain] line is
    [Gain<tab>v] followed by one more character, the lookup binds [gain]
    to [v]: the character dropped is the newline when the line has one,
    and the last character of the value itself when the line is the last
    of a file that does not end in a newline. *)
Theorem lookup_drops_last_character (lines : list string) (serial : string)
    (gain : option string) (i : nat) (line : string) (fields : list string)
    (v : string) (ch : ascii) :
  lines !! i = Some line ->
  PyStr.split PyStr.TAB line = "DeviceSerialNumber" :: serial :: fields ->
  lines !! (i + 1) = Some ("Gain" +:+ PyStr.tab +:+ v +:+ String ch "") ->
  contains PyStr.TAB (v +:+ String ch "") = false ->
  forallb (passes_by serial) (take i lines) = true ->
  forallb (passes_by serial) (drop (S i) lines) = true ->
  Lookup.lookup_gain lines serial gain = Ok (Some v).
Proof.
  intros Hline Hsplit Hnext Hv Hearlier Hlater.
  assert (Hblock : block_at lines serial i (v +:+ String ch "")).
  { exists line, fields, ("Gain" +:+ PyStr.tab +:+ v +:+ String ch ""), [].
    repeat split; [done | done | done |].
    change (PyStr.tab +:+ (v +:+ String ch ""))
      with (String PyStr.TAB (v +:+ String ch "")).
    rewrite (split_app_sep PyStr.TAB "Gain") by done.
    by rewrite (split_no_sep _ _ Hv). }
  rewrite (lookup_gain_at lines serial i line gain Hline).
  rewrite (lookup_from_passes_by lines serial _ _ _ Hearlier).
  cbn [Lookup.outcome_bind].
  rewrite (lookup_step_block lines serial i _ line gain Hblock Hline).
  cbn [Lookup.outcome_bind].
  rewrite (lookup_from_passes_by lines serial _ _ _ Hlater).
  by rewrite drop_last_snoc.
Qed.

(** * More of [main.py]: file names *)

Lemma append_length (s t : string) :
  String.length (s +:+ t) = String.length s + String.length t.
Proof.
  induction s as [| c s IH]; [done |]. rewrite append_cons. cbn. by rewrite IH.
Qed.

Lemma append_inv_l (p s t : string) : p +:+ s = p +:+ t -> s = t.
Proof.
  induction p as [| c p IH]; [done |]. rewrite !append_cons. intros [= H]. by apply IH.
Qed.

Lemma append_inv_r (s t q : string) : s +:+ q = t +:+ q -> s = t.
Proof.
  revert t. induction s as [| c s IH]; intros [| d t] H.
  - done.
  - apply (f_equal String.length) in H. rewrite !append_length in H. cbn in H. lia.
  - apply (f_equal String.length) in H. rewrite !append_length in H. cbn in H. lia.
  - rewrite !append_cons in H. injection H as -> H. f_equal. by apply IH.
Qed.

Lemma append_assoc (s t u : string) : (s +:+ t) +:+ u = s +:+ (t +:+ u).
Proof.
  induction s as [| c s IH]; [done |]. rewrite !append_cons. by rewrite IH.
Qed.

Lemma to_uint_nonnil (n : nat) : Nat.to_uint n <> Decimal.Nil.
Proof.
  intros H. pose proof (DecimalNat.Unsigned.to_of (Nat.to_uint n)) as Hn.
  rewrite DecimalNat.Unsigned.of_to, H in Hn. discriminate Hn.
Qed.

Lemma show_nat_inj (i j : nat) : show_nat i = show_nat j -> i = j.
Proof.
  unfold show_nat. intros H.
  apply (f_equal NilZero.uint_of_string) in H.
  rewrite !NilZero.usu in H by apply to_uint_nonnil.
  injection H as H. by apply DecimalNat.Unsigned.to_uint_inj.
Qed.

(** [X7] Two frames of one device never share a file name: for a fixed
    identity (empty or not) the name determines the frame index. *)
Theorem filename_distinct_frames (serial : string) (i j : nat) :
  filename serial i = filename serial j -> i = j.
Proof.
  unfold filename. destruct (String.eqb serial ""); intros H.
  - apply append_inv_l, append_inv_r in H. by apply show_nat_inj.
  - apply append_inv_l, append_inv_l, append_inv_l, append_inv_r in H.
    by apply show_nat_inj.
Qed.

Lemma filename_distinct_frames_witness :
  filename "ABC123" 0 = "RatKingReigns-ABC123-0.png" /\ 0 = 0.
Proof.
  split; [reflexivity |].
  apply (filename_distinct_frames "ABC123" 0 0). reflexivity.
Defined.

(** [X8] Two devices never share the file name of a frame: at the same
    frame index the name determines the identity, also when one of the
    two identities could not be read and is empty. *)
Theorem filename_distinct_devices (serial serial' : string) (i : nat) :
  filename serial i = filename serial' i -> serial = serial'.
Proof.
  unfold filename.
  destruct (String.eqb serial "") eqn:Hs, (String.eqb serial' "") eqn:Hs'; intros H.
  - apply String.eqb_eq in Hs, Hs'. congruence.
  - apply append_inv_l in H.
    apply (f_equal String.length) in H. rewrite !append_length in H. cbn in H. lia.
  - apply append_inv_l in H.
    apply (f_equal String.length) in H. rewrite !append_length in H. cbn in H. lia.
  - apply append_inv_l in H.
    rewrite <- !append_assoc in H. by apply append_inv_r, append_inv_r, append_inv_r in H.
Qed.

Lemma filename_distinct_devices_witness :
  filename "" 0 = "RatKingReigns-0.png" /\ "" = "".
Proof.
  split; [reflexivity |].
  apply (filename_distinct_devices "" "" 0). reflexivity.
Defined.

(** * More of [main.py]: the configuration functions *)

(** [X9] [change_enum_setting] never raises, whatever the device and the
    driver do: a null pointer, a faulting node and a node map that cannot
    be opened all end in its own [except] clause, and the call returns.
    Its only actions on the device are node writes and prints. *)
Theorem change_enum_setting_never_raises (setting choice : string) (c : Camera) :
  exists c' t,
    change_enum_setting setting choice c = (Ok tt, c', t) /\
    Forall (fun a => is_config_action a = true) t.
Proof.
  destruct (change_enum_setting_spec c setting choice c (same_flags_refl c))
    as (_ & Htrace & Hraise).
  destruct (change_enum_setting setting choice c) as [[[[] | e] c'] t] eqn:Hrun.
  - by exists c', t.
  - destruct (Hraise e eq_refl).
Qed.

(** [X13] [print_device_info] only reads: it never raises, leaves the
    device exactly as it was, and does nothing but print.  It returns
    [False] only after printing the error of a driver exception. *)
Theorem print_device_info_reads_only (nm : nodemap) (c : Camera) :
  exists b t,
    print_device_info nm c = (Ok b, c, t) /\
    Forall (fun a => is_print a = true) t /\
    (b = false -> In (EvPrint MsgError) t).
Proof.
  destruct (print_device_info_run nm c) as (b & t & Hrun & Hprints).
  exists b, t. repeat split; [done | done |].
  intros ->. revert Hrun. unfold print_device_info.
  rewrite run_bind. unfold print at 1. rewrite emit_run, andthen_ok, run_try_except.
  match goal with |- context [catch _ ?x] => destruct x as [[[b' | e] c1] t1] eqn:Hbody end.
  - rewrite catch_ok, prepend_tuple. intros [= -> <- <-].
    apply (f_equal result_of) in Hbody. revert Hbody.
    rewrite result_bind.
    destruct (result_of (py_and _ _ _)) as [ok |]; [| done].
    rewrite result_bind.
    match goal with |- context [match result_of ?x with _ => _ end] =>
      by destruct (result_of x) end.
  - destruct e; rewrite ?catch_spin; unfold catch; rewrite ?prepend_tuple.
    all: try (intros [= ]; fail).
    unfold print. rewrite run_bind, emit_run, andthen_ok, ret_run, !prepend_tuple.
    intros [= <- <-]. apply in_cons, in_or_app. right. by left.
Qed.

(** [X12] The only exception that leaves [configure_camera] is the one of
    [cam.GetNodeMap()] at its first line, which is outside the [try]: then
    nothing has been printed or written.  Once the node map is open the
    call returns a boolean, whatever fails afterwards. *)
Theorem configure_camera_escapes_only_at_node_map (gain : pyval) (c : Camera) :
  (cam_nodemap_ok c = false ->
   configure_camera gain c = (Raise SpinnakerException, c, [])) /\
  (cam_nodemap_ok c = true ->
   exists b, result_of (configure_camera gain c) = Ok b) /\
  (forall e, result_of (configure_camera gain c) = Raise e ->
     e = SpinnakerException /\ cam_nodemap_ok c = false).
Proof.
  assert (Hopen : cam_nodemap_ok c = true ->
                  exists b, result_of (configure_camera gain c) = Ok b).
  { intros Hnm. unfold configure_camera.
    rewrite result_bind, GetNodeMap_run, Hnm. cbn [result_of state_of fst snd].
    rewrite result_try_except.
    destruct (configure_camera_body_spec c NodeMap gain c (same_flags_refl c))
      as (_ & _ & Hraise).
    destruct (result_of (configure_camera_body NodeMap gain c)) as [b | e].
    - by exists b.
    - rewrite <- (Hraise e eq_refl). by exists false. }
  split; [| split; [exact Hopen |]].
  - intros Hnm. unfold configure_camera.
    apply run_bind_raise. by rewrite GetNodeMap_run, Hnm.
  - intros e He. destruct (cam_nodemap_ok c) eqn:Hnm.
    + destruct (Hopen eq_refl) as [b Hb]. congruence.
    + revert He. unfold configure_camera.
      rewrite result_bind, GetNodeMap_run, Hnm. cbn. by intros [= <-].
Qed.

Lemma deref_node_other nm name name' k n' c :
  name <> name' ->
  deref_node nm name' k (with_nodes nm (insert name n') c) = deref_node nm name' k c.
Proof.
  intros Hne. unfold deref_node. destruct nm; cbn; by rewrite lookup_insert_ne.
Qed.

(** [X10] When the extent node ([Width] or [Height]) is available and
    writable and the driver does not fault, the block of [configure_camera]
    that sets it writes the node's maximum (which the driver's range check
    accepts), the node holds the maximum afterwards, and the value printed
    is the one read back. *)
Theorem set_maximum_sets_maximum (nm : nodemap) (name : string) (c : Camera)
    (n : Node) (v m : Z) :
  deref_node nm name KInteger c = Some n ->
  node_available n = true -> node_writable n = true -> node_fault n = false ->
  node_data n = Integer v m ->
  set_maximum nm name c =
    (Ok tt,
     with_nodes nm (insert name (with_data (Integer m m) n)) c,
     [EvSetValue (NodePtr nm name KInteger) (PInt m);
      EvPrint (MsgDimensionSet name m)]).
Proof.
  intros Hn Hav Hwr Hfault Hd. unfold set_maximum.
  sym_run_with ltac:(first
    [ rewrite Hn | rewrite Hav | rewrite Hwr | rewrite Hfault | rewrite Hd
    | rewrite Z.leb_refl
    | rewrite deref_node_stored
    | progress cbn [is_available is_readable is_writable with_data node_fault
                    node_data node_display_name kind_matches andb] ]).
  done.
Qed.

Lemma set_maximum_sets_maximum_witness :
  set_maximum NodeMap "Width" Scenario6.device =
    (Ok tt,
     with_nodes NodeMap
       (insert "Width" (with_data (Integer 2048 2048)
                          (Scenario.node "Width" (Integer 640 2048))))
       Scenario6.device,
     [EvSetValue (NodePtr NodeMap "Width" KInteger) (PInt 2048);
      EvPrint (MsgDimensionSet "Width" 2048)]).
Proof.
  apply (set_maximum_sets_maximum NodeMap "Width" Scenario6.device
           (Scenario.node "Width" (Integer 640 2048)) 640 2048); reflexivity.
Defined.

(** [X11] [change_gain] turns automatic gain off before it looks at the
    [Gain] node.  When the [GainAuto] enumeration and its [Off] entry pass
    their gates and the [Gain] node does not pass its own, the call
    returns with automatic gain switched off and the gain not set: the
    only write is the one on [GainAuto], and the failure is only
    printed. *)
Theorem change_gain_switches_auto_off_first (gain : pyval) (c : Camera)
    (n : Node) (e : Entry) (entries : gmap string Entry) (cur : Z) :
  cam_nodemap_ok c = true ->
  deref_node NodeMap "GainAuto" KEnumeration c = Some n ->
  node_available n = true -> node_writable n = true -> node_fault n = false ->
  node_data n = Enumeration entries cur ->
  entries !! "Off" = Some e ->
  entry_available e = true -> entry_readable e = true ->
  gate_ok (NodePtr NodeMap "Gain" KFloat) c = false ->
  change_gain gain c =
    (Ok tt,
     with_nodes NodeMap
       (insert "GainAuto" (with_data (Enumeration entries (entry_value e)) n)) c,
     [EvSetIntValue (NodePtr NodeMap "GainAuto" KEnumeration) (entry_value e);
      EvPrint MsgUnableGain]).
Proof.
  intros Hnm Hn Hav Hwr Hfault Hd He Heav Her Hgate.
  assert (He' : deref_entry NodeMap "GainAuto" "Off" c = Some e).
  { unfold deref_entry. by rewrite Hn, Hd. }
  unfold gate_ok in Hgate. cbn [is_available is_writable] in Hgate.
  unfold change_gain.
  sym_run_with ltac:(first
    [ rewrite Hnm | rewrite Hn | rewrite Hav | rewrite Hwr | rewrite Hfault
    | rewrite He | rewrite Heav | rewrite Her | rewrite Hd | rewrite He'
    | rewrite deref_node_stored | rewrite deref_entry_stored
    | rewrite (deref_node_other NodeMap "GainAuto" "Gain") by done
    | progress cbn [is_available is_readable is_writable with_data node_fault
                    node_data node_display_name kind_matches andb] ]).
  all: try done.
  all: simplify_eq/=.
Qed.

(** * More of [main.py]: the image-buffer cycle *)

(** [X14] [acquire_images] never raises, acts on the device only by
    retrieving, saving and releasing frames, ending acquisition and
    printing, and returns [False] exactly when it has printed the error of
    a driver exception. *)
Theorem acquire_images_reports_failure (directory : string) (c : Camera) :
  exists b c' t,
    acquire_images directory c = (Ok b, c', t) /\
    Forall (fun a => is_acquire_action a = true) t /\
    (b = false <-> In (EvPrint MsgError) t).
Proof.
  unfold acquire_images, acquire_one, NUM_IMAGES. cbn [seq].
  sym_run.
  all: do 3 eexists; split; [reflexivity |].
  all: split; [by repeat constructor |].
  all: split; [try done; intros _; cbn; tauto |].
  all: cbn; intros Hin; repeat destruct Hin as [Hin | Hin]; done.
Qed.

(** [X15] When the frame retrieval of a device fails (time-out or fault),
    [acquire_images] returns [False]; if the retrieval was attempted it
    has itself ended acquisition on the device; nothing was saved or
    released, and the device holds as many frames as before. *)
Theorem retrieval_failure_ends_acquisition (directory : string) (c : Camera) :
  retrieval_fails c = true ->
  exists c' t,
    acquire_images directory c = (Ok false, c', t) /\
    (In EvGetNextImage t -> In EvEndAcquisition t) /\
    Forall (fun a => match a with EvSave _ | EvRelease => False | _ => True end) t /\
    cam_held c' = cam_held c.
Proof.
  unfold retrieval_fails. intros Hfails.
  unfold acquire_images, acquire_one, NUM_IMAGES. cbn [seq].
  sym_run.
  all: try done.
  all: do 2 eexists; split; [reflexivity |].
  all: split;
    [cbn; first [tauto | intros Hin; repeat destruct Hin as [Hin | Hin]; done] |].
  all: split; [by repeat constructor | done].
Qed.

Lemma retrieval_failure_ends_acquisition_witness :
  exists c' t,
    acquire_images "/data" (Scenario.camera "ABC123" Scenario.feature_tree []) =
      (Ok false, c', t) /\
    (In EvGetNextImage t -> In EvEndAcquisition t) /\
    Forall (fun a => match a with EvSave _ | EvRelease => False | _ => True end) t /\
    cam_held c' = cam_held (Scenario.camera "ABC123" Scenario.feature_tree []).
Proof.
  apply (retrieval_failure_ends_acquisition "/data"
           (Scenario.camera "ABC123" Scenario.feature_tree [])).
  reflexivity.
Defined.

Lemma deref_node_kind nm name k c n :
  deref_node nm name k c = Some n -> kind_matches k (node_data n) = true.
Proof.
  unfold deref_node. destruct (nodes_of nm c !! name) as [n' |]; [| done].
  destruct (kind_matches k (node_data n')) eqn:Hk; [| done]. by intros [= <-].
Qed.

(** [X16] An incomplete frame does not fail the cycle.  When the frame
    retrieved is incomplete (and reading the identity does not fault),
    [acquire_images] reports the image status and returns [True], although
    no image was saved; the frame is not released and stays held. *)
Theorem incomplete_frame_counts_as_success (directory : string) (c : Camera)
    (f : Frame) (rest : list (option Frame)) :
  cam_frames c = Some f :: rest ->
  frame_incomplete f = true ->
  (forall n, deref_node TLDeviceNodeMap "DeviceSerialNumber" KString c = Some n ->
             node_fault n = false) ->
  exists t,
    acquire_images directory c = (Ok true, with_frames rest (S (cam_held c)) c, t) /\
    In (EvPrint (MsgIncomplete (frame_status f))) t /\
    Forall (fun a => match a with EvSave _ | EvRelease => False | _ => True end) t.
Proof.
  intros Hframes Hinc Hfault.
  unfold acquire_images, acquire_one, NUM_IMAGES, IsIncomplete, GetImageStatus.
  cbn [seq].
  sym_run_with ltac:(first
    [ rewrite Hframes | rewrite Hinc
    | progress cbn [IsIncomplete GetImageStatus cam_frames cam_held with_frames] ]).
  all: try (match goal with
            | H' : node_fault ?n = true |- _ =>
                rewrite (Hfault n eq_refl) in H'; discriminate H'
            end).
  all: try (match goal with
            | H : deref_node _ _ _ _ = Some ?n, H' : node_data ?n = _ |- _ =>
                apply deref_node_kind in H; rewrite H' in H; discriminate H
            end).
  all: try (match goal with
            | H : deref_node _ _ _ _ = None, H' : is_available _ _ = true |- _ =>
                cbn [is_available] in H'; rewrite H in H'; discriminate H'
            end).
  all: try done.
  all: eexists; split; [reflexivity |].
  all: split; [cbn; tauto | by repeat constructor].
Qed.

Lemma incomplete_frame_counts_as_success_witness :
  exists t,
    acquire_images "/data" Scenario1.incomplete_camera =
      (Ok true, with_frames [] 1 Scenario1.incomplete_camera, t) /\
    In (EvPrint (MsgIncomplete 9)) t /\
    Forall (fun a => match a with EvSave _ | EvRelease => False | _ => True end) t.
Proof.
  apply (incomplete_frame_counts_as_success "/data" Scenario1.incomplete_camera
           Scenario.incomplete_frame []).
  - reflexivity.
  - reflexivity.
  - intros n [= <-]. reflexivity.
Defined.

(** [X17] The cycle of a device that delivers a complete frame.  When the
    identity can be read, the frame is complete and the driver saves and
    releases it, [acquire_images] saves exactly one image, under
    [directory/RatKingReigns-<identity>-0.png], releases the frame,
    returns [True] without ending acquisition, and the device holds as
    many frames as before. *)
Theorem complete_frame_is_saved_and_released (directory serial : string)
    (c : Camera) (n : Node) (f : Frame) (rest : list (option Frame)) :
  deref_node TLDeviceNodeMap "DeviceSerialNumber" KString c = Some n ->
  node_available n = true -> node_readable n = true -> node_fault n = false ->
  node_data n = StringNode serial ->
  serial <> "" ->
  cam_frames c = Some f :: rest ->
  frame_incomplete f = false -> frame_save_ok f = true -> frame_release_ok f = true ->
  acquire_images directory c =
    (Ok true, with_frames rest (cam_held c) c,
     [EvPrint MsgAcquiring; EvPrint (MsgSerialRetrieved serial);
      EvGetNextImage; EvPrint (MsgGrabbed 0 (frame_width f) (frame_height f));
      EvSave (directory +:+ "/" +:+ "RatKingReigns-" +:+ serial +:+ "-0.png");
      EvPrint (MsgSaved ("RatKingReigns-" +:+ serial +:+ "-0.png"));
      EvRelease; EvPrint MsgBlank]).
Proof.
  intros Hn Hav Hrd Hfault Hd Hserial Hframes Hinc Hsave Hrel.
  apply String.eqb_neq in Hserial.
  unfold acquire_images, acquire_one, NUM_IMAGES, filename, IsIncomplete,
    GetWidth, GetHeight.
  cbn [seq].
  sym_run_with ltac:(first
    [ rewrite Hn | rewrite Hav | rewrite Hrd | rewrite Hfault | rewrite Hd
    | rewrite Hframes | rewrite Hinc | rewrite Hsave | rewrite Hrel
    | rewrite Hserial
    | progress cbn [is_available is_readable IsIncomplete GetImageStatus
                    GetWidth GetHeight cam_frames cam_held with_frames andb pred] ]).
  reflexivity.
Qed.

(** * More of [main.py]: the session *)

Lemma andthen_trace {E S A B} (x : outcome A * S * list E) (k : A -> M E S B) :
  exists post, trace_of (andthen x k) = trace_of x ++ post.
Proof.
  destruct x as [[[a | e] s] t]; cbn.
  - by eexists.
  - exists []. by rewrite app_nil_r.
Qed.

(** [X6] The gain of one device is carried over to the next.  [gain] is
    one local of [capture], bound by the lookup and never unbound: when an
    earlier device has bound it to [g] and the configuration file has no
    serial-number line for the device at hand, that device is configured
    with [g], and no warning is printed for it. *)
Theorem stale_gain_is_reused (lines : list string) (i : nat) (rest : list nat)
    (result : bool) (g : string) (cams : list Camera) (c : Camera)
    (serial : string) :
  cams !! i = Some c ->
  serial_number_of c = Ok serial ->
  forallb (passes_by serial) lines = true ->
  cam_init_ok c = true ->
  cam_nodemap_ok c = true ->
  exists pre post,
    trace_of (configure_loop lines (i :: rest) result (Some g) cams) =
      pre ++ map (OnCam i) (trace_of (configure_camera (PStr g) c)) ++ post /\
    In (OnCam i EvInit) pre /\
    ~ In (Out (MsgGainUndefined serial)) pre.
Proof.
  intros Hc Hserial Hpass Hinit Hnm.
  pose proof (lookup_from_passes_by lines serial lines 0 (Some g) Hpass) as Hlookup.
  fold (Lookup.lookup_gain lines serial (Some g)) in Hlookup.
  destruct (print_device_info_run TLDeviceNodeMap c) as (b & t & Hinfo & Ht).
  cbn [configure_loop].
  rewrite run_bind, (on_cam_at GetTLDeviceNodeMap i cams c (Ok TLDeviceNodeMap) [] Hc),
    andthen_ok by done. cbv beta.
  rewrite run_bind, (on_cam_at _ i cams c _ _ Hc Hinfo), andthen_ok. cbv beta.
  rewrite run_bind.
  rewrite (on_cam_at _ i cams c (Ok serial) [] Hc).
  2: { unfold CStringPtr, GetNode. cbn [fst snd]. rewrite GetValue_str_run.
       unfold serial_number_of in Hserial. by rewrite Hserial. }
  rewrite andthen_ok. cbv beta.
  unfold out. rewrite run_bind, emit_run, andthen_ok. cbv beta.
  rewrite run_bind, lift_outcome_run, Hlookup, andthen_ok. cbv beta iota.
  rewrite run_bind, ret_run, andthen_ok. cbv beta.
  rewrite run_bind.
  rewrite (on_cam_at Init i cams c (Ok tt) [EvInit] Hc).
  2: { unfold Init. by rewrite lifecycle_run, Hinit. }
  rewrite andthen_ok. cbv beta. rewrite run_bind.
  rewrite (on_cam_at GetNodeMap i cams c (Ok NodeMap) [] Hc).
  2: { by rewrite GetNodeMap_run, Hnm. }
  rewrite andthen_ok. cbv beta iota. rewrite run_bind, ret_run, andthen_ok. cbv beta.
  rewrite run_bind, (on_cam_run i _ cams c Hc).
  match goal with |- context [andthen ?x ?k] =>
    destruct (andthen_trace x k) as [post Hpost] end.
  unfold prepend. cbn [trace_of snd] in *. rewrite Hpost.
  exists (map (OnCam i) t ++ [Out (MsgConfiguring serial); OnCam i EvInit]), post.
  split; [| split].
  - cbn [map app]. rewrite <- !app_assoc. cbn [app]. reflexivity.
  - apply in_or_app. right. right. by left.
  - intros Hin. apply in_app_or in Hin as [Hin | Hin].
    + apply in_map_iff in Hin as (a & Ha & _). discriminate Ha.
    + by repeat destruct Hin as [Hin | Hin].
Qed.

Lemma begin_loop_fails cams k ck : forall m a,
  a <= k < a + m ->
  cams !! k = Some ck -> cam_begin_ok ck = false ->
  (forall j c, j < k -> cams !! j = Some c -> cam_begin_ok c = true) ->
  for_ (seq a m) (fun cam => on_cam cam BeginAcquisition) cams =
    (Raise SpinnakerException, cams, begin_trace (seq a (S k - a))).
Proof.
  induction m as [| m IH]; intros a Ha Hk Hbad Hgood; [lia |].
  cbn [seq for_]. destruct (decide (a = k)) as [-> | Hne].
  - erewrite run_bind_raise.
    2: { unfold BeginAcquisition. rewrite (on_cam_lifecycle _ _ _ _ _ Hk), Hbad. done. }
    replace (S k - k) with 1 by lia. done.
  - assert (a < k) as Hlt by lia.
    destruct (lookup_lt_is_Some_2 cams a) as [c Hc].
    { apply lookup_lt_Some in Hk. lia. }
    erewrite run_bind_ok.
    2: { unfold BeginAcquisition.
         rewrite (on_cam_lifecycle _ _ _ _ _ Hc), (Hgood a c Hlt Hc). done. }
    rewrite (IH (S a)); [| lia | done | done | done].
    cbn [result_of state_of trace_of fst snd].
    replace (S k - a) with (S (S k - S a)) by lia. done.
Qed.

Lemma same_fleet_lookup cams0 cams j c :
  same_fleet cams0 cams -> cams !! j = Some c ->
  exists c0, cams0 !! j = Some c0 /\ same_flags c0 c.
Proof. intros Hfleet Hc. by apply (Forall2_lookup_r _ _ _ _ _ Hfleet Hc). Qed.

(** [X18] When [BeginAcquisition] raises on the device at index [k] (all
    devices are configured and the directory is made), [capture] returns
    [False] after starting acquisition on the devices before [k]: no frame
    is retrieved, and the loop that ends acquisition and deinitializes the
    devices is skipped, so the devices that were started are not stopped
    by [capture]. *)
Theorem begin_failure_skips_teardown (env : Env) (cams : list Camera)
    (text : string) (r0 : bool) (g : option string) (k : nat) (ck : Camera) :
  input_tsv env = Some text ->
  mkdir_ok env = true ->
  let cfg := configure_loop (PyStr.readlines text) (seq 0 (length cams)) true None cams in
  result_of cfg = Ok (Fallthrough r0 g) ->
  cams !! k = Some ck ->
  cam_begin_ok ck = false ->
  (forall j c, j < k -> cams !! j = Some c -> cam_begin_ok c = true) ->
  capture env cams =
    (Ok false, state_of cfg,
     trace_of cfg ++ begin_trace (seq 0 (S k)) ++ [Out MsgError]).
Proof.
  intros Htext Hmkdir cfg Hcfg Hk Hbad Hgood.
  rewrite (capture_run env cams text Htext). fold cfg. rewrite Hcfg.
  destruct (configure_loop_spec cams (PyStr.readlines text) (seq 0 (length cams))
              true None cams (same_fleet_refl cams)) as (Hfleet & _ & _).
  fold cfg in Hfleet.
  assert (Hlen : length (state_of cfg) = length cams).
  { symmetry. by apply (Forall2_length _ _ _ Hfleet). }
  destruct (lookup_lt_is_Some_2 (state_of cfg) k) as [ck' Hk'].
  { rewrite Hlen. by apply lookup_lt_Some in Hk. }
  assert (Hbad' : cam_begin_ok ck' = false).
  { destruct (same_fleet_lookup _ _ _ _ Hfleet Hk') as (c0 & Hc0 & Hflags).
    simplify_eq. destruct Hflags as (_ & _ & -> & _). done. }
  assert (Hgood' : forall j c, j < k -> state_of cfg !! j = Some c -> cam_begin_ok c = true).
  { intros j c Hj Hc.
    destruct (same_fleet_lookup _ _ _ _ Hfleet Hc) as (c0 & Hc0 & Hflags).
    destruct Hflags as (_ & _ & -> & _). by apply (Hgood j). }
  cbv zeta. unfold acquisition_phase, mkdir. rewrite Hmkdir.
  rewrite run_bind, ret_run, andthen_ok. cbv beta.
  erewrite run_bind_raise.
  2: { apply (begin_loop_fails (state_of cfg) k ck' (length cams) 0);
         [| done | done | done].
       apply lookup_lt_Some in Hk. lia. }
  cbn [prepend result_of state_of trace_of fst snd handled app].
  unfold prepend. cbn [result_of state_of trace_of fst snd handled app].
  rewrite Nat.sub_0_r. by rewrite <- app_assoc.
Qed.

Lemma lifecycle_spec c0 a ok :
  is_write a = false ->
  spec (same_flags c0) (fun x : action => is_write x = false)
    (eq SpinnakerException) (lifecycle a ok).
Proof. intros Ha. unfold lifecycle. spec_auto. Qed.

Lemma on_cam_lifecycle_spec cams0 i a ok :
  is_write a = false ->
  spec (same_fleet cams0) (fun e : event => is_cam_write e = false)
    (eq SpinnakerException) (on_cam i (lifecycle a ok)).
Proof.
  intros Ha.
  apply (spec_on_cam cams0 (fun x => is_write x = false)); [| done | done].
  intros c0 _. by apply lifecycle_spec.
Qed.

Lemma acquire_action_not_write a : is_acquire_action a = true -> is_write a = false.
Proof. by destruct a. Qed.

Lemma acquire_loop_spec cams0 directory idxs : forall result,
  spec (same_fleet cams0) (fun e : event => is_cam_write e = false)
    (eq SpinnakerException) (acquire_loop directory idxs result).
Proof.
  induction idxs as [| i idxs IH]; intros result; cbn [acquire_loop].
  - apply spec_ret.
  - apply spec_bind; [| intros b; apply IH].
    apply (spec_on_cam cams0 (fun a => is_acquire_action a = true));
      [| done | intros a; apply acquire_action_not_write].
    intros c0 _. eapply spec_weaken; [apply acquire_images_spec | done | done].
Qed.

(** What follows [os.mkdir] in [capture]: no node is written, and nothing
    but a driver exception can leave it. *)
Lemma after_mkdir_spec cams0 directory idxs result :
  spec (same_fleet cams0) (fun e : event => is_cam_write e = false)
    (eq SpinnakerException)
    (for_ idxs (fun cam => on_cam cam BeginAcquisition) ;;
     result <- acquire_loop directory idxs result ;;
     for_ idxs (fun cam => on_cam cam EndAcquisition ;; on_cam cam DeInit) ;;
     ret result).
Proof.
  apply spec_bind.
  - apply spec_for. intros i _. by apply on_cam_lifecycle_spec.
  - intros _. apply spec_bind; [apply acquire_loop_spec |]. intros r.
    apply spec_bind; [| intros _; apply spec_ret].
    apply spec_for. intros i _.
    apply spec_bind; [| intros _]; by apply on_cam_lifecycle_spec.
Qed.

Lemma acquisition_phase_spec cams0 env idxs result :
  spec (same_fleet cams0) (fun e : event => is_cam_write e = false)
    (fun e => e = SpinnakerException \/ e = OSError)
    (acquisition_phase env idxs result).
Proof.
  unfold acquisition_phase, mkdir. apply spec_bind.
  - destruct (mkdir_ok env); [apply spec_ret | apply spec_raise; by right].
  - intros _. eapply spec_weaken; [apply after_mkdir_spec | done |].
    intros e <-. by left.
Qed.

(** Once the directory is made, nothing but a driver exception can leave
    the rest of [capture]. *)
Lemma acquisition_phase_raises env idxs result cams e :
  mkdir_ok env = true ->
  result_of (acquisition_phase env idxs result cams) = Raise e ->
  e = SpinnakerException.
Proof.
  intros Hmkdir. unfold acquisition_phase, mkdir. rewrite Hmkdir, bind_ret.
  intros Hraise. symmetry. revert Hraise.
  destruct (after_mkdir_spec cams (chosen_directory env +:+ "/" +:+ folder_name env)
              idxs result cams (same_fleet_refl cams)) as (_ & _ & Hx).
  apply Hx.
Qed.

Lemma setup_no_deinit e : is_setup_event e = true -> ev_deinit e = false.
Proof. by destruct e as [i []|]. Qed.

(** An exception that leaves [capture] is not a driver exception, and it
    leaves during configuration or at [os.mkdir]. *)
Lemma capture_raise env cams e :
  result_of (capture env cams) = Raise e ->
  e <> SpinnakerException /\
  Forall (fun ev => is_setup_event ev = true) (trace_of (capture env cams)).
Proof.
  destruct (input_tsv env) as [text |] eqn:Htext.
  - rewrite (capture_run env cams text Htext). cbv zeta.
    destruct (configure_loop_spec cams (PyStr.readlines text) (seq 0 (length cams))
                true None cams (same_fleet_refl cams)) as (_ & Hsetup & _).
    set (cfg := configure_loop _ _ _ _ cams) in *.
    destruct (result_of cfg) as [[v | result gain] | e'].
    + done.
    + destruct (mkdir_ok env) eqn:Hmkdir.
      * pose proof (acquisition_phase_raises env (seq 0 (length cams)) result
                      (state_of cfg)) as Hphase.
        destruct (result_of (acquisition_phase _ _ _ _)) as [b | e'']; [done |].
        rewrite (Hphase e'' Hmkdir eq_refl). done.
      * unfold acquisition_phase, mkdir. rewrite Hmkdir.
        rewrite run_bind, raise_run, andthen_raise.
        cbn [result_of state_of trace_of fst snd handled].
        intros [= <-]. split; [done |]. by rewrite app_nil_r.
    + destruct e'; cbn [handled result_of trace_of fst snd]; try done.
      all: intros [= <-]; by split.
  - unfold capture, open_read. rewrite Htext, run_try_except.
    rewrite run_bind, raise_run, andthen_raise. cbn. intros [= <-]. by split.
Qed.

Lemma init_trace_in j idxs : In j idxs -> In (OnCam j EvInit) (init_trace idxs).
Proof.
  induction idxs as [| i idxs IH]; [done |]. intros [-> | Hj]; [by left |].
  right. right. by apply IH.
Qed.

Lemma init_trace_setup idxs : Forall (fun ev => is_setup_event ev = true) (init_trace idxs).
Proof. induction idxs as [| i idxs IH]; [constructor |]. by repeat constructor. Qed.

(** [X19] An exception that leaves [capture] is never a driver exception,
    and it ends the program with every device initialized and none
    deinitialized: [main] has no handler around [capture], so the
    exception leaves [main] too and its [DeInit] loop is skipped.  (Such
    exceptions are a missing [input.tsv], a malformed block, an unbound
    [gain] and a failing [os.mkdir]; they all come before acquisition is
    started on any device.) *)
Theorem escaped_exception_skips_deinit (env : Env) (cams : list Camera) (e : exn) :
  cwd_writable env = true ->
  cams <> [] ->
  (forall c, In c cams -> cam_init_ok c = true) ->
  result_of (capture env cams) = Raise e ->
  let x := main env cams in
  result_of x = Raise e /\
  e <> SpinnakerException /\
  (forall j, j < length cams -> In (OnCam j EvInit) (trace_of x)) /\
  Forall (fun ev => ev_deinit ev = false) (trace_of x) /\
  no_begin (trace_of x).
Proof.
  intros Hcwd Hcams Hinit Hraise. cbv zeta.
  rewrite (main_run env cams Hcwd Hcams Hinit). cbv zeta. rewrite Hraise.
  destruct (capture_raise env cams e Hraise) as [Hne Hsetup].
  cbn [result_of state_of trace_of fst snd].
  assert (Hall : Forall (fun ev => is_setup_event ev = true)
                   (main_prelude (length cams) ++ trace_of (capture env cams))).
  { apply Forall_app. split; [| done]. unfold main_prelude.
    apply Forall_app. split; [by repeat constructor | apply init_trace_setup]. }
  repeat split; [done | | |].
  - intros j Hj. apply in_or_app. left. unfold main_prelude.
    apply in_or_app. right. apply init_trace_in, in_seq. lia.
  - eapply Forall_impl; [exact Hall |]. apply setup_no_deinit.
  - eapply Forall_impl; [exact Hall |]. apply setup_no_begin.
Qed.

(** ** Configuration comes before acquisition *)

Lemma phased_quiet t : no_begin t -> phased t.
Proof.
  intros Ht. exists t, []. rewrite app_nil_r. repeat split; [done | constructor].
Qed.

Lemma phased_settled t : Forall (fun e => is_cam_write e = false) t -> phased t.
Proof. intros Ht. exists [], t. repeat split; [constructor | done]. Qed.

Lemma phased_app_l t0 t : no_begin t0 -> phased t -> phased (t0 ++ t).
Proof.
  intros H0 (t1 & t2 & -> & H1 & H2). exists (t0 ++ t1), t2.
  rewrite app_assoc. repeat split; [| done]. by apply Forall_app.
Qed.

Lemma phased_app_r t t' :
  phased t -> Forall (fun e => is_cam_write e = false) t' -> phased (t ++ t').
Proof.
  intros (t1 & t2 & -> & H1 & H2) H'. exists t1, (t2 ++ t').
  rewrite app_assoc. repeat split; [done |]. by apply Forall_app.
Qed.

Lemma phased_split t pre i post :
  phased t -> t = pre ++ OnCam i EvBeginAcquisition :: post ->
  Forall (fun e => is_cam_write e = false) post.
Proof.
  intros (t1 & t2 & -> & H1 & H2) Heq.
  apply app_eq_inv in Heq as [(k & -> & Hk) | (k & -> & Hk)].
  - destruct k as [| e k]; cbn in Hk.
    + rewrite <- Hk in H2. by inversion H2.
    + injection Hk as <- ->. exfalso.
      apply Forall_app in H1 as [_ H1]. by inversion H1.
  - rewrite Hk in H2. apply Forall_app in H2 as [_ H2]. by inversion H2.
Qed.

Lemma capture_phased env cams : phased (trace_of (capture env cams)).
Proof.
  unfold capture. rewrite trace_try_except. apply phased_app_r.
  2: { destruct (result_of _) as [| []]; cbn; repeat constructor. }
  unfold open_read. destruct (input_tsv env) as [text |];
    [| apply phased_quiet; constructor].
  rewrite bind_ret, bind_gets, trace_bind.
  destruct (configure_loop_spec cams (PyStr.readlines text) (seq 0 (length cams))
              true None cams (same_fleet_refl cams)) as (Hfleet & Hsetup & _).
  apply phased_app_l; [by apply setup_trace_no_begin |].
  destruct (result_of _) as [[v | result gain] | e];
    [apply phased_quiet; constructor | | apply phased_quiet; constructor].
  set (cams1 := state_of _) in *.
  apply phased_settled.
  apply (acquisition_phase_spec cams1 env (seq 0 (length cams)) result cams1
           (same_fleet_refl cams1)).
Qed.

(** [X20] Configuration comes before acquisition.  In every session,
    whatever the devices and the driver do: once acquisition has been
    started on any device, no node of any device is written any more. *)
Theorem no_write_after_acquisition_start (env : Env) (cams : list Camera)
    (pre post : list event) (i : nat) :
  trace_of (main env cams) = pre ++ OnCam i EvBeginAcquisition :: post ->
  Forall (fun e => is_cam_write e = false) post.
Proof.
  intros Heq. apply (phased_split (trace_of (main env cams)) pre i post);
    [| exact Heq]. clear Heq.
  unfold main. destruct (cwd_writable env); cbn [negb];
    [| apply phased_quiet; cbn; repeat constructor].
  unfold out. rewrite bind_emit. cbn [trace_of snd].
  apply (phased_app_l [_]); [by repeat constructor |].
  rewrite bind_gets, bind_emit. cbn [trace_of snd].
  apply (phased_app_l [_]); [by repeat constructor |].
  destruct (Nat.eqb _ 0); [apply phased_quiet; cbn; repeat constructor |].
  rewrite trace_bind.
  assert (Hinit : spec (same_fleet cams) (fun e => ev_begin e = false) (fun _ => True)
            (for_ (seq 0 (length cams)) (fun cam => on_cam cam Init ;; emit (Out MsgCamera)))).
  { apply spec_for. intros cam _. apply spec_bind; [| intros; by apply spec_emit].
    apply spec_on_cam with (Pc := fun a => a = EvInit); [| done | by intros a ->].
    intros c0 _. spec_auto. }
  destruct (Hinit cams (same_fleet_refl cams)) as (Hfleet & Hquiet & _).
  apply phased_app_l; [exact Hquiet |].
  destruct (result_of _) as [[] | e]; [| apply phased_quiet; constructor].
  set (cams1 := state_of _) in *.
  rewrite trace_bind.
  apply phased_app_r; [apply capture_phased |].
  destruct (result_of _) as [captured | e]; [| constructor].
  rewrite trace_bind.
  destruct (lifecycle_loop EvDeInit cam_deinit_ok (seq 0 (length cams))
              (state_of (capture env cams1))) as (_ & Hev & _).
  apply Forall_app. split.
  - eapply Forall_impl; [exact Hev |]. by intros e [j ->].
  - destruct (result_of _); constructor.
Qed.

(** ** Counting calls *)

Lemma calls_app j p t1 t2 : calls j p (t1 ++ t2) = calls j p t1 + calls j p t2.
Proof. unfold calls. by rewrite List.filter_app, length_app. Qed.

Lemma calls_none j p t :
  Forall (fun e => on_device j p e = false) t -> calls j p t = 0.
Proof.
  unfold calls. induction 1 as [| e t He _ IH]; [done |]. cbn. by rewrite He.
Qed.

Lemma calls_map_other j p i (t : list action) :
  i <> j -> calls j p (map (OnCam i) t) = 0.
Proof.
  intros Hne. apply calls_none. apply List.Forall_map, List.Forall_forall.
  intros a _. cbn. apply Nat.eqb_neq in Hne. by rewrite Hne.
Qed.

Lemma calls_map_none j p i (t : list action) :
  Forall (fun a => p a = false) t -> calls j p (map (OnCam i) t) = 0.
Proof.
  intros Ht. apply calls_none. apply List.Forall_map.
  eapply Forall_impl; [exact Ht |]. intros a Ha. cbn. rewrite Ha. apply andb_false_r.
Qed.

Lemma calls_map_same j p (t : list action) :
  calls j p (map (OnCam j) t) = length (List.filter p t).
Proof.
  unfold calls. induction t as [| a t IH]; [done |]. cbn.
  rewrite Nat.eqb_refl. cbn. destruct (p a); cbn; by rewrite IH.
Qed.

Lemma calls_seq j p (f : nat -> list event) :
  (forall i, i <> j -> calls j p (f i) = 0) ->
  forall n a, calls j p (flat_map f (seq a n)) =
              if decide (a <= j < a + n) then calls j p (f j) else 0.
Proof.
  intros Hother. induction n as [| n IH]; intros a; cbn [seq flat_map].
  - by destruct (decide _); [lia |].
  - rewrite calls_app, IH. destruct (decide (a = j)) as [-> | Hne].
    + rewrite decide_False by lia. rewrite decide_True by lia. lia.
    + rewrite (Hother a Hne). destruct (decide (S a <= j < S a + n)).
      * by rewrite decide_True by lia.
      * by rewrite decide_False by lia.
Qed.

(** ** The configuration loop, one device at a time *)

Lemma prepend_result {E S A} (t0 : list E) (x : outcome A * S * list E) :
  result_of (prepend t0 x) = result_of x.
Proof. done. Qed.

Lemma prepend_trace {E S A} (t0 : list E) (x : outcome A * S * list E) :
  trace_of (prepend t0 x) = t0 ++ trace_of x.
Proof. done. Qed.

Lemma prepend_state {E S A} (t0 : list E) (x : outcome A * S * list E) :
  state_of (prepend t0 x) = state_of x.
Proof. done. Qed.

Lemma config_action_not_init a : is_config_action a = true -> is_init a = false.
Proof. by destruct a. Qed.

Lemma print_not_init a : is_print a = true -> is_init a = false.
Proof. by destruct a. Qed.

Lemma on_cam_none {A} i (m : CamM A) cams :
  cams !! i = None -> on_cam i m cams = (Raise SpinnakerException, cams, []).
Proof. unfold on_cam. by intros ->. Qed.

(** A pass of the configuration loop that goes on to the next device: the
    device is there, its identity was read, the lookup left [gain] bound,
    [Init] and [GetNodeMap] returned and [configure_camera] returned
    [True]. *)
Lemma configure_loop_step lines i idxs result gain cams r g :
  result_of (configure_loop lines (i :: idxs) result gain cams) = Ok (Fallthrough r g) ->
  exists c b t serial g',
    cams !! i = Some c /\
    print_device_info TLDeviceNodeMap c = (Ok b, c, t) /\
    Forall (fun a => is_print a = true) t /\
    serial_number_of c = Ok serial /\
    Lookup.lookup_gain lines serial gain = Ok (Some g') /\
    result_of (configure_camera (PStr g') c) = Ok true /\
    configure_loop lines (i :: idxs) result gain cams =
      prepend
        (map (OnCam i) t ++ [Out (MsgConfiguring serial); OnCam i EvInit] ++
         map (OnCam i) (trace_of (configure_camera (PStr g') c)))
        (configure_loop lines idxs (result && b) (Some g')
           (<[i := state_of (configure_camera (PStr g') c)]> cams)).
Proof.
  cbn [configure_loop].
  destruct (cams !! i) as [c |] eqn:Hc.
  2: { rewrite run_bind, (on_cam_none _ _ _ Hc), andthen_raise. done. }
  destruct (print_device_info_run TLDeviceNodeMap c) as (b & t & Hinfo & Ht).
  rewrite run_bind, (on_cam_at GetTLDeviceNodeMap i cams c (Ok TLDeviceNodeMap) [] Hc),
    andthen_ok by done. cbv beta.
  rewrite run_bind, (on_cam_at _ i cams c _ _ Hc Hinfo), andthen_ok. cbv beta.
  rewrite run_bind.
  rewrite (on_cam_at _ i cams c (serial_number_of c) [] Hc).
  2: { unfold CStringPtr, GetNode. cbn [fst snd]. by rewrite GetValue_str_run. }
  destruct (serial_number_of c) as [serial | e] eqn:Hserial; [| done].
  rewrite andthen_ok. cbv beta.
  unfold out. rewrite run_bind, emit_run, andthen_ok. cbv beta.
  rewrite run_bind, lift_outcome_run.
  destruct (Lookup.lookup_gain lines serial gain) as [gain' | e] eqn:Hlookup; [| done].
  rewrite andthen_ok. cbv beta iota.
  assert (Hinit : on_cam i Init cams =
            ((if cam_init_ok c then Ok tt else Raise SpinnakerException), cams,
             [OnCam i EvInit])).
  { unfold Init. apply (on_cam_lifecycle _ _ _ _ _ Hc). }
  assert (Hnm : on_cam i GetNodeMap cams =
            ((if cam_nodemap_ok c then Ok NodeMap else Raise SpinnakerException),
             cams, [])).
  { apply (on_cam_at GetNodeMap i cams c _ [] Hc). apply GetNodeMap_run. }
  destruct gain' as [g' |].
  2: { rewrite run_bind, emit_run, andthen_ok. cbv beta.
       rewrite run_bind, Hinit. destruct (cam_init_ok c); [| done].
       rewrite andthen_ok. cbv beta. rewrite run_bind, Hnm.
       destruct (cam_nodemap_ok c); [| done].
       rewrite andthen_ok. cbv beta iota. by rewrite run_bind, raise_run, andthen_raise. }
  rewrite run_bind, ret_run, andthen_ok. cbv beta.
  rewrite run_bind, Hinit. destruct (cam_init_ok c); [| done].
  rewrite andthen_ok. cbv beta. rewrite run_bind, Hnm.
  destruct (cam_nodemap_ok c); [| done].
  rewrite andthen_ok. cbv beta iota. rewrite run_bind, ret_run, andthen_ok. cbv beta.
  rewrite run_bind, (on_cam_run i _ cams c Hc).
  destruct (result_of (configure_camera (PStr g') c)) as [[] | e] eqn:Hconf;
    [| done | done].
  rewrite andthen_ok. cbv beta iota. cbn [negb].
  rewrite !prepend_prepend. intros _.
  exists c, b, t, serial, g'. repeat split; try done.
  f_equal. cbn [map app]. rewrite <- !app_assoc. cbn [app]. reflexivity.
Qed.

(** A configuration loop that runs to its end has initialized each of its
    devices once. *)
Lemma configure_loop_inits lines j : forall idxs result gain cams r g,
  result_of (configure_loop lines idxs result gain cams) = Ok (Fallthrough r g) ->
  calls j is_init (trace_of (configure_loop lines idxs result gain cams)) =
    length (List.filter (Nat.eqb j) idxs).
Proof.
  induction idxs as [| i idxs IH]; intros result gain cams r g Hrun; [done |].
  destruct (configure_loop_step _ _ _ _ _ _ _ _ Hrun)
    as (c & b & t & serial & g' & Hc & Hinfo & Ht & Hserial & Hlookup & Hconf & Hstep).
  rewrite Hstep in Hrun |- *. rewrite prepend_result in Hrun.
  rewrite prepend_trace, calls_app, (IH _ _ _ _ _ Hrun).
  destruct (configure_camera_spec c (PStr g') c (same_flags_refl c)) as (_ & Hactions & _).
  rewrite !calls_app. rewrite (calls_map_none j is_init i t).
  2: { eapply Forall_impl; [exact Ht |]. apply print_not_init. }
  rewrite (calls_map_none j is_init i (trace_of _)).
  2: { eapply Forall_impl; [exact Hactions |]. apply config_action_not_init. }
  unfold calls. cbn [List.filter on_device is_init andb app length].
  rewrite (Nat.eqb_sym j i). destruct (Nat.eqb i j); cbn; lia.
Qed.

Lemma forallb_ext_in {A} (f f' : A -> bool) (l : list A) :
  (forall x, In x l -> f x = f' x) -> forallb f l = forallb f' l.
Proof.
  induction l as [| x l IH]; intros Hext; [done |]. cbn.
  rewrite (Hext x (or_introl eq_refl)), IH; [done |].
  intros y Hy. apply Hext. by right.
Qed.

(** The result of a configuration loop that runs to its end is the
    conjunction of what [print_device_info] returned for its devices. *)
Lemma configure_loop_result lines : forall idxs result gain cams r g,
  NoDup idxs ->
  result_of (configure_loop lines idxs result gain cams) = Ok (Fallthrough r g) ->
  r = result && forallb (device_info_ok cams) idxs.
Proof.
  induction idxs as [| i idxs IH]; intros result gain cams r g Hdup Hrun.
  - cbn in Hrun. injection Hrun as <- _. by rewrite andb_true_r.
  - destruct (configure_loop_step _ _ _ _ _ _ _ _ Hrun)
      as (c & b & t & serial & g' & Hc & Hinfo & Ht & Hserial & Hlookup & Hconf & Hstep).
    rewrite Hstep, prepend_result in Hrun.
    apply NoDup_cons in Hdup as [Hi Hdup].
    rewrite (IH _ _ _ _ _ Hdup Hrun). cbn [forallb].
    assert (Hb : device_info_ok cams i = b).
    { unfold device_info_ok. by rewrite Hc, Hinfo. }
    rewrite Hb, andb_assoc. f_equal.
    apply forallb_ext_in. intros i' Hi'. unfold device_info_ok.
    rewrite list_lookup_insert_ne; [done |]. intros ->.
    apply Hi. by apply list_elem_of_In.
Qed.

(** ** A session that runs to completion *)

Lemma completed_session_run (env : Env) (cams : list Camera) (text : string)
    (r0 : bool) (g : option string) :
  cwd_writable env = true ->
  cams <> [] ->
  input_tsv env = Some text ->
  mkdir_ok env = true ->
  (forall c, In c cams ->
     cam_init_ok c = true /\ cam_begin_ok c = true /\
     cam_end_ok c = true /\ cam_deinit_ok c = true) ->
  let cfg := configure_loop (PyStr.readlines text) (seq 0 (length cams)) true None cams in
  let directory := chosen_directory env +:+ "/" +:+ folder_name env in
  let idxs := seq 0 (length cams) in
  result_of cfg = Ok (Fallthrough r0 g) ->
  main env cams =
    (Ok (r0 && forallb (acquired directory) (state_of cfg)),
     map (fun c => state_of (acquire_images directory c)) (state_of cfg),
     main_prelude (length cams) ++ trace_of cfg ++ begin_trace idxs ++
     acquire_trace directory 0 (state_of cfg) ++ teardown_trace idxs ++
     map (fun i => OnCam i EvDeInit) idxs).
Proof.
  intros Hcwd Hne Htext Hmkdir Hok cfg directory idxs Hcfg.
  destruct (configure_loop_spec cams (PyStr.readlines text) (seq 0 (length cams))
              true None cams (same_fleet_refl cams)) as (Hfleet & _ & _).
  fold cfg in Hfleet. set (cams1 := state_of cfg) in *.
  assert (Hlen : length cams1 = length cams).
  { symmetry. by apply (Forall2_length _ _ _ Hfleet). }
  assert (Hok1 : forall c, In c cams1 ->
            cam_begin_ok c = true /\ cam_end_ok c = true /\ cam_deinit_ok c = true).
  { intros c Hc. repeat split.
    - eapply (same_fleet_flags cams cams1 cam_begin_ok); eauto.
      + by intros ?? (_ & _ & -> & _).
      + intros c' Hc'. by destruct (Hok c' Hc') as (_ & ? & _).
    - eapply (same_fleet_flags cams cams1 cam_end_ok); eauto.
      + by intros ?? (_ & _ & _ & -> & _).
      + intros c' Hc'. by destruct (Hok c' Hc') as (_ & _ & ? & _).
    - eapply (same_fleet_flags cams cams1 cam_deinit_ok); eauto.
      + by intros ?? (_ & _ & _ & _ & ->).
      + intros c' Hc'. by destruct (Hok c' Hc') as (_ & _ & _ & ?). }
  pose proof (acquisition_phase_run env r0 cams1 Hmkdir Hok1) as Hphase.
  cbv zeta in Hphase. fold directory in Hphase. rewrite Hlen in Hphase.
  assert (Hcap : capture env cams =
            (Ok (r0 && forallb (acquired directory) cams1),
             map (fun c => state_of (acquire_images directory c)) cams1,
             trace_of cfg ++ begin_trace (seq 0 (length cams)) ++
             acquire_trace directory 0 cams1 ++ teardown_trace (seq 0 (length cams)))).
  { rewrite (capture_run env cams text Htext). cbv zeta. fold cfg. rewrite Hcfg.
    fold cams1. rewrite Hphase. done. }
  assert (Hdown : for_ (seq 0 (length cams)) (fun cam => on_cam cam DeInit)
                    (map (fun c => state_of (acquire_images directory c)) cams1) =
                  (Ok tt, map (fun c => state_of (acquire_images directory c)) cams1,
                   map (fun i => OnCam i EvDeInit) (seq 0 (length cams)))).
  { apply lifecycle_loop_run.
    - intros j Hj. apply in_seq in Hj. rewrite length_map. lia.
    - intros c Hc. apply in_map_iff in Hc as (c1 & <- & Hc1).
      destruct (acquire_images_flags directory c1) as (_ & _ & _ & _ & ->).
      by apply Hok1. }
  assert (Hinit : forall c, In c cams -> cam_init_ok c = true).
  { intros c Hc. by destruct (Hok c Hc) as (? & _). }
  rewrite (main_run env cams Hcwd Hne Hinit). cbv zeta.
  rewrite Hcap. cbn [result_of state_of trace_of fst snd]. rewrite Hdown.
  cbn [result_of state_of trace_of fst snd]. subst idxs.
  by rewrite <- !app_assoc.
Qed.

Lemma filter_none {A} (p : A -> bool) (t : list A) :
  Forall (fun a => p a = false) t -> length (List.filter p t) = 0.
Proof. induction 1 as [| a t Ha _ IH]; [done |]. cbn. by rewrite Ha. Qed.

Lemma acquire_trace_calls directory j p : forall l k,
  calls j p (acquire_trace directory k l) =
    if decide (k <= j) then
      match l !! (j - k) with
      | Some cj => length (List.filter p (trace_of (acquire_images directory cj)))
      | None => 0
      end
    else 0.
Proof.
  induction l as [| c l IH]; intros k; cbn [acquire_trace].
  - by destruct (decide _).
  - rewrite calls_app, IH. destruct (decide (k = j)) as [-> | Hne].
    + rewrite calls_map_same, decide_False by lia. rewrite decide_True by lia.
      rewrite Nat.sub_diag. cbn. lia.
    + rewrite calls_map_other by done. destruct (decide (S k <= j)).
      * rewrite decide_True by lia. by replace (j - k) with (S (j - S k)) by lia.
      * by rewrite decide_False by lia.
Qed.

Lemma map_as_flat_map {A B} (f : A -> B) (l : list A) :
  map f l = flat_map (fun x => [f x]) l.
Proof. induction l as [| x l IH]; [done |]. cbn. by rewrite IH. Qed.

Lemma filter_eqb_seq j : forall n a,
  length (List.filter (Nat.eqb j) (seq a n)) = if decide (a <= j < a + n) then 1 else 0.
Proof.
  induction n as [| n IH]; intros a; cbn [seq List.filter].
  - by destruct (decide _); [lia |].
  - destruct (Nat.eqb_spec j a) as [-> | Hne]; cbn [length]; rewrite IH.
    + rewrite decide_False by lia. by rewrite decide_True by lia.
    + destruct (decide (S a <= j < S a + n)).
      * by rewrite decide_True by lia.
      * by rewrite decide_False by lia.
Qed.

Lemma acquire_action_not_lifecycle a :
  is_acquire_action a = true -> is_init a = false /\ is_deinit a = false.
Proof. by destruct a. Qed.

Lemma setup_not_deinit_on j e :
  is_setup_event e = true -> on_device j is_deinit e = false.
Proof. destruct e as [i [] |]; cbn; try done; intros _; apply andb_false_r. Qed.

Ltac calls_of_singleton :=
  unfold calls; cbn [List.filter on_device is_init is_deinit is_end andb length];
  rewrite ?Nat.eqb_refl, ?andb_false_r; cbn [andb length]; try done.

(** [X21] In a session that runs to completion (every device is
    configured, the directory is made, the life-cycle calls return), every
    device is initialized twice and deinitialized twice: once by [main]
    and once more by [capture]. *)
Theorem completed_session_repeats_life_cycle (env : Env) (cams : list Camera)
    (text : string) (r0 : bool) (g : option string) (j : nat) :
  cwd_writable env = true ->
  input_tsv env = Some text ->
  mkdir_ok env = true ->
  (forall c, In c cams ->
     cam_init_ok c = true /\ cam_begin_ok c = true /\
     cam_end_ok c = true /\ cam_deinit_ok c = true) ->
  result_of (configure_loop (PyStr.readlines text) (seq 0 (length cams)) true None cams)
    = Ok (Fallthrough r0 g) ->
  j < length cams ->
  calls j is_init (trace_of (main env cams)) = 2 /\
  calls j is_deinit (trace_of (main env cams)) = 2.
Proof.
  intros Hcwd Htext Hmkdir Hok Hcfg Hj.
  assert (Hne : cams <> []) by (destruct cams; [cbn in Hj; lia | done]).
  rewrite (completed_session_run env cams text r0 g Hcwd Hne Htext Hmkdir Hok Hcfg).
  cbn [trace_of snd].
  destruct (configure_loop_spec cams (PyStr.readlines text) (seq 0 (length cams))
              true None cams (same_fleet_refl cams)) as (_ & Hsetup & _).
  pose proof (configure_loop_inits _ j _ _ _ _ _ _ Hcfg) as Hinits.
  set (cfg := configure_loop _ _ _ _ cams) in *.
  assert (Hin : 0 <= j < 0 + length cams) by lia.
  unfold main_prelude, init_trace, teardown_trace, begin_trace.
  rewrite !(map_as_flat_map (fun i => OnCam i _)).
  split.
  - rewrite !calls_app, Hinits, filter_eqb_seq.
    rewrite acquire_trace_calls.
    rewrite !calls_seq
      by (intros i Hi; unfold calls; cbn;
          rewrite ?(proj2 (Nat.eqb_neq i j) Hi); done).
    rewrite !decide_True by lia.
    assert (Hcycle : match state_of cfg !! (j - 0) with
                     | Some cj => length (List.filter is_init
                                    (trace_of (acquire_images
                                       (chosen_directory env +:+ "/" +:+ folder_name env) cj)))
                     | None => 0
                     end = 0).
    { destruct (state_of cfg !! (j - 0)) as [cj |]; [| done]. apply filter_none.
      destruct (acquire_images_spec cj (chosen_directory env +:+ "/" +:+ folder_name env)
                  cj (same_flags_refl cj)) as (_ & Hacq & _).
      eapply Forall_impl; [exact Hacq |].
      intros a Ha. by destruct (acquire_action_not_lifecycle a Ha). }
    rewrite Hcycle. calls_of_singleton.
  - rewrite !calls_app, (calls_none j is_deinit (trace_of cfg)).
    2: { eapply Forall_impl; [exact Hsetup |]. apply setup_not_deinit_on. }
    rewrite acquire_trace_calls.
    rewrite !calls_seq
      by (intros i Hi; unfold calls; cbn;
          rewrite ?(proj2 (Nat.eqb_neq i j) Hi); done).
    rewrite !decide_True by lia.
    assert (Hcycle : match state_of cfg !! (j - 0) with
                     | Some cj => length (List.filter is_deinit
                                    (trace_of (acquire_images
                                       (chosen_directory env +:+ "/" +:+ folder_name env) cj)))
                     | None => 0
                     end = 0).
    { destruct (state_of cfg !! (j - 0)) as [cj |]; [| done]. apply filter_none.
      destruct (acquire_images_spec cj (chosen_directory env +:+ "/" +:+ folder_name env)
                  cj (same_flags_refl cj)) as (_ & Hacq & _).
      eapply Forall_impl; [exact Hacq |].
      intros a Ha. by destruct (acquire_action_not_lifecycle a Ha). }
    rewrite Hcycle. calls_of_singleton.
Qed.

Lemma failed_cycle_ends_once (directory : string) (c : Camera) :
  retrieval_fails c = true ->
  (forall n, deref_node TLDeviceNodeMap "DeviceSerialNumber" KString c = Some n ->
             node_fault n = false) ->
  length (List.filter is_end (trace_of (acquire_images directory c))) = 1.
Proof.
  unfold retrieval_fails. intros Hfails Hfault.
  unfold acquire_images, acquire_one, NUM_IMAGES. cbn [seq].
  sym_run.
  all: try (match goal with
            | H' : node_fault ?n = true |- _ =>
                rewrite (Hfault n eq_refl) in H'; discriminate H'
            end).
  all: try (match goal with
            | H : deref_node _ _ _ _ = Some ?n, H' : node_data ?n = _ |- _ =>
                apply deref_node_kind in H; rewrite H' in H; discriminate H
            end).
  all: try (match goal with
            | H : deref_node _ _ _ _ = None, H' : is_available _ _ = true |- _ =>
                cbn [is_available] in H'; rewrite H in H'; discriminate H'
            end).
  all: done.
Qed.

(** [X22] Acquisition is ended twice on a device whose frame retrieval
    fails.  In a session that otherwise runs to completion,
    [EndAcquisition] is called on that device once by [acquire_images], in
    its handler of the failure, and once more by the tear-down loop of
    [capture]. *)
Theorem failed_retrieval_ends_acquisition_twice (env : Env) (cams : list Camera)
    (text : string) (r0 : bool) (g : option string) (k : nat) (ck : Camera) :
  cwd_writable env = true ->
  input_tsv env = Some text ->
  mkdir_ok env = true ->
  (forall c, In c cams ->
     cam_init_ok c = true /\ cam_begin_ok c = true /\
     cam_end_ok c = true /\ cam_deinit_ok c = true) ->
  let cfg := configure_loop (PyStr.readlines text) (seq 0 (length cams)) true None cams in
  result_of cfg = Ok (Fallthrough r0 g) ->
  state_of cfg !! k = Some ck ->
  retrieval_fails ck = true ->
  (forall n, deref_node TLDeviceNodeMap "DeviceSerialNumber" KString ck = Some n ->
             node_fault n = false) ->
  calls k is_end (trace_of (main env cams)) = 2.
Proof.
  intros Hcwd Htext Hmkdir Hok cfg Hcfg Hk Hfails Hfault.
  destruct (configure_loop_spec cams (PyStr.readlines text) (seq 0 (length cams))
              true None cams (same_fleet_refl cams)) as (Hfleet & Hsetup & _).
  fold cfg in Hfleet, Hsetup.
  assert (Hlen : length (state_of cfg) = length cams).
  { symmetry. by apply (Forall2_length _ _ _ Hfleet). }
  assert (Hlt : k < length cams).
  { rewrite <- Hlen. by apply lookup_lt_Some in Hk. }
  assert (Hne : cams <> []) by (destruct cams; [cbn in Hlt; lia | done]).
  rewrite (completed_session_run env cams text r0 g Hcwd Hne Htext Hmkdir Hok Hcfg).
  cbn [trace_of snd]. fold cfg.
  unfold main_prelude, init_trace, teardown_trace, begin_trace.
  rewrite !(map_as_flat_map (fun i => OnCam i _)).
  rewrite !calls_app, (calls_none k is_end (trace_of cfg)).
  2: { eapply Forall_impl; [exact Hsetup |].
       intros [i [] |]; cbn; try done; intros _; apply andb_false_r. }
  rewrite acquire_trace_calls.
  rewrite !calls_seq
    by (intros i Hi; unfold calls; cbn;
        rewrite ?(proj2 (Nat.eqb_neq i k) Hi); done).
  rewrite !decide_True by lia. rewrite Nat.sub_0_r, Hk.
  rewrite (failed_cycle_ends_once _ ck Hfails Hfault).
  calls_of_singleton.
Qed.

(** [X23] The result of a session that runs to completion is [True]
    exactly when [print_device_info] returned [True] for every device and
    the image-buffer cycle of every device returned [True]: a
    [configure_camera] that returns adds nothing to it, whatever settings
    it skipped. *)
Theorem completed_session_result (env : Env) (cams : list Camera)
    (text : string) (r0 : bool) (g : option string) :
  cwd_writable env = true ->
  cams <> [] ->
  input_tsv env = Some text ->
  mkdir_ok env = true ->
  (forall c, In c cams ->
     cam_init_ok c = true /\ cam_begin_ok c = true /\
     cam_end_ok c = true /\ cam_deinit_ok c = true) ->
  let cfg := configure_loop (PyStr.readlines text) (seq 0 (length cams)) true None cams in
  let directory := chosen_directory env +:+ "/" +:+ folder_name env in
  result_of cfg = Ok (Fallthrough r0 g) ->
  result_of (main env cams) =
    Ok (forallb (device_info_ok cams) (seq 0 (length cams)) &&
        forallb (acquired directory) (state_of cfg)).
Proof.
  intros Hcwd Hne Htext Hmkdir Hok cfg directory Hcfg.
  rewrite (completed_session_run env cams text r0 g Hcwd Hne Htext Hmkdir Hok Hcfg).
  cbn [result_of fst]. fold cfg directory.
  by rewrite (configure_loop_result _ _ _ _ _ _ _ (NoDup_seq 0 (length cams)) Hcfg).
Qed.

Lemma lookup_last_block_wins_witness :
  Lookup.lookup_gain (PyStr.readlines ScenarioLookup.repeated_blocks) "ABC123" None
    = Ok (Some "7.0") /\
  Some "7.0" = Some (PyStr.drop_last ("7.0" +:+ PyStr.nl)).
Proof.
  split; [reflexivity |].
  apply (lookup_last_block_wins (PyStr.readlines ScenarioLookup.repeated_blocks)
           "ABC123" None (Some "7.0") 2 ("7.0" +:+ PyStr.nl)).
  - do 4 eexists. repeat split; reflexivity.
  - reflexivity.
  - reflexivity.
Defined.

Lemma lookup_drops_last_character_witness :
  Lookup.lookup_gain (PyStr.readlines ScenarioLookup.unterminated) "ABC123" None
    = Ok (Some "12.").
Proof.
  apply (lookup_drops_last_character (PyStr.readlines ScenarioLookup.unterminated)
           "ABC123" None 0
           (Scenario.line "DeviceSerialNumber" ("ABC123" +:+ PyStr.tab))
           [PyStr.nl] "12." "5"%char); reflexivity.
Defined.

Lemma lookup_raises_only_witness :
  (ValueError = ValueError /\
   malformed_block (PyStr.readlines Scenario7.text) "ABC123") \/
  ValueError = IndexError.
Proof.
  apply (lookup_raises_only (PyStr.readlines Scenario7.text) "ABC123" None ValueError).
  reflexivity.
Defined.

Lemma stale_gain_is_reused_witness :
  exists pre post,
    trace_of (configure_loop (PyStr.readlines Scenario.padded_config) [1] true
                (Some "12.5") Scenario.two_cameras) =
      pre ++ map (OnCam 1)
               (trace_of (configure_camera (PStr "12.5")
                            (Scenario.camera "XYZ999" Scenario.feature_tree
                               [Some Scenario.good_frame]))) ++ post /\
    In (OnCam 1 EvInit) pre /\
    ~ In (Out (MsgGainUndefined "XYZ999")) pre.
Proof.
  apply (stale_gain_is_reused (PyStr.readlines Scenario.padded_config) 1 [] true "12.5"
           Scenario.two_cameras
           (Scenario.camera "XYZ999" Scenario.feature_tree [Some Scenario.good_frame])
           "XYZ999"); reflexivity.
Defined.

Lemma change_gain_switches_auto_off_first_witness :
  change_gain (PStr "12.5") ScenarioGain.device =
    (Ok tt,
     with_nodes NodeMap
       (insert "GainAuto"
          (with_data (Enumeration {[ "Off" := Scenario.entry 0 "Off" ]} 0)
             ScenarioGain.gain_auto))
       ScenarioGain.device,
     [EvSetIntValue (NodePtr NodeMap "GainAuto" KEnumeration) 0;
      EvPrint MsgUnableGain]).
Proof.
  apply (change_gain_switches_auto_off_first (PStr "12.5") ScenarioGain.device
           ScenarioGain.gain_auto (Scenario.entry 0 "Off")
           {[ "Off" := Scenario.entry 0 "Off" ]} 2); reflexivity.
Defined.

Lemma configure_camera_escapes_only_at_node_map_witness :
  exists b, result_of (configure_camera (PStr "12.5") Scenario10.bare_device) = Ok b.
Proof.
  apply (proj1 (proj2 (configure_camera_escapes_only_at_node_map
                         (PStr "12.5") Scenario10.bare_device))).
  reflexivity.
Defined.

Lemma complete_frame_is_saved_and_released_witness :
  let c := Scenario.camera "ABC123" Scenario.feature_tree [Some Scenario.good_frame] in
  acquire_images "/data" c =
    (Ok true, with_frames [] 0 c,
     [EvPrint MsgAcquiring; EvPrint (MsgSerialRetrieved "ABC123");
      EvGetNextImage; EvPrint (MsgGrabbed 0 2048 1536);
      EvSave "/data/RatKingReigns-ABC123-0.png";
      EvPrint (MsgSaved "RatKingReigns-ABC123-0.png");
      EvRelease; EvPrint MsgBlank]).
Proof.
  apply (complete_frame_is_saved_and_released "/data" "ABC123"
           (Scenario.camera "ABC123" Scenario.feature_tree [Some Scenario.good_frame])
           (Scenario.node "Serial Number" (StringNode "ABC123"))
           Scenario.good_frame []); done.
Defined.

Lemma begin_failure_skips_teardown_witness :
  let env := Scenario.env Scenario.two_padded_blocks in
  let cfg := configure_loop (PyStr.readlines Scenario.two_padded_blocks) [0; 1] true None
               ScenarioSession.stuck_cameras in
  capture env ScenarioSession.stuck_cameras =
    (Ok false, state_of cfg,
     trace_of cfg ++
     [OnCam 0 EvBeginAcquisition; OnCam 1 EvBeginAcquisition] ++ [Out MsgError]).
Proof.
  apply (begin_failure_skips_teardown (Scenario.env Scenario.two_padded_blocks)
           ScenarioSession.stuck_cameras Scenario.two_padded_blocks true (Some "3.0") 1
           (ScenarioSession.device "XYZ999" false)).
  - reflexivity.
  - reflexivity.
  - vm_compute. reflexivity.
  - reflexivity.
  - reflexivity.
  - intros [| [| j]] c Hj; [| lia | lia]. by intros [= <-].
Defined.

Lemma escaped_exception_skips_deinit_witness :
  let x := main ScenarioSession.no_input Scenario.two_cameras in
  result_of x = Raise OSError /\
  OSError <> SpinnakerException /\
  (forall j, j < 2 -> In (OnCam j EvInit) (trace_of x)) /\
  Forall (fun ev => ev_deinit ev = false) (trace_of x) /\
  no_begin (trace_of x).
Proof.
  apply (escaped_exception_skips_deinit ScenarioSession.no_input
           Scenario.two_cameras OSError).
  - reflexivity.
  - done.
  - intros c [<- | [<- | []]]; reflexivity.
  - reflexivity.
Defined.

Lemma no_write_after_acquisition_start_witness :
  let t := trace_of (main (Scenario.env Scenario.two_padded_blocks) Scenario.two_cameras) in
  Forall (fun e => is_cam_write e = false) (drop (S (ScenarioSession.first_begin t)) t).
Proof.
  intros t.
  apply (no_write_after_acquisition_start (Scenario.env Scenario.two_padded_blocks)
           Scenario.two_cameras
           (take (ScenarioSession.first_begin t) t)
           (drop (S (ScenarioSession.first_begin t)) t) 0).
  vm_compute. reflexivity.
Defined.

Lemma completed_session_repeats_life_cycle_witness :
  let t := trace_of (main (Scenario.env Scenario.two_padded_blocks) Scenario.two_cameras) in
  calls 1 is_init t = 2 /\ calls 1 is_deinit t = 2.
Proof.
  apply (completed_session_repeats_life_cycle (Scenario.env Scenario.two_padded_blocks)
           Scenario.two_cameras Scenario.two_padded_blocks true (Some "3.0") 1).
  - reflexivity.
  - reflexivity.
  - reflexivity.
  - intros c [<- | [<- | []]]; repeat split; reflexivity.
  - vm_compute. reflexivity.
  - cbn. lia.
Defined.

Lemma failed_retrieval_ends_acquisition_twice_witness :
  calls 0 is_end (trace_of (main Scenario9.environment Scenario9.cameras)) = 2.
Proof.
  apply (failed_retrieval_ends_acquisition_twice Scenario9.environment Scenario9.cameras
           Scenario.two_padded_blocks true (Some "3.0") 0 Scenario9.device_a).
  - reflexivity.
  - reflexivity.
  - reflexivity.
  - intros c [<- | [<- | []]]; repeat split; reflexivity.
  - vm_compute. reflexivity.
  - vm_compute. reflexivity.
  - vm_compute. reflexivity.
  - intros n Hn. vm_compute in Hn. injection Hn as <-. reflexivity.
Defined.

Lemma completed_session_result_witness :
  result_of (main (Scenario.env Scenario.two_padded_blocks) Scenario.two_cameras) =
    Ok (forallb (device_info_ok Scenario.two_cameras) [0; 1] &&
        forallb (acquired "/data/2024-05-17 10-30-00")
          (state_of (configure_loop (PyStr.readlines Scenario.two_padded_blocks)
                       [0; 1] true None Scenario.two_cameras))).
Proof.
  apply (completed_session_result (Scenario.env Scenario.two_padded_blocks)
           Scenario.two_cameras Scenario.two_padded_blocks true (Some "3.0")).
  - reflexivity.
  - done.
  - reflexivity.
  - reflexivity.
  - intros c [<- | [<- | []]]; repeat split; reflexivity.
  - vm_compute. reflexivity.
Defined.

(** ** A failed retrieval *)






